(** * PDF-Fusion: page configuration, merge, stamping placement and naming

    A shallow embedding of the document assembly and placement core of
    PDF-Fusion (src/components/MergeMode.tsx and src/components/SignMode.tsx,
    the latter also holding the PageEditorModal component), of the handlers
    of the two components around it, of the naming rule of CompressMode and
    of the earlier merge of src/App.tsx.

    Conventions of the embedding:
    - a JS [Record<number, PageConfig>] is a [gmap nat PageConfig];
    - page rotations are integers ([Z]); JS [%] is the truncating remainder
      [Z.rem];
    - coordinates and sizes are exact rationals ([Q]); rounding of IEEE
      doubles is not modelled;
    - a JS string is a Rocq [string], one [ascii] per code unit (the code
      units below 256);
    - a thrown exception is [None] (or a dedicated constructor where the
      state left behind matters);
    - of pdf-lib: [save] gives a document without pages one blank page,
      [setRotation] throws unless the angle is a multiple of 90, and
      embedding an image may throw. *)

From Stdlib Require Import ZArith QArith Qround Lia Lqa Ascii DecimalString.
From Stdlib Require String.
From stdpp Require Import gmap strings list fin_maps.

Local Open Scope Z_scope.

(** ** JavaScript strings

    The string methods the components call, on sequences of code units. *)

Module JS.

(** The code units of a string. *)
Abbreviation units := String.list_ascii_of_string.

(** ECMAScript WhiteSpace and LineTerminator code units below 256: TAB, LF,
    VT, FF, CR, SP and NBSP. *)
Definition isWhiteSpace (c : ascii) : bool :=
  match N_of_ascii c with
  | 9 | 10 | 11 | 12 | 13 | 32 | 160 => true
  | _ => false
  end%N.

(** Lower-casing of one code unit: A-Z, and the Latin-1 capitals U+00C0 to
    U+00DE except the multiplication sign U+00D7. *)
Definition lowerUnit (c : ascii) : ascii :=
  let n := N_of_ascii c in
  if ((65 <=? n) && (n <=? 90) || (192 <=? n) && (n <=? 222) && negb (n =? 215))%N
  then ascii_of_N (n + 32) else c.

Fixpoint trimStartUnits (l : list ascii) : list ascii :=
  match l with
  | [] => []
  | c :: rest => if isWhiteSpace c then trimStartUnits rest else l
  end.

Definition trimUnits (l : list ascii) : list ascii :=
  reverse (trimStartUnits (reverse (trimStartUnits l))).

(** A sequence of code units with no white space at either end. *)
Definition trimmed (l : list ascii) : Prop :=
  (∀ c, head l = Some c → isWhiteSpace c = false)
  ∧ (∀ c, last l = Some c → isWhiteSpace c = false).

Fixpoint startsWithUnits (l p : list ascii) : bool :=
  match p, l with
  | [], _ => true
  | _ :: _, [] => false
  | a :: p', c :: l' => bool_decide (a = c) && startsWithUnits l' p'
  end.

Definition endsWithUnits (l suffix : list ascii) : bool :=
  startsWithUnits (reverse l) (reverse suffix).

Fixpoint includesUnits (l p : list ascii) : bool :=
  startsWithUnits l p ||
  match l with
  | [] => false
  | _ :: l' => includesUnits l' p
  end.

(** [s.replace(/\.[^/.]+$/, "")]: the match starts at the first dot that is
    followed, up to the end of the string, by one or more code units that are
    neither a slash nor a dot; the match runs to the end and is removed. *)
Fixpoint stripExtensionUnits (l : list ascii) : list ascii :=
  match l with
  | [] => []
  | c :: rest =>
      if bool_decide (c = "."%char)
         && negb (bool_decide (rest = []))
         && forallb (λ d, negb (bool_decide (d = "/"%char) || bool_decide (d = "."%char))) rest
      then []
      else c :: stripExtensionUnits rest
  end.

Definition trim (s : string) : string :=
  String.string_of_list_ascii (trimUnits (String.list_ascii_of_string s)).

Definition toLowerCase (s : string) : string :=
  String.string_of_list_ascii (lowerUnit <$> String.list_ascii_of_string s).

Definition endsWith (s suffix : string) : bool :=
  endsWithUnits (String.list_ascii_of_string s) (String.list_ascii_of_string suffix).

Definition includes (s p : string) : bool :=
  includesUnits (String.list_ascii_of_string s) (String.list_ascii_of_string p).

Definition stripExtension (s : string) : string :=
  String.string_of_list_ascii (stripExtensionUnits (String.list_ascii_of_string s)).

(** [!s] for a string: only the empty string is falsy. *)
Definition isEmpty (s : string) : bool := bool_decide (s = "").

(** A number in a template literal (integers only). *)
Definition showZ (z : Z) : string := NilZero.string_of_int (Z.to_int z).

End JS.

(** ** Promise.all

    [Promise.all] over an array of already started tasks.  A task settles
    once, fulfilled with a value or rejected; [schedule] lists the task
    indices in the order in which they settle. *)

Module Promise.

Inductive Settled (A : Type) :=
| Fulfilled (value : A)
| Rejected.
Arguments Fulfilled {A} value.
Arguments Rejected {A}.

(** The aggregate promise: one slot per input in [values], the count of
    inputs still awaited, and the way the aggregate has settled, if it has. *)
Record AllState (A : Type) := {
  values : list (option A);
  remaining : nat;
  settled : option (Settled (list A))
}.
Arguments values {A} _.
Arguments remaining {A} _.
Arguments settled {A} _.

Definition start {A} (n : nat) : AllState A :=
  {| values := replicate n None;
     remaining := n;
     settled := if (n =? 0)%nat then Some (Fulfilled []) else None |}.

(** Task [i] settles.  A fulfilment stores the value in slot [i] and, when it
    was the last one awaited, fulfils the aggregate with the slots in index
    order; a rejection rejects the aggregate.  A settled aggregate never
    changes again. *)
Definition onSettle {A} (tasks : list (Settled A)) (st : AllState A) (i : nat)
  : AllState A :=
  match tasks !! i with
  | Some (Fulfilled v) =>
      let values' := <[i := Some v]> (values st) in
      let remaining' := pred (remaining st) in
      {| values := values';
         remaining := remaining';
         settled :=
           match settled st with
           | Some r => Some r
           | None =>
               if (remaining' =? 0)%nat
               then Fulfilled <$> mapM id values'
               else None
           end |}
  | Some Rejected =>
      {| values := values st;
         remaining := remaining st;
         settled := match settled st with Some r => Some r | None => Some Rejected end |}
  | None => st
  end.

Definition all {A} (tasks : list (Settled A)) (schedule : list nat)
  : option (Settled (list A)) :=
  settled (foldl (onSettle tasks) (start (length tasks)) schedule).

(** What the aggregate is expected to settle to: every value in index order,
    or a rejection when some task is rejected. *)
Fixpoint joined {A} (tasks : list (Settled A)) : Settled (list A) :=
  match tasks with
  | [] => Fulfilled []
  | Fulfilled v :: rest =>
      match joined rest with
      | Fulfilled vs => Fulfilled (v :: vs)
      | Rejected => Rejected
      end
  | Rejected :: _ => Rejected
  end.

(** The value a settled task leaves in its slot. *)
Definition valueOf {A} (t : Settled A) : option A :=
  match t with
  | Fulfilled v => Some v
  | Rejected => None
  end.

(** The slots once the tasks listed in [fulfilled] have been fulfilled. *)
Definition slots {A} (tasks : list (Settled A)) (fulfilled : list nat) : list (option A) :=
  imap (λ i t, if bool_decide (i ∈ fulfilled) then valueOf t else None) tasks.

End Promise.

(** ** PageEditorModal: the per-document page configuration store *)

Module PageEditor.

(** [export interface PageConfig { selected: boolean; rotation: number }] *)
Record PageConfig := { selected : bool; rotation : Z }.

(** The literal [{ selected: true, rotation: 0 }] used by [loadPdf] and by
    the thumbnail grid. *)
Definition defaultConfig : PageConfig := {| selected := true; rotation := 0 |}.

(** [newConfig[i].selected = b]: the entry object is mutated in place. *)
Definition withSelected (b : bool) (c : PageConfig) : PageConfig :=
  {| selected := b; rotation := rotation c |}.

Definition withRotation (r : Z) (c : PageConfig) : PageConfig :=
  {| selected := selected c; rotation := r |}.

(** The loop of [loadPdf] ("Initialize config if missing"):
    [for (i = 0; i < numPages; i++) if (!newConfig[i]) { newConfig[i] = {...}; configChanged = true }]. *)
Definition initStep (acc : gmap nat PageConfig * bool) (i : nat)
  : gmap nat PageConfig * bool :=
  match acc.1 !! i with
  | Some _ => acc
  | None => (<[i := defaultConfig]> acc.1, true)
  end.

Definition initLoop (numPages : nat) (config : gmap nat PageConfig)
  : gmap nat PageConfig * bool :=
  foldl initStep (config, false) (seq 0 numPages).

(** The configuration state after [loadPdf]: the materialised map is
    committed only when [configChanged && Object.keys(config).length === 0]. *)
Definition loadPdf (numPages : nat) (config : gmap nat PageConfig)
  : gmap nat PageConfig :=
  let '(newConfig, configChanged) := initLoop numPages config in
  if configChanged && (size config =? 0)%nat then newConfig else config.

(** [toggleSelection]: [{...prev, [index]: {...prev[index], selected: !prev[index].selected}}].
    Reading [prev[index].selected] throws a TypeError when the entry is
    missing. *)
Definition toggleSelection (index : nat) (prev : gmap nat PageConfig)
  : option (gmap nat PageConfig) :=
  match prev !! index with
  | None => None
  | Some c => Some (<[index := withSelected (negb (selected c)) c]> prev)
  end.

(** [rotatePage]: [{...prev, [index]: {...prev[index], rotation: (prev[index].rotation + 90) % 360}}]. *)
Definition rotatePage (index : nat) (prev : gmap nat PageConfig)
  : option (gmap nat PageConfig) :=
  match prev !! index with
  | None => None
  | Some c => Some (<[index := withRotation (Z.rem (rotation c + 90) 360) c]> prev)
  end.

(** How [selectAll] / [deselectAll] end.  The entry objects of
    [newConfig = {...config}] are shared with the current state, so the
    entries visited before a TypeError stay mutated: [TypeError] carries the
    entries as the throw leaves them ([setConfig] is not reached). *)
Inductive Completion :=
| Normal (newConfig : gmap nat PageConfig)
| TypeError (left_behind : gmap nat PageConfig).

(** [for (let i = 0; i < numPages; i++) newConfig[i].selected = b] *)
Fixpoint setSelectedLoop (b : bool) (indices : list nat)
    (newConfig : gmap nat PageConfig) : Completion :=
  match indices with
  | [] => Normal newConfig
  | i :: rest =>
      match newConfig !! i with
      | None => TypeError newConfig
      | Some c => setSelectedLoop b rest (<[i := withSelected b c]> newConfig)
      end
  end.

Definition selectAll (numPages : nat) (config : gmap nat PageConfig) : Completion :=
  setSelectedLoop true (seq 0 numPages) config.

Definition deselectAll (numPages : nat) (config : gmap nat PageConfig) : Completion :=
  setSelectedLoop false (seq 0 numPages) config.

(** The thumbnail grid reads [config[i] || { selected: true, rotation: 0 }]. *)
Definition shown (config : gmap nat PageConfig) (i : nat) : PageConfig :=
  default defaultConfig (config !! i).

(** The controls of the editor: a click on a thumbnail, its rotate button,
    and the two buttons above the grid. *)
Inductive Action :=
| Toggle (index : nat)
| Rotate (index : nat)
| SelectAll
| DeselectAll.

(** The configuration after one action, [None] when the handler throws. *)
Definition perform (numPages : nat) (a : Action) (config : gmap nat PageConfig)
  : option (gmap nat PageConfig) :=
  match a with
  | Toggle index => toggleSelection index config
  | Rotate index => rotatePage index config
  | SelectAll =>
      match selectAll numPages config with
      | Normal newConfig => Some newConfig
      | TypeError _ => None
      end
  | DeselectAll =>
      match deselectAll numPages config with
      | Normal newConfig => Some newConfig
      | TypeError _ => None
      end
  end.

Fixpoint session (numPages : nat) (actions : list Action)
    (config : gmap nat PageConfig) : option (gmap nat PageConfig) :=
  match actions with
  | [] => Some config
  | a :: rest =>
      match perform numPages a config with
      | Some config' => session numPages rest config'
      | None => None
      end
  end.

(** The grid shows the thumbnails [0 .. numPages - 1] only. *)
Definition onGrid (numPages : nat) (a : Action) : Prop :=
  match a with
  | Toggle index | Rotate index => (index < numPages)%nat
  | SelectAll | DeselectAll => True
  end.

(** Every page has an entry, and its rotation is one of the four right
    angles. *)
Definition wellFormed (numPages : nat) (config : gmap nat PageConfig) : Prop :=
  ∀ i, (i < numPages)%nat →
    ∃ c, config !! i = Some c
         ∧ (rotation c = 0 ∨ rotation c = 90 ∨ rotation c = 180 ∨ rotation c = 270).

(** Four presses of the rotate button on one page. *)
Definition rotateFour (index : nat) (prev : gmap nat PageConfig)
  : option (gmap nat PageConfig) :=
  c1 ← rotatePage index prev;
  c2 ← rotatePage index c1;
  c3 ← rotatePage index c2;
  rotatePage index c3.

End PageEditor.

(** ** MergeMode: the merge engine *)

Module Merge.
Import PageEditor.

(** A page as pdf-lib hands it out: an opaque content reference and the
    value of [page.getRotation().angle].  The reference 0 stands for the
    empty content of a page pdf-lib creates itself. *)
Record PDFPage := { content : nat; angle : Z }.

(** [page.setRotation(degrees(a))]: pdf-lib asserts that [a] is a multiple of
    90 ([a % 90 === 0]) and throws otherwise; an accepted angle is stored as
    it is, without reduction. *)
Definition setRotation (a : Z) (page : PDFPage) : option PDFPage :=
  if Z.rem a 90 =? 0 then Some {| content := content page; angle := a |} else None.

(** A browser [File]: its name, its MIME [type], [lastModified], and what
    [PDFDocument.load] makes of its bytes ([None] when loading throws). *)
Record File := {
  name : string;
  mime : string;
  lastModified : Z;
  document : option (list PDFPage)
}.

Inductive FileType := pdf | word | excel.

(** [export interface AppFile] *)
Record AppFile := {
  id : string;
  file : File;
  type : FileType;
  pageConfig : option (gmap nat PageConfig)
}.

(** The callback of [copiedPages.forEach((page, index) => ...)], threading
    the page list of [mergedPdf]; [None] when [setRotation] throws. *)
Definition forEachPage (appFile : AppFile) (mergedPdf : list PDFPage)
    (entry : nat * PDFPage) : option (list PDFPage) :=
  let '(index, page) := entry in
  match pageConfig appFile ≫= (.!! index) with
  | Some config =>
      if negb (selected config) then Some mergedPdf
      else if rotation config =? 0 then Some (mergedPdf ++ [page])
      else
        page' ← setRotation (angle page + rotation config) page;
        Some (mergedPdf ++ [page'])
  | None => Some (mergedPdf ++ [page])
  end.

(** [copiedPages.forEach(...)]: an exception thrown by the callback ends the
    loop and the merge. *)
Fixpoint forEach (appFile : AppFile) (copiedPages : list (nat * PDFPage))
    (mergedPdf : list PDFPage) : option (list PDFPage) :=
  match copiedPages with
  | [] => Some mergedPdf
  | entry :: rest =>
      mergedPdf' ← forEachPage appFile mergedPdf entry;
      forEach appFile rest mergedPdf'
  end.

(** [for (const appFile of pdfFiles) { ... }] *)
Fixpoint mergeLoop (pdfFiles : list AppFile) (mergedPdf : list PDFPage)
  : option (list PDFPage) :=
  match pdfFiles with
  | [] => Some mergedPdf
  | appFile :: rest =>
      match document (file appFile) with
      | None => None
      | Some pdfPages =>
          mergedPdf' ← forEach appFile (imap pair pdfPages) mergedPdf;
          mergeLoop rest mergedPdf'
      end
  end.

(** The page [PDFDocument.addPage()] creates: no content, no rotation. *)
Definition defaultPage : PDFPage := {| content := 0; angle := 0 |}.

(** The pages of the file [mergedPdf.save(...)] writes: pdf-lib's option
    [addDefaultPage] is true unless it is given, and a document without any
    page gets one blank page before it is written. *)
Definition save (mergedPdf : list PDFPage) : list PDFPage :=
  match mergedPdf with
  | [] => [defaultPage]
  | _ :: _ => mergedPdf
  end.

(** The saved output: its pages and the [useObjectStreams] option. *)
Record Blob := { pages : list PDFPage; useObjectStreams : bool }.

Definition createMergedPdfBlob (isCompressionEnabled : bool)
    (pdfFiles : list AppFile) : option Blob :=
  mergedPdf ← mergeLoop pdfFiles [];
  Some {| pages := save mergedPdf; useObjectStreams := isCompressionEnabled |}.

(** *** The merge contract in the specification's words *)

(** The configuration an index resolves to: the stored entry, or the default
    when there is none. *)
Definition resolve (pc : option (gmap nat PageConfig)) (i : nat) : PageConfig :=
  default defaultConfig (pc ≫= (.!! i)).

(** A document's selected pages in ascending index order, each with its
    index. *)
Definition selectedPages (pc : option (gmap nat PageConfig)) (d : list PDFPage)
  : list (nat * PDFPage) :=
  List.filter (λ e, selected (resolve pc e.1)) (imap pair d).


(** The page written for a selected page: rotation is the intrinsic angle
    plus the configured one. *)
Definition rotated (pc : option (gmap nat PageConfig)) (e : nat * PDFPage) : PDFPage :=
  {| content := content e.2; angle := angle e.2 + rotation (resolve pc e.1) |}.

(** A page the merge can write: it is deselected, or its configured rotation
    is 0, or the sum of its own and its configured rotation is a multiple of
    90. *)
Definition writable (pc : option (gmap nat PageConfig)) (e : nat * PDFPage) : bool :=
  negb (selected (resolve pc e.1))
  || (rotation (resolve pc e.1) =? 0)
  || (Z.rem (angle e.2 + rotation (resolve pc e.1)) 90 =? 0).

(** A loaded document all of whose pages the merge can write. *)
Definition rotatable (e : option (gmap nat PageConfig) * list PDFPage) : bool :=
  forallb (writable e.1) (imap pair e.2).

(** What one page adds to the output: nothing when it is deselected. *)
Definition emitted (pc : option (gmap nat PageConfig)) (e : nat * PDFPage) : list PDFPage :=
  if selected (resolve pc e.1) then [rotated pc e] else [].

(** The pages one loaded document contributes to the output. *)
Definition contribution (e : option (gmap nat PageConfig) * list PDFPage) : list PDFPage :=
  rotated e.1 <$> selectedPages e.1 e.2.

(** All documents of the list, loaded, with their configuration. *)
Fixpoint loadAll (pdfFiles : list AppFile)
  : option (list (option (gmap nat PageConfig) * list PDFPage)) :=
  match pdfFiles with
  | [] => Some []
  | f :: rest =>
      match document (file f), loadAll rest with
      | Some d, Some loaded => Some ((pageConfig f, d) :: loaded)
      | _, _ => None
      end
  end.

(** *** The suggested file name of the merged document *)

(** Lines 434-440 of [runMergeProcess]. *)
Definition finalName (mergedFileName : string) : string :=
  let finalName := JS.trim mergedFileName in
  let finalName := if JS.isEmpty finalName then "merged-document.pdf" else finalName in
  if negb (JS.endsWith (JS.toLowerCase finalName) ".pdf")
  then finalName +:+ ".pdf"
  else finalName.

(** *** Adding files: [processAndAddFiles] *)

(** The converters the tasks await, each of which may reject. *)
Record Converters := {
  compressImage : File → option File;
  convertImageToPdf : File → option File;
  convertOfficeToPdf : File → FileType → option File
}.

(** The part of the component state [processAndAddFiles] reads and writes. *)
Record State := {
  files : list AppFile;
  error : option string;
  isProcessing : bool;
  isCompressionEnabled : bool
}.

Definition allowedTypes : list string :=
  [ "application/pdf"; "image/jpeg"; "image/png"; "application/msword";
    "application/vnd.openxmlformats-officedocument.wordprocessingml.document";
    "application/vnd.ms-excel";
    "application/vnd.openxmlformats-officedocument.spreadsheetml.sheet" ].

(** The predicate of [Array.from(filesToAdd).filter(...)]. *)
Definition isValidFile (f : File) : bool :=
  existsb (String.eqb (mime f)) allowedTypes
  || JS.endsWith (name f) ".doc" || JS.endsWith (name f) ".docx"
  || JS.endsWith (name f) ".xls" || JS.endsWith (name f) ".xlsx"
  || JS.endsWith (name f) ".pdf" || JS.endsWith (name f) ".jpg"
  || JS.endsWith (name f) ".jpeg" || JS.endsWith (name f) ".png".

Definition makeId (f : File) (random : string) : string :=
  name f +:+ "-" +:+ JS.showZ (lastModified f) +:+ "-" +:+ random.

Definition settle {A} (o : option A) : Promise.Settled A :=
  match o with
  | Some a => Promise.Fulfilled a
  | None => Promise.Rejected
  end.

(** The body of [validFiles.map(async (file) => ...)]; [random] is the value
    [Math.random()] yields in this task. *)
Definition processFile (conv : Converters) (compression : bool) (random : string)
    (f : File) : Promise.Settled AppFile :=
  settle (
    if String.eqb (mime f) "image/jpeg" || String.eqb (mime f) "image/png" then
      let imageToConvert :=
        if compression then default f (compressImage conv f) else f in
      fileToProcess ← convertImageToPdf conv imageToConvert;
      Some {| id := makeId f random; file := fileToProcess; type := pdf; pageConfig := None |}
    else if JS.includes (mime f) "word" || JS.endsWith (name f) ".doc"
            || JS.endsWith (name f) ".docx" then
      fileToProcess ← convertOfficeToPdf conv f word;
      Some {| id := makeId f random; file := fileToProcess; type := word; pageConfig := None |}
    else if JS.includes (mime f) "excel" || JS.includes (mime f) "spreadsheet"
            || JS.endsWith (name f) ".xls" || JS.endsWith (name f) ".xlsx" then
      fileToProcess ← convertOfficeToPdf conv f excel;
      Some {| id := makeId f random; file := fileToProcess; type := excel; pageConfig := None |}
    else
      Some {| id := makeId f random; file := f; type := pdf; pageConfig := None |}).

Definition validFiles (filesToAdd : list File) : list File :=
  List.filter isValidFile filesToAdd.

Definition processedFiles (conv : Converters) (compression : bool)
    (random : nat → string) (filesToAdd : list File) : list (Promise.Settled AppFile) :=
  imap (λ i f, processFile conv compression (random i) f) (validFiles filesToAdd).

(** [processAndAddFiles]: the state once the tasks have settled in the order
    [schedule].  [st] is the state at that moment: [setFiles] is given an
    updater. *)
Definition processAndAddFiles (conv : Converters) (random : nat → string)
    (schedule : list nat) (filesToAdd : list File) (st : State) : State :=
  if (length (validFiles filesToAdd) =? 0)%nat then
    {| files := files st;
       error := Some "Ninguno de los archivos seleccionados es un formato válido (PDF, JPG, PNG).";
       isProcessing := false;
       isCompressionEnabled := isCompressionEnabled st |}
  else
    match Promise.all (processedFiles conv (isCompressionEnabled st) random filesToAdd) schedule with
    | Some (Promise.Fulfilled newFiles) =>
        {| files := files st ++ newFiles;
           error := None;
           isProcessing := false;
           isCompressionEnabled := isCompressionEnabled st |}
    | Some Promise.Rejected =>
        {| files := files st;
           error := Some "Ocurrió un error al procesar uno de los archivos.";
           isProcessing := false;
           isCompressionEnabled := isCompressionEnabled st |}
    | None =>
        {| files := files st;
           error := None;
           isProcessing := true;
           isCompressionEnabled := isCompressionEnabled st |}
    end.

End Merge.

(** ** SignMode: stamping a signature image *)

Module Sign.

Local Open Scope Q_scope.

(** [{ width: number, height: number }] *)
Record Dims := { width : Q; height : Q }.

(** [{ x: number, y: number }] *)
Record Point := { x : Q; y : Q }.

(** The options of [page.drawImage]: [x], [y], [width] and [height]. *)
Record DrawOptions := { origin : Point; extent : Dims }.

(** A page of a loaded document: [page.getSize()] and the images drawn on it
    so far. *)
Record PDFPage := { getSize : Dims; drawn : list DrawOptions }.

Definition drawImage (o : DrawOptions) (page : PDFPage) : PDFPage :=
  {| getSize := getSize page; drawn := drawn page ++ [o] |}.

Record File := {
  name : string;
  mime : string;
  document : option (list PDFPage)
}.

(** [interface SignFile] *)
Record SignFile := { id : string; file : File }.

(** The signature image: its MIME type, the pixel size of the embedded
    image ([embeddedImage.scale(1)]), and whether its bytes are an image of
    the format [handleSign] embeds them as ([embedJpg] for the type
    image/jpeg, [embedPng] otherwise): when they are not, embedding throws. *)
Record ImageFile := { imageType : string; pixels : Dims; embeds : bool }.

Inductive Corner := TL | TR | BL | BR.
Inductive PagesToSign := ALL | FIRST | LAST.

(** [getBoundingClientRect()] of the preview canvas. *)
Record DOMRect := { left : Q; top : Q; bounds : Dims }.

(** The component state. *)
Record State := {
  pdfs : list SignFile;
  signatureImage : option ImageFile;
  sigImageDims : option Dims;
  useVisualPlacement : bool;
  position : Corner;
  pagesToSign : PagesToSign;
  signatureScale : Q;
  pdfPageDimensions : option Dims;
  canvasDims : option Dims;
  dragPos : Point;
  isDragging : bool
}.

Definition Qltb (a b : Q) : bool := negb (Qle_bool b a).

(** [const visualWidth = sigImageDims && pdfPageDimensions && canvasDims ? ... : 150] *)
Definition visualWidth (st : State) : Q :=
  match sigImageDims st, pdfPageDimensions st, canvasDims st with
  | Some sig, Some page, Some canvas =>
      width sig * signatureScale st * (width canvas / width page)
  | _, _, _ => 150
  end.

(** [visualWidth * (sigImageDims.height / sigImageDims.width)] *)
Definition visualHeight (st : State) (sig : Dims) : Q :=
  visualWidth st * (height sig / width sig).

Definition setDragPos (p : Point) (st : State) : State :=
  {| pdfs := pdfs st; signatureImage := signatureImage st;
     sigImageDims := sigImageDims st; useVisualPlacement := useVisualPlacement st;
     position := position st; pagesToSign := pagesToSign st;
     signatureScale := signatureScale st; pdfPageDimensions := pdfPageDimensions st;
     canvasDims := canvasDims st; dragPos := p; isDragging := isDragging st |}.

(** The four "Bounds validation" statements of [handleMouseMove], for one
    axis: [if (x < 0) x = 0; if (x + visual > size) x = size - visual]. *)
Definition clampAxis (visual size x0 : Q) : Q :=
  let x1 := if Qltb x0 0 then 0 else x0 in
  if Qltb size (x1 + visual) then size - visual else x1.

(** [handleMouseMove]; [canvas] is [canvasRef.current] with its bounding
    rectangle, [(clientX, clientY)] the pointer (or first touch). *)
Definition handleMouseMove (canvas : option DOMRect) (clientX clientY : Q)
    (st : State) : State :=
  match isDragging st, canvas, sigImageDims st with
  | true, Some rect, Some sig =>
      let vw := visualWidth st in
      let vh := visualHeight st sig in
      let x0 := clientX - left rect - (vw / 2) in
      let y0 := clientY - top rect - (vh / 2) in
      setDragPos {| x := clampAxis vw (width (bounds rect)) x0;
                    y := clampAxis vh (height (bounds rect)) y0 |} st
  | _, _, _ => st
  end.

(** [embeddedImage.scale(signatureScale)] *)
Definition scale (img : ImageFile) (s : Q) : Dims :=
  {| width := width (pixels img) * s; height := height (pixels img) * s |}.

(** The body of [pagesToProcess.forEach(page => ...)] up to the call of
    [page.drawImage]: the options the image is drawn with. *)
Definition drawOptions (st : State) (signatureDims : Dims) (size : Dims) : DrawOptions :=
  let padding := 20 in
  let at_xy :=
    match useVisualPlacement st, canvasDims st with
    | true, Some canvas =>
        let rectPercentageX := x (dragPos st) / width canvas in
        let rectPercentageY := y (dragPos st) / height canvas in
        {| x := rectPercentageX * width size;
           y := height size - (rectPercentageY * height size) - height signatureDims |}
    | _, _ =>
        match position st with
        | TL => {| x := padding; y := height size - height signatureDims - padding |}
        | TR => {| x := width size - width signatureDims - padding;
                   y := height size - height signatureDims - padding |}
        | BL => {| x := padding; y := padding |}
        | BR => {| x := width size - width signatureDims - padding; y := padding |}
        end
    end in
  {| origin := at_xy; extent := signatureDims |}.

Definition stampPage (st : State) (signatureDims : Dims) (page : PDFPage) : PDFPage :=
  drawImage (drawOptions st signatureDims (getSize page)) page.

(** The indices of the page objects put in [pagesToProcess]. *)
Definition pagesToProcess (rule : PagesToSign) (n : nat) : list nat :=
  match rule with
  | ALL => seq 0 n
  | FIRST => if (0 <? n)%nat then [0%nat] else []
  | LAST => if (0 <? n)%nat then [(n - 1)%nat] else []
  end.

(** The page-selection rule in the specification's words: every page, page 0
    only, or the final page only. *)
Definition selectedBy (rule : PagesToSign) (n i : nat) : bool :=
  match rule with
  | ALL => true
  | FIRST => (i =? 0)%nat
  | LAST => (S i =? n)%nat
  end.

(** The pages of one document after the [forEach]: the page objects listed in
    [pagesToProcess] are those of the document, drawn on in place. *)
Definition stampDocument (st : State) (signatureDims : Dims) (pages : list PDFPage)
  : list PDFPage :=
  foldl (λ ps i, alter (stampPage st signatureDims) i ps) pages
        (pagesToProcess (pagesToSign st) (length pages)).

(** [pdfItem.file.name.replace(/\.[^/.]+$/, "") + "_firmado.pdf"] *)
Definition newName (f : File) : string :=
  JS.stripExtension (name f) +:+ "_firmado.pdf".

(** The page [PDFDocument.addPage()] creates: A4, nothing drawn. *)
Definition defaultPage : PDFPage :=
  {| getSize := {| width := 59528 # 100; height := 84189 # 100 |}; drawn := [] |}.

(** The pages of the file [pdfDoc.save()] writes: a document without any
    page gets one blank page first ([addDefaultPage], true by default). *)
Definition save (pages : list PDFPage) : list PDFPage :=
  match pages with
  | [] => [defaultPage]
  | _ :: _ => pages
  end.

(** An element of [signedPdfs]. *)
Record Signed := { signedName : string; blob : list PDFPage }.

(** The loop [for (const pdfItem of pdfs)]: for each target, loading the
    document may throw, and so may embedding the image in it. *)
Definition signAll (st : State) (img : ImageFile) : option (list Signed) :=
  mapM (λ pdfItem,
          pages ← document (file pdfItem);
          if embeds img then
            Some {| signedName := newName (file pdfItem);
                    blob := save (stampDocument st (scale img (signatureScale st)) pages) |}
          else None)
       (pdfs st).

(** JSZip: [zip.file(name, data)] adds the entry [name], or replaces the
    entry already stored under that name. *)
Definition zipFile (zip : gmap string (list PDFPage)) (sp : Signed)
  : gmap string (list PDFPage) :=
  <[signedName sp := blob sp]> zip.

(** What the browser is asked to download. *)
Inductive Download :=
| PdfDownload (download : string) (content : list PDFPage)
| ZipDownload (download : string) (entries : gmap string (list PDFPage)).

Inductive Outcome :=
| Ignored
| Failed (message : string)
| Downloaded (d : Download).

(** [handleSign].  Whatever is thrown inside the [try] (by loading a target
    or by embedding the image) ends in the same error message. *)
Definition handleSign (st : State) : Outcome :=
  match pdfs st, signatureImage st with
  | [], _ | _, None => Ignored
  | _ :: _, Some img =>
      match signAll st img with
      | None => Failed "Ocurrió un error al firmar los documentos."
      | Some signedPdfs =>
          match signedPdfs with
          | [only] => Downloaded (PdfDownload (signedName only) (blob only))
          | _ => Downloaded (ZipDownload "documentos_firmados.zip"
                                         (foldl zipFile ∅ signedPdfs))
          end
      end
  end.

End Sign.

(** ** More string methods: the renaming rules of the converters *)

Module Names.

(** [s.replace(/\.[^/.]+$/, r)]: the match of [JS.stripExtensionUnits],
    replaced by [r]; without a match the string is returned as it is. *)
Fixpoint replaceExtensionUnits (r l : list ascii) : list ascii :=
  match l with
  | [] => []
  | c :: rest =>
      if bool_decide (c = "."%char)
         && negb (bool_decide (rest = []))
         && forallb (λ d, negb (bool_decide (d = "/"%char) || bool_decide (d = "."%char))) rest
      then r
      else c :: replaceExtensionUnits r rest
  end.

Definition replaceExtension (r s : string) : string :=
  String.string_of_list_ascii
    (replaceExtensionUnits (String.list_ascii_of_string r) (String.list_ascii_of_string s)).

(** [s.lastIndexOf(c)] for one code unit, [None] standing for -1. *)
Fixpoint lastIndexOfUnit (c : ascii) (l : list ascii) : option nat :=
  match l with
  | [] => None
  | a :: rest =>
      match lastIndexOfUnit c rest with
      | Some i => Some (S i)
      | None => if bool_decide (a = c) then Some 0%nat else None
      end
  end.

(** [s.substring(0, e)]: a negative end counts as 0. *)
Definition substringTo (e : option nat) (l : list ascii) : list ascii :=
  match e with
  | Some i => take i l
  | None => []
  end.

(** [convertImageToPdf]:
    [name.substring(0, name.lastIndexOf('.')) || name], then [`${originalName}.pdf`]. *)
Definition imagePdfName (name : string) : string :=
  let cut := String.string_of_list_ascii
               (substringTo (lastIndexOfUnit "."%char (String.list_ascii_of_string name))
                            (String.list_ascii_of_string name)) in
  let originalName := if JS.isEmpty cut then name else cut in
  originalName +:+ ".pdf".

(** [convertOfficeToPdf]: [file.name.replace(/\.[^/.]+$/, ".pdf")]. *)
Definition officePdfName (name : string) : string := replaceExtension ".pdf" name.

(** The regular expression [/\.pdf$/i] on the four last code units. *)
Definition isDotPdf (l : list ascii) : bool :=
  match l with
  | [a; b; c; d] =>
      bool_decide (a = "."%char)
      && (bool_decide (b = "p"%char) || bool_decide (b = "P"%char))
      && (bool_decide (c = "d"%char) || bool_decide (c = "D"%char))
      && (bool_decide (d = "f"%char) || bool_decide (d = "F"%char))
  | _ => false
  end.

(** [s.replace(/\.pdf$/i, '')] *)
Fixpoint stripPdfSuffixUnits (l : list ascii) : list ascii :=
  match l with
  | [] => []
  | c :: rest => if isDotPdf l then [] else c :: stripPdfSuffixUnits rest
  end.

Definition stripPdfSuffix (s : string) : string :=
  String.string_of_list_ascii (stripPdfSuffixUnits (String.list_ascii_of_string s)).

End Names.

(** ** MergeMode: the component state and its handlers *)

Module MergeUI.
Import PageEditor.

(** The state variables and the two refs of [MergeMode]. *)
Record View := {
  files : list Merge.AppFile;
  mergedFileName : string;
  isMerging : bool;
  isProcessing : bool;
  error : option string;
  fileNameSourceId : option string;
  previewFile : option Merge.AppFile;
  editingPagesFile : option Merge.AppFile;
  isCompressionEnabled : bool;
  draggedItem : option nat;
  dragOverItem : option nat
}.

Definition initial : View :=
  {| files := []; mergedFileName := "merged-document.pdf"; isMerging := false;
     isProcessing := false; error := None; fileNameSourceId := None;
     previewFile := None; editingPagesFile := None; isCompressionEnabled := true;
     draggedItem := None; dragOverItem := None |}.

Definition setFiles (l : list Merge.AppFile) (st : View) : View :=
  {| files := l; mergedFileName := mergedFileName st; isMerging := isMerging st;
     isProcessing := isProcessing st; error := error st;
     fileNameSourceId := fileNameSourceId st; previewFile := previewFile st;
     editingPagesFile := editingPagesFile st;
     isCompressionEnabled := isCompressionEnabled st;
     draggedItem := draggedItem st; dragOverItem := dragOverItem st |}.

Definition setMergedFileName (n : string) (st : View) : View :=
  {| files := files st; mergedFileName := n; isMerging := isMerging st;
     isProcessing := isProcessing st; error := error st;
     fileNameSourceId := fileNameSourceId st; previewFile := previewFile st;
     editingPagesFile := editingPagesFile st;
     isCompressionEnabled := isCompressionEnabled st;
     draggedItem := draggedItem st; dragOverItem := dragOverItem st |}.

Definition setFileNameSourceId (i : option string) (st : View) : View :=
  {| files := files st; mergedFileName := mergedFileName st; isMerging := isMerging st;
     isProcessing := isProcessing st; error := error st;
     fileNameSourceId := i; previewFile := previewFile st;
     editingPagesFile := editingPagesFile st;
     isCompressionEnabled := isCompressionEnabled st;
     draggedItem := draggedItem st; dragOverItem := dragOverItem st |}.

Definition setError (e : option string) (st : View) : View :=
  {| files := files st; mergedFileName := mergedFileName st; isMerging := isMerging st;
     isProcessing := isProcessing st; error := e;
     fileNameSourceId := fileNameSourceId st; previewFile := previewFile st;
     editingPagesFile := editingPagesFile st;
     isCompressionEnabled := isCompressionEnabled st;
     draggedItem := draggedItem st; dragOverItem := dragOverItem st |}.

Definition setIsMerging (b : bool) (st : View) : View :=
  {| files := files st; mergedFileName := mergedFileName st; isMerging := b;
     isProcessing := isProcessing st; error := error st;
     fileNameSourceId := fileNameSourceId st; previewFile := previewFile st;
     editingPagesFile := editingPagesFile st;
     isCompressionEnabled := isCompressionEnabled st;
     draggedItem := draggedItem st; dragOverItem := dragOverItem st |}.

Definition setIsProcessing (b : bool) (st : View) : View :=
  {| files := files st; mergedFileName := mergedFileName st; isMerging := isMerging st;
     isProcessing := b; error := error st;
     fileNameSourceId := fileNameSourceId st; previewFile := previewFile st;
     editingPagesFile := editingPagesFile st;
     isCompressionEnabled := isCompressionEnabled st;
     draggedItem := draggedItem st; dragOverItem := dragOverItem st |}.

Definition setPreviewFile (f : option Merge.AppFile) (st : View) : View :=
  {| files := files st; mergedFileName := mergedFileName st; isMerging := isMerging st;
     isProcessing := isProcessing st; error := error st;
     fileNameSourceId := fileNameSourceId st; previewFile := f;
     editingPagesFile := editingPagesFile st;
     isCompressionEnabled := isCompressionEnabled st;
     draggedItem := draggedItem st; dragOverItem := dragOverItem st |}.

Definition setEditingPagesFile (f : option Merge.AppFile) (st : View) : View :=
  {| files := files st; mergedFileName := mergedFileName st; isMerging := isMerging st;
     isProcessing := isProcessing st; error := error st;
     fileNameSourceId := fileNameSourceId st; previewFile := previewFile st;
     editingPagesFile := f;
     isCompressionEnabled := isCompressionEnabled st;
     draggedItem := draggedItem st; dragOverItem := dragOverItem st |}.

Definition setIsCompressionEnabled (b : bool) (st : View) : View :=
  {| files := files st; mergedFileName := mergedFileName st; isMerging := isMerging st;
     isProcessing := isProcessing st; error := error st;
     fileNameSourceId := fileNameSourceId st; previewFile := previewFile st;
     editingPagesFile := editingPagesFile st;
     isCompressionEnabled := b;
     draggedItem := draggedItem st; dragOverItem := dragOverItem st |}.

Definition setRefs (dragged over : option nat) (st : View) : View :=
  {| files := files st; mergedFileName := mergedFileName st; isMerging := isMerging st;
     isProcessing := isProcessing st; error := error st;
     fileNameSourceId := fileNameSourceId st; previewFile := previewFile st;
     editingPagesFile := editingPagesFile st;
     isCompressionEnabled := isCompressionEnabled st;
     draggedItem := dragged; dragOverItem := over |}.

Definition isPdf (f : Merge.AppFile) : bool :=
  match Merge.type f with
  | Merge.pdf => true
  | _ => false
  end.

(** [handlePreview] and [handleEditPages]: for files of type 'pdf' only. *)
Definition handlePreview (fileToPreview : Merge.AppFile) (st : View) : View :=
  if isPdf fileToPreview then setPreviewFile (Some fileToPreview) st else st.

Definition handleClosePreview (st : View) : View := setPreviewFile None st.

Definition handleEditPages (fileToEdit : Merge.AppFile) (st : View) : View :=
  if isPdf fileToEdit then setEditingPagesFile (Some fileToEdit) st else st.

(** [handleClosePageEditor] only clears [editingPagesFile].  The view keeps
    page configurations by value.  In the running component the editor starts
    from the configuration object of the file itself
    ([useState(file.pageConfig || {})]), and its [selectAll] and [deselectAll]
    write into the entry objects in place ([PageEditor.Completion]): a write
    to an entry the editor still shares with the file is seen by the file in
    the list even when the editor is closed without saving.  This view does
    not follow such writes. *)
Definition handleClosePageEditor (st : View) : View := setEditingPagesFile None st.

(** [{ ...f, pageConfig: config }] *)
Definition withPageConfig (config : gmap nat PageConfig) (f : Merge.AppFile)
  : Merge.AppFile :=
  {| Merge.id := Merge.id f; Merge.file := Merge.file f; Merge.type := Merge.type f;
     Merge.pageConfig := Some config |}.

(** [handleSavePageConfig] *)
Definition handleSavePageConfig (config : gmap nat PageConfig) (st : View) : View :=
  setEditingPagesFile None
    match editingPagesFile st with
    | Some editing =>
        setFiles ((λ f, if String.eqb (Merge.id f) (Merge.id editing)
                        then withPageConfig config f else f) <$> files st) st
    | None => st
    end.

(** [removeFile] *)
Definition removeFile (idToRemove : string) (st : View) : View :=
  let st1 :=
    if bool_decide (Some idToRemove = fileNameSourceId st)
    then setMergedFileName "merged-document.pdf" (setFileNameSourceId None st)
    else st in
  setFiles (List.filter (λ f, negb (String.eqb (Merge.id f) idToRemove)) (files st)) st1.

(** [onDragStart] and [onDragEnter] of a list item. *)
Definition dragStart (index : nat) (st : View) : View :=
  setRefs (Some index) (dragOverItem st) st.

Definition dragEnter (index : nat) (st : View) : View :=
  setRefs (draggedItem st) (Some index) st.

(** [a.splice(start, 1)] and [a.splice(start, 0, item)]; a start beyond the
    end counts as the length. *)
Definition spliceOut {A} (start : nat) (a : list A) : list A := delete start a.

Definition spliceIn {A} (start : nat) (item : A) (a : list A) : list A :=
  take start a ++ item :: drop start a.

(** [handleSort].  [None]: [filesClone[draggedItem.current]] is [undefined]
    and the list handed to [setFiles] would hold it. *)
Definition handleSort (st : View) : option View :=
  match draggedItem st, dragOverItem st with
  | Some dragged, Some over =>
      match files st !! dragged with
      | Some temp =>
          Some (setFiles (spliceIn over temp (spliceOut dragged (files st)))
                         (setRefs None None st))
      | None => None
      end
  | _, _ => Some st
  end.

(** The name [handleFileNameSourceChange] puts in the field for a file. *)
Definition sourceName (f : Merge.AppFile) : string :=
  if isPdf f then Merge.name (Merge.file f)
  else Names.replaceExtension ".pdf" (Merge.name (Merge.file f)).

(** [handleFileNameSourceChange] *)
Definition handleFileNameSourceChange (selectedFile : Merge.AppFile) (st : View) : View :=
  if bool_decide (fileNameSourceId st = Some (Merge.id selectedFile))
  then setMergedFileName "merged-document.pdf" (setFileNameSourceId None st)
  else setMergedFileName (sourceName selectedFile)
         (setFileNameSourceId (Some (Merge.id selectedFile)) st).

(** [handleCustomFileNameChange]; [if (fileNameSourceId)] is false for [null]
    and for the empty string. *)
Definition handleCustomFileNameChange (value : string) (st : View) : View :=
  let st1 := setMergedFileName value st in
  match fileNameSourceId st with
  | Some i => if JS.isEmpty i then st1 else setFileNameSourceId None st1
  | None => st1
  end.

(** [processAndAddFiles] on the component state. *)
Definition processAndAddFiles (conv : Merge.Converters) (random : nat → string)
    (schedule : list nat) (filesToAdd : list Merge.File) (st : View) : View :=
  let r := Merge.processAndAddFiles conv random schedule filesToAdd
             {| Merge.files := files st; Merge.error := error st;
                Merge.isProcessing := isProcessing st;
                Merge.isCompressionEnabled := isCompressionEnabled st |} in
  setIsProcessing (Merge.isProcessing r) (setError (Merge.error r) (setFiles (Merge.files r) st)).

Inductive SaveMethod := download | saveAs.

(** How [showSaveFilePicker] and the write end: written, cancelled by the
    user (an error named 'AbortError'), or failed otherwise. *)
Inductive PickerResult := Written | Aborted | WriteFailed.

(** What leaves the component: a download link, or a write through the
    picker, each with the suggested name and the merged document. *)
Record Delivery := { viaPicker : bool; suggestedName : string; payload : Merge.Blob }.

(** The state after a completed merge. *)
Definition afterMerge (st : View) : View :=
  setIsMerging false
    (setMergedFileName "merged-document.pdf"
       (setFileNameSourceId None (setFiles [] (setError None st)))).

Definition mergeFailed (st : View) : View :=
  setIsMerging false
    (setError (Some "Ocurrió un error al fusionar los archivos. Asegúrese de que no estén corruptos o protegidos.") st).

(** [runMergeProcess] *)
Definition runMergeProcess (saveMethod : SaveMethod) (canShowSavePicker : bool)
    (picker : PickerResult) (st : View) : View * option Delivery :=
  if (length (files st) =? 0)%nat then
    (setError (Some "Por favor, seleccione al menos un archivo para crear un PDF.") st, None)
  else
    match Merge.createMergedPdfBlob (isCompressionEnabled st) (files st) with
    | None => (mergeFailed st, None)
    | Some blob =>
        let finalName := Merge.finalName (mergedFileName st) in
        match saveMethod, canShowSavePicker with
        | saveAs, true =>
            match picker with
            | Written =>
                (afterMerge st,
                 Some {| viaPicker := true; suggestedName := finalName; payload := blob |})
            | Aborted => (setIsMerging false (setError None st), None)
            | WriteFailed => (mergeFailed st, None)
            end
        | _, _ =>
            (afterMerge st,
             Some {| viaPicker := false; suggestedName := finalName; payload := blob |})
        end
    end.

(** The handlers as actions, for runs of the component. *)
Inductive Action :=
| AddFiles (conv : Merge.Converters) (random : nat → string) (schedule : list nat)
           (filesToAdd : list Merge.File)
| RemoveFile (idToRemove : string)
| DragStart (index : nat)
| DragEnter (index : nat)
| DragEnd
| CheckName (selectedFile : Merge.AppFile)
| TypeName (value : string)
| Preview (fileToPreview : Merge.AppFile)
| ClosePreview
| EditPages (fileToEdit : Merge.AppFile)
| ClosePageEditor
| SavePageConfig (config : gmap nat PageConfig)
| SetCompression (enabled : bool)
| RunMerge (saveMethod : SaveMethod) (canShowSavePicker : bool) (picker : PickerResult).

(** The state after an action; [None] when [handleSort] would store
    [undefined]. *)
Definition act (a : Action) (st : View) : option View :=
  match a with
  | AddFiles conv random schedule filesToAdd =>
      Some (processAndAddFiles conv random schedule filesToAdd st)
  | RemoveFile i => Some (removeFile i st)
  | DragStart i => Some (dragStart i st)
  | DragEnter i => Some (dragEnter i st)
  | DragEnd => handleSort st
  | CheckName f => Some (handleFileNameSourceChange f st)
  | TypeName v => Some (handleCustomFileNameChange v st)
  | Preview f => Some (handlePreview f st)
  | ClosePreview => Some (handleClosePreview st)
  | EditPages f => Some (handleEditPages f st)
  | ClosePageEditor => Some (handleClosePageEditor st)
  | SavePageConfig c => Some (handleSavePageConfig c st)
  | SetCompression b => Some (setIsCompressionEnabled b st)
  | RunMerge m c p => Some (runMergeProcess m c p st).1
  end.

(** An action the rendered component can issue in state [st]: the list
    items (their drag handlers, check box, buttons) are those of [files]. *)
Definition offered (a : Action) (st : View) : Prop :=
  match a with
  | DragStart i | DragEnter i => (i < length (files st))%nat
  | CheckName f | Preview f | EditPages f => f ∈ files st
  | _ => True
  end.

Fixpoint run (actions : list Action) (st : View) : option View :=
  match actions with
  | [] => Some st
  | a :: rest =>
      match act a st with
      | Some st' => run rest st'
      | None => None
      end
  end.

(** All actions of a run are offered in the state they are issued in. *)
Fixpoint feasible (actions : list Action) (st : View) : Prop :=
  match actions with
  | [] => True
  | a :: rest =>
      offered a st
      ∧ match act a st with
        | Some st' => feasible rest st'
        | None => True
        end
  end.

(** While the "use this name" box of a file is checked, the name field holds
    the name taken from that file, and the file is in the list. *)
Definition nameFollowsSource (st : View) : Prop :=
  match fileNameSourceId st with
  | Some i =>
      ∃ f, f ∈ files st ∧ Merge.id f = i ∧ mergedFileName st = sourceName f
  | None => True
  end.

End MergeUI.

(** ** MergeMode: the image pre-compression *)

Module Compression.
Import Sign.
Local Open Scope Q_scope.

Definition MAX_DIMENSION : Q := 2000.

(** The [width] and [height] [compressImage] draws the image with. *)
Definition targetSize (img : Dims) : Dims :=
  if Qltb MAX_DIMENSION (width img) || Qltb MAX_DIMENSION (height img) then
    if Qltb (height img) (width img)
    then {| width := MAX_DIMENSION; height := (height img * MAX_DIMENSION) / width img |}
    else {| width := (width img * MAX_DIMENSION) / height img; height := MAX_DIMENSION |}
  else img.

(** [canvas.width = width; canvas.height = height]: the canvas keeps whole
    pixels, which are the size of the JPEG produced. *)
Definition canvasSize (img : Dims) : Z * Z :=
  (Qfloor (width (targetSize img)), Qfloor (height (targetSize img))).

End Compression.

(** ** CompressMode *)

Module Compress.

(** The check of [processFile]: the type, or the lower-cased name. *)
Definition accepts (f : Merge.File) : bool :=
  String.eqb (Merge.mime f) "application/pdf"
  || JS.endsWith (JS.toLowerCase (Merge.name f)) ".pdf".

(** [finalName.replace(/\.pdf$/i, '') + '-comprimido.pdf'] *)
Definition finalName (f : Merge.File) : string :=
  Names.stripPdfSuffix (Merge.name f) +:+ "-comprimido.pdf".

End Compress.

(** ** App.tsx: the merge without page configuration *)

Module App.

(** [createMergedPdfBlob]: every page of every file, in order. *)
Fixpoint mergeLoop (pdfFiles : list Merge.AppFile) (mergedPdf : list Merge.PDFPage)
  : option (list Merge.PDFPage) :=
  match pdfFiles with
  | [] => Some mergedPdf
  | appFile :: rest =>
      match Merge.document (Merge.file appFile) with
      | None => None
      | Some pdfPages => mergeLoop rest (foldl (λ merged page, merged ++ [page]) mergedPdf pdfPages)
      end
  end.

(** The pages of the file [mergedPdf.save()] writes. *)
Definition createMergedPdfBlob (pdfFiles : list Merge.AppFile) : option (list Merge.PDFPage) :=
  Merge.save <$> mergeLoop pdfFiles [].

(** The three checks [runMergeProcess] makes before it merges: the message
    it shows, if any. *)
Inductive Refusal := NoFiles | TooFewPdfs | OfficeFiles (fileNames : list string).

Definition isOffice (f : Merge.AppFile) : bool := negb (MergeUI.isPdf f).

Definition refusal (files : list Merge.AppFile) : option Refusal :=
  if (length files =? 0)%nat then Some NoFiles
  else if (length files <? 2)%nat && forallb MergeUI.isPdf files then Some TooFewPdfs
  else
    let unsupportedFiles := List.filter isOffice files in
    if (0 <? length unsupportedFiles)%nat
    then Some (OfficeFiles ((λ f, Merge.name (Merge.file f)) <$> unsupportedFiles))
    else None.

(** What is merged when nothing is refused: [files.filter(f => f.type === 'pdf')]. *)
Definition merged (files : list Merge.AppFile) : option (list Merge.PDFPage) :=
  match refusal files with
  | Some _ => None
  | None => createMergedPdfBlob (List.filter MergeUI.isPdf files)
  end.

End App.

(** ** SignMode: uploads and the state around a signing pass *)

Module SignUI.
Import Sign.
Local Open Scope Q_scope.

(** The state of [Sign.State] with the error message. *)
Record View := { state : State; error : option string; isSigning : bool }.

Definition setPdfs (l : list SignFile) (st : State) : State :=
  {| pdfs := l; signatureImage := signatureImage st;
     sigImageDims := sigImageDims st; useVisualPlacement := useVisualPlacement st;
     position := position st; pagesToSign := pagesToSign st;
     signatureScale := signatureScale st; pdfPageDimensions := pdfPageDimensions st;
     canvasDims := canvasDims st; dragPos := dragPos st; isDragging := isDragging st |}.

Definition setSignature (img : option ImageFile) (dims : option Dims) (st : State) : State :=
  {| pdfs := pdfs st; signatureImage := img;
     sigImageDims := dims; useVisualPlacement := useVisualPlacement st;
     position := position st; pagesToSign := pagesToSign st;
     signatureScale := signatureScale st; pdfPageDimensions := pdfPageDimensions st;
     canvasDims := canvasDims st; dragPos := dragPos st; isDragging := isDragging st |}.

(** The filter of [handlePdfUpload]. *)
Definition isPdfFile (f : File) : bool :=
  String.eqb (mime f) "application/pdf" || JS.endsWith (JS.toLowerCase (name f)) ".pdf".

(** [handlePdfUpload]; [stamp i] is the text of [Date.now()] and
    [Math.random()] in the id of the i-th accepted file. *)
Definition handlePdfUpload (stamp : nat → string) (newFiles : list File) (v : View) : View :=
  let validPdfs := List.filter isPdfFile newFiles in
  if (length validPdfs =? 0)%nat && (0 <? length newFiles)%nat then
    {| state := state v;
       error := Some "Por favor, sube solo archivos PDF para firmar.";
       isSigning := isSigning v |}
  else
    let signFiles := imap (λ i f, {| id := name f +:+ "-" +:+ stamp i; file := f |}) validPdfs in
    {| state := setPdfs (pdfs (state v) ++ signFiles) (state v);
       error := None; isSigning := isSigning v |}.

Definition isRaster (img : ImageFile) : bool :=
  String.eqb (imageType img) "image/jpeg" || String.eqb (imageType img) "image/png".

(** [handleSignatureUpload]; the natural size of the image is stored later,
    by [signatureLoaded]. *)
Definition handleSignatureUpload (file : option ImageFile) (v : View) : View :=
  match file with
  | None => v
  | Some img =>
      if isRaster img then
        {| state := setSignature (Some img) (sigImageDims (state v)) (state v);
           error := None; isSigning := isSigning v |}
      else
        {| state := state v;
           error := Some "La firma debe ser una imagen JPG o PNG.";
           isSigning := isSigning v |}
  end.

(** The [onload] handler of the uploaded image. *)
Definition signatureLoaded (img : ImageFile) (st : State) : State :=
  setSignature (signatureImage st) (Some (pixels img)) st.

(** [removePdf] *)
Definition removePdf (i : string) (v : View) : View :=
  {| state := setPdfs (List.filter (λ p, negb (String.eqb (id p) i)) (pdfs (state v)))
                      (state v);
     error := error v; isSigning := isSigning v |}.

(** [clearSignature] *)
Definition clearSignature (st : State) : State := setSignature None None st.

(** The state [handleSign] leaves, beside what it downloads. *)
Definition afterSign (v : View) : View :=
  match handleSign (state v) with
  | Ignored => v
  | Failed message => {| state := state v; error := Some message; isSigning := false |}
  | Downloaded _ =>
      {| state := clearSignature (setPdfs [] (state v)); error := None; isSigning := false |}
  end.

(** The four settings: placement mode, corner, pages and scale. *)
Definition setSettings (visual : bool) (corner : Corner) (rule : PagesToSign)
    (factor : Q) (st : State) : State :=
  {| pdfs := pdfs st; signatureImage := signatureImage st;
     sigImageDims := sigImageDims st; useVisualPlacement := visual;
     position := corner; pagesToSign := rule;
     signatureScale := factor; pdfPageDimensions := pdfPageDimensions st;
     canvasDims := canvasDims st; dragPos := dragPos st; isDragging := isDragging st |}.

(** The preview effect once the first page of the first target is rendered:
    [unscaledViewport] is [page.getViewport({ scale: 1.0 })], the canvas gets
    the size of the viewport at [scale = containerWidth / unscaledViewport.width],
    with [containerWidth = clientWidth || 400]. *)
Definition previewRendered (clientWidth : Q) (unscaledViewport : Dims) (st : State) : State :=
  if negb (useVisualPlacement st) || (length (pdfs st) =? 0)%nat then st
  else
    let containerWidth := if Qeq_bool clientWidth 0 then 400 else clientWidth in
    let scale := containerWidth / width unscaledViewport in
    {| pdfs := pdfs st; signatureImage := signatureImage st;
       sigImageDims := sigImageDims st; useVisualPlacement := useVisualPlacement st;
       position := position st; pagesToSign := pagesToSign st;
       signatureScale := signatureScale st;
       pdfPageDimensions := Some unscaledViewport;
       canvasDims := Some {| width := width unscaledViewport * scale;
                             height := height unscaledViewport * scale |};
       dragPos := dragPos st; isDragging := isDragging st |}.

(** The state of a freshly mounted component. *)
Definition initial : View :=
  {| state := {| pdfs := []; signatureImage := None; sigImageDims := None;
                 useVisualPlacement := true; position := BR; pagesToSign := ALL;
                 signatureScale := 2 # 10; pdfPageDimensions := None;
                 canvasDims := None; dragPos := {| x := 50; y := 50 |};
                 isDragging := false |};
     error := None; isSigning := false |}.

Inductive Action :=
| UploadPdfs (stamp : nat → string) (newFiles : list File)
| UploadSignature (file : option ImageFile)
| SignatureLoaded (img : ImageFile)
| RemovePdf (i : string)
| ClearSignature
| Settings (visual : bool) (corner : Corner) (rule : PagesToSign) (factor : Q)
| PreviewRendered (clientWidth : Q) (unscaledViewport : Dims)
| MouseDown
| MouseUp
| MouseMove (canvas : option DOMRect) (clientX clientY : Q)
| SignNow.

Definition setDragging (b : bool) (st : State) : State :=
  {| pdfs := pdfs st; signatureImage := signatureImage st;
     sigImageDims := sigImageDims st; useVisualPlacement := useVisualPlacement st;
     position := position st; pagesToSign := pagesToSign st;
     signatureScale := signatureScale st; pdfPageDimensions := pdfPageDimensions st;
     canvasDims := canvasDims st; dragPos := dragPos st; isDragging := b |}.

Definition onState (f : State → State) (v : View) : View :=
  {| state := f (state v); error := error v; isSigning := isSigning v |}.

Definition act (a : Action) (v : View) : View :=
  match a with
  | UploadPdfs stamp newFiles => handlePdfUpload stamp newFiles v
  | UploadSignature file => handleSignatureUpload file v
  | SignatureLoaded img => onState (signatureLoaded img) v
  | RemovePdf i => removePdf i v
  | ClearSignature => onState clearSignature v
  | Settings visual corner rule factor => onState (setSettings visual corner rule factor) v
  | PreviewRendered clientWidth unscaledViewport =>
      onState (previewRendered clientWidth unscaledViewport) v
  | MouseDown => onState (setDragging true) v
  | MouseUp => onState (setDragging false) v
  | MouseMove canvas clientX clientY => onState (handleMouseMove canvas clientX clientY) v
  | SignNow => afterSign v
  end.

Definition run (actions : list Action) (v : View) : View :=
  foldl (λ w a, act a w) v actions.

(** Every target is a PDF by type or by name, and the signature, when there
    is one, is a JPEG or a PNG. *)
Definition accepted (st : State) : Prop :=
  Forall (λ p, isPdfFile (file p) = true) (pdfs st)
  ∧ ∀ img, signatureImage st = Some img → isRaster img = true.

End SignUI.

(** ** Sample inputs *)

Module Samples.
Import PageEditor.

(** A one-page document made from an image, and a three-page document whose
    second page is stored rotated by 270 degrees. *)
Definition imageFile : Merge.File :=
  {| Merge.name := "scan.pdf"; Merge.mime := "application/pdf";
     Merge.lastModified := 1700000000000;
     Merge.document := Some [ {| Merge.content := 10; Merge.angle := 0 |} ] |}.

Definition reportFile : Merge.File :=
  {| Merge.name := "report.pdf"; Merge.mime := "application/pdf";
     Merge.lastModified := 1700000000001;
     Merge.document := Some [ {| Merge.content := 20; Merge.angle := 0 |};
                              {| Merge.content := 21; Merge.angle := 270 |};
                              {| Merge.content := 22; Merge.angle := 90 |} ] |}.

Definition appFile (f : Merge.File) (pc : option (gmap nat PageConfig)) : Merge.AppFile :=
  {| Merge.id := Merge.name f; Merge.file := f; Merge.type := Merge.pdf;
     Merge.pageConfig := pc |}.

(** The configuration of the report as the editor materialises it on first
    opening, and after the second page has been clicked once. *)
Definition opened : gmap nat PageConfig := loadPdf 3 ∅.


(** The second page turned twice, the third page excluded. *)
Definition turned : gmap nat PageConfig :=
  <[2%nat := {| selected := false; rotation := 0 |}]>
    (<[1%nat := {| selected := true; rotation := 180 |}]> opened).


(** A store with an entry for the first of two pages only. *)
Definition partial : gmap nat PageConfig := {[ 0%nat := defaultConfig ]}.

(** Adding files: converters that turn an image into a one-page document and
    an office file into a two-page document, except that compression always
    fails and the file broken.docx cannot be converted. *)
Definition asPdf (pages : list Merge.PDFPage) (f : Merge.File) : Merge.File :=
  {| Merge.name := JS.stripExtension (Merge.name f) +:+ ".pdf";
     Merge.mime := "application/pdf";
     Merge.lastModified := Merge.lastModified f;
     Merge.document := Some pages |}.

Definition converters : Merge.Converters :=
  {| Merge.compressImage := λ _, None;
     Merge.convertImageToPdf :=
       λ f, Some (asPdf [ {| Merge.content := 30; Merge.angle := 0 |} ] f);
     Merge.convertOfficeToPdf :=
       λ f _, if String.eqb (Merge.name f) "broken.docx" then None
              else Some (asPdf [ {| Merge.content := 40; Merge.angle := 0 |};
                                 {| Merge.content := 41; Merge.angle := 0 |} ] f) |}.

Definition source (n ty : string) : Merge.File :=
  {| Merge.name := n; Merge.mime := ty; Merge.lastModified := 1700000000002;
     Merge.document := None |}.

Definition photo : Merge.File := source "photo.png" "image/png".
Definition notes : Merge.File := source "notes.docx" "".
Definition broken : Merge.File := source "broken.docx" "".
Definition readme : Merge.File := source "readme.txt" "text/plain".

Definition draws (i : nat) : string :=
  match i with
  | 0%nat => "0.25"
  | 1%nat => "0.5"
  | _ => "0.75"
  end.

Definition working : Merge.State :=
  {| Merge.files := [appFile imageFile None];
     Merge.error := None;
     Merge.isProcessing := true;
     Merge.isCompressionEnabled := true |}.

(** Stamping: a 100 x 50 pixel signature at scale 1/5; a contract whose first
    page is 600 x 800 points and whose second page is half that size. *)
Definition signature : Sign.ImageFile :=
  {| Sign.imageType := "image/png";
     Sign.pixels := {| Sign.width := 100; Sign.height := 50 |};
     Sign.embeds := true |}.

Definition wideSignature : Sign.ImageFile :=
  {| Sign.imageType := "image/png";
     Sign.pixels := {| Sign.width := 4000; Sign.height := 1000 |};
     Sign.embeds := true |}.

Definition blank (w h : Q) : Sign.PDFPage :=
  {| Sign.getSize := {| Sign.width := w; Sign.height := h |}; Sign.drawn := [] |}.

Definition signFile (n : string) (pages : list Sign.PDFPage) : Sign.SignFile :=
  {| Sign.id := n;
     Sign.file := {| Sign.name := n; Sign.mime := "application/pdf";
                     Sign.document := Some pages |} |}.

Definition contract : Sign.SignFile :=
  signFile "contract.pdf" [blank 600 800; blank 300 400].

(** A second file of the same name, picked from another folder. *)
Definition contractCopy : Sign.SignFile :=
  signFile "contract.pdf" [blank 595 842].

Definition invoice : Sign.SignFile := signFile "invoice.PDF" [blank 595 842].

Definition letter : Sign.SignFile := signFile "letter.v2.pdf" [blank 612 792].

(** Interactive placement over a 300 x 400 preview of the first page of the
    contract. *)
Definition placing (targets : list Sign.SignFile) (img : Sign.ImageFile)
    (drag : Sign.Point) : Sign.State :=
  {| Sign.pdfs := targets;
     Sign.signatureImage := Some img;
     Sign.sigImageDims := Some (Sign.pixels img);
     Sign.useVisualPlacement := true;
     Sign.position := Sign.BR;
     Sign.pagesToSign := Sign.ALL;
     Sign.signatureScale := 1 # 5;
     Sign.pdfPageDimensions := Some {| Sign.width := 600; Sign.height := 800 |};
     Sign.canvasDims := Some {| Sign.width := 300; Sign.height := 400 |};
     Sign.dragPos := drag;
     Sign.isDragging := true |}.

(** The signature centred in the preview: the footprint is 10 x 5 pixels. *)
Definition centred : Sign.State :=
  placing [contract] signature {| Sign.x := 145; Sign.y := 395 # 2 |}.

(** Fixed-corner placement on the last page of each document. *)
Definition cornered (targets : list Sign.SignFile) : Sign.State :=
  {| Sign.pdfs := targets;
     Sign.signatureImage := Some signature;
     Sign.sigImageDims := Some (Sign.pixels signature);
     Sign.useVisualPlacement := false;
     Sign.position := Sign.TR;
     Sign.pagesToSign := Sign.LAST;
     Sign.signatureScale := 1 # 5;
     Sign.pdfPageDimensions := None;
     Sign.canvasDims := None;
     Sign.dragPos := {| Sign.x := 50; Sign.y := 50 |};
     Sign.isDragging := false |}.

(** A file whose bytes are not a document. *)
Definition damaged : Merge.File :=
  {| Merge.name := "damaged.pdf"; Merge.mime := "application/pdf";
     Merge.lastModified := 1700000000003; Merge.document := None |}.

Definition preview : Sign.DOMRect :=
  {| Sign.left := 0; Sign.top := 0;
     Sign.bounds := {| Sign.width := 300; Sign.height := 400 |} |}.

End Samples.

(** ** Sample states of the components *)

Module Scenarios.
Import PageEditor.

(** A scanned letter converted from a Word file. *)
Definition letterFile : Merge.File :=
  {| Merge.name := "letter.pdf"; Merge.mime := "application/pdf";
     Merge.lastModified := 1700000000004;
     Merge.document := Some [ {| Merge.content := 50; Merge.angle := 0 |};
                              {| Merge.content := 51; Merge.angle := 0 |} ] |}.

Definition letterApp : Merge.AppFile :=
  {| Merge.id := "letter.docx-1700000000004-0.5"; Merge.file := letterFile;
     Merge.type := Merge.word; Merge.pageConfig := None |}.

Definition scanApp : Merge.AppFile := Samples.appFile Samples.imageFile None.
Definition reportApp : Merge.AppFile := Samples.appFile Samples.reportFile None.

(** Three documents in the list, the report being dragged onto the first
    row. *)
Definition desk : MergeUI.View :=
  MergeUI.setRefs (Some 1%nat) (Some 0%nat)
    (MergeUI.setFiles [scanApp; reportApp; letterApp] MergeUI.initial).

(** The same list with the name taken from the report. *)
Definition named : MergeUI.View :=
  MergeUI.handleFileNameSourceChange reportApp desk.

(** The report opened in the page editor. *)
Definition editing : MergeUI.View := MergeUI.handleEditPages reportApp desk.

(** A photograph and a Word file added to the empty list, the conversion of
    the Word file finishing first. *)
Definition added : MergeUI.View :=
  MergeUI.processAndAddFiles Samples.converters Samples.draws [1%nat; 0%nat]
    [Samples.photo; Samples.notes] MergeUI.initial.

Definition photoApp : Merge.AppFile := default scanApp (MergeUI.files added !! 0%nat).
Definition notesApp : Merge.AppFile := default scanApp (MergeUI.files added !! 1%nat).

(** Adding the two files, typing a name, taking the name from the Word file
    instead, dragging the photograph below it and removing the photograph. *)
Definition afternoon : list MergeUI.Action :=
  [ MergeUI.AddFiles Samples.converters Samples.draws [1%nat; 0%nat]
      [Samples.photo; Samples.notes];
    MergeUI.TypeName "both";
    MergeUI.CheckName notesApp;
    MergeUI.DragStart 0; MergeUI.DragEnter 1; MergeUI.DragEnd;
    MergeUI.RemoveFile (Merge.id photoApp) ].

End Scenarios.


(** * Properties *)

(** ** The page configuration store *)

Section PageEditorFacts.
Import PageEditor.

Lemma setSelectedLoop_lookup b indices (config : gmap nat PageConfig) :
  (∀ i, i ∈ indices → is_Some (config !! i)) →
  ∃ newConfig,
    setSelectedLoop b indices config = Normal newConfig
    ∧ ∀ i, newConfig !! i =
           if bool_decide (i ∈ indices) then withSelected b <$> config !! i
           else config !! i.
Proof.
  revert config. induction indices as [|k rest IH]; intros config Hall.
  - exists config. split; [done|]. intros i.
    by rewrite bool_decide_eq_false_2 by apply not_elem_of_nil.
  - destruct (Hall k) as [c Hc]; [left|]. simpl. rewrite Hc.
    destruct (IH (<[k := withSelected b c]> config)) as (nc & Hrun & Hnc).
    { intros i Hi. destruct (decide (k = i)) as [->|Hne].
      - rewrite lookup_insert_eq. eauto.
      - rewrite lookup_insert_ne by done. apply Hall. by right. }
    exists nc. split; [done|]. intros i. rewrite Hnc.
    destruct (decide (k = i)) as [->|Hne].
    + rewrite lookup_insert_eq, Hc.
      rewrite (bool_decide_eq_true_2 (i ∈ i :: rest)) by left.
      by case_bool_decide.
    + rewrite lookup_insert_ne by done.
      destruct (decide (i ∈ rest)) as [Hin|Hnin].
      * rewrite (bool_decide_eq_true_2 (i ∈ rest)) by done.
        by rewrite (bool_decide_eq_true_2 (i ∈ k :: rest)) by (by right).
      * rewrite (bool_decide_eq_false_2 (i ∈ rest)) by done.
        rewrite (bool_decide_eq_false_2 (i ∈ k :: rest)); [done|].
        by intros [?|?]%elem_of_cons.
Qed.

Lemma setSelectedLoop_missing b indices (config : gmap nat PageConfig) k :
  k ∈ indices → config !! k = None →
  ∃ left_behind, setSelectedLoop b indices config = TypeError left_behind.
Proof.
  revert config. induction indices as [|j rest IH]; intros config Hk Hnone.
  - by apply not_elem_of_nil in Hk.
  - simpl. destruct (config !! j) as [c|] eqn:Hj; [|eauto].
    apply elem_of_cons in Hk as [->|Hk]; [congruence|].
    apply IH; [done|].
    rewrite lookup_insert_ne; [done|congruence].
Qed.

Lemma initLoop_lookup n (config : gmap nat PageConfig) :
  ∀ i, (initLoop n config).1 !! i =
       match config !! i with
       | Some c => Some c
       | None => if bool_decide (i < n)%nat then Some defaultConfig else None
       end.
Proof.
  unfold initLoop. induction n as [|n IH]; intros i.
  - simpl. by destruct (config !! i).
  - rewrite seq_S, foldl_app. simpl. unfold initStep at 1.
    destruct (_ !! n) as [c|] eqn:Hn.
    + rewrite IH. destruct (config !! i) eqn:Hi; [done|].
      destruct (decide (i = n)) as [->|Hne].
      * rewrite IH, Hi in Hn. rewrite bool_decide_eq_false_2 in Hn by lia. done.
      * clear Hn. repeat case_bool_decide; done || lia.
    + simpl. rewrite IH in Hn.
      destruct (decide (n = i)) as [->|Hne].
      * rewrite lookup_insert_eq. destruct (config !! i); [done|].
        by rewrite bool_decide_eq_true_2 by lia.
      * rewrite lookup_insert_ne by done. rewrite IH. clear Hn.
        destruct (config !! i); [done|].
        repeat case_bool_decide; done || lia.
Qed.

Lemma initLoop_changed n (config : gmap nat PageConfig) k :
  (k < n)%nat → config !! k = None → (initLoop n config).2 = true.
Proof.
  unfold initLoop. induction n as [|n IH]; intros Hk Hnone; [lia|].
  rewrite seq_S, foldl_app. simpl. unfold initStep at 1.
  destruct (_ !! n) as [c|] eqn:Hn; [|done].
  apply IH; [|done].
  destruct (decide (k = n)) as [->|]; [|lia].
  pose proof (initLoop_lookup n config n) as Hl. unfold initLoop in Hl.
  rewrite Hl, Hnone in Hn. by rewrite bool_decide_eq_false_2 in Hn by lia.
Qed.

(** Opening the editor on a document that has no configuration yet leaves an
    entry at every page index. *)
Lemma loadPdf_empty_total n i :
  (i < n)%nat → loadPdf n ∅ !! i = Some defaultConfig.
Proof.
  intros Hi. unfold loadPdf.
  pose proof (initLoop_lookup n ∅ i) as Hl.
  pose proof (initLoop_changed n ∅ i Hi (lookup_empty i)) as Hc.
  destruct (initLoop n ∅) as [newConfig changed]. simpl in *. subst changed.
  rewrite map_size_empty. simpl. rewrite Hl, lookup_empty.
  by rewrite bool_decide_eq_true_2.
Qed.

Lemma elem_of_seq_0 (n i : nat) : i ∈ seq 0 n ↔ (i < n)%nat.
Proof. rewrite elem_of_seq. lia. Qed.

Lemma setSelectedLoop_total b n (config : gmap nat PageConfig) :
  (∀ i, (i < n)%nat → is_Some (config !! i)) →
  ∃ newConfig,
    setSelectedLoop b (seq 0 n) config = Normal newConfig
    ∧ (∀ i c, (i < n)%nat → config !! i = Some c →
              newConfig !! i = Some {| selected := b; rotation := rotation c |})
    ∧ (∀ i, (n ≤ i)%nat → newConfig !! i = config !! i).
Proof.
  intros Hall.
  destruct (setSelectedLoop_lookup b (seq 0 n) config) as (nc & Hrun & Hnc).
  { intros i Hi. apply Hall. by apply elem_of_seq_0. }
  exists nc. split; [done|]. split.
  - intros i c Hi Hc. rewrite Hnc, Hc.
    by rewrite bool_decide_eq_true_2 by (by apply elem_of_seq_0).
  - intros i Hi. rewrite Hnc.
    rewrite bool_decide_eq_false_2; [done|]. rewrite elem_of_seq_0. lia.
Qed.

(** C10 fails as stated: with an entry for page 0 only, [selectAll] and
    [deselectAll] over two pages throw at page 1 instead of materialising a
    default entry (and [deselectAll] leaves page 0 deselected behind). *)
Lemma C10_counterexample :
  selectAll 2 Samples.partial = TypeError Samples.partial
  ∧ deselectAll 2 Samples.partial
    = TypeError {[ 0%nat := {| selected := false; rotation := 0 |} ]}.
Proof. split; reflexivity. Qed.

(** C10 (amended). When every index in [0, pageCount) has an entry in the
    configuration map, [selectAll] and [deselectAll] return normally with the
    selected flag of every such index set to true (respectively false), the
    rotations kept and the entries outside the range untouched.  They do not
    materialise entries themselves. *)
Theorem C10_selectAll_deselectAll (numPages : nat) (config : gmap nat PageConfig) :
  (∀ i, (i < numPages)%nat → is_Some (config !! i)) →
  ∃ allOn allOff,
    selectAll numPages config = Normal allOn
    ∧ deselectAll numPages config = Normal allOff
    ∧ (∀ i c, (i < numPages)%nat → config !! i = Some c →
              allOn !! i = Some {| selected := true; rotation := rotation c |}
              ∧ allOff !! i = Some {| selected := false; rotation := rotation c |})
    ∧ (∀ i, (numPages ≤ i)%nat →
            allOn !! i = config !! i ∧ allOff !! i = config !! i).
Proof.
  intros Hall.
  destruct (setSelectedLoop_total true numPages config Hall) as (on & Hon & Hon1 & Hon2).
  destruct (setSelectedLoop_total false numPages config Hall) as (off & Hoff & Hoff1 & Hoff2).
  exists on, off. repeat split; eauto.
Qed.

(** The store the editor materialises for a document without configuration
    has an entry at every page index, so both operations return normally on
    it. *)
Lemma selectAll_after_loadPdf (numPages : nat) :
  ∃ allOn allOff,
    selectAll numPages (loadPdf numPages ∅) = Normal allOn
    ∧ deselectAll numPages (loadPdf numPages ∅) = Normal allOff.
Proof.
  destruct (setSelectedLoop_total true numPages (loadPdf numPages ∅)) as (on & Hon & _).
  { intros i Hi. rewrite loadPdf_empty_total by done. eauto. }
  destruct (setSelectedLoop_total false numPages (loadPdf numPages ∅)) as (off & Hoff & _).
  { intros i Hi. rewrite loadPdf_empty_total by done. eauto. }
  by exists on, off.
Qed.

Lemma wellFormed_total n (config : gmap nat PageConfig) :
  wellFormed n config → ∀ i, (i < n)%nat → is_Some (config !! i).
Proof. intros Hwf i Hi. destruct (Hwf i Hi) as (c & Hc & _). eauto. Qed.

Lemma loadPdf_wellFormed n : wellFormed n (loadPdf n ∅).
Proof.
  intros i Hi. exists defaultConfig. split; [by apply loadPdf_empty_total|]. by left.
Qed.

Lemma perform_wellFormed n a (config : gmap nat PageConfig) :
  onGrid n a → wellFormed n config →
  ∃ config', perform n a config = Some config' ∧ wellFormed n config'.
Proof.
  intros Hgrid Hwf. destruct a as [k|k| |]; cbn [perform onGrid] in *.
  - destruct (Hwf k Hgrid) as (c & Hc & Hrot).
    unfold toggleSelection. rewrite Hc. eexists. split; [done|].
    intros i Hi. destruct (decide (k = i)) as [->|Hne].
    + rewrite lookup_insert_eq. eauto.
    + rewrite lookup_insert_ne by done. by apply Hwf.
  - destruct (Hwf k Hgrid) as (c & Hc & Hrot).
    unfold rotatePage. rewrite Hc. eexists. split; [done|].
    intros i Hi. destruct (decide (k = i)) as [->|Hne].
    + rewrite lookup_insert_eq. eexists. split; [done|]. cbn [withRotation rotation].
      destruct Hrot as [->|[->|[->| ->]]]; vm_compute; tauto.
    + rewrite lookup_insert_ne by done. by apply Hwf.
  - destruct (setSelectedLoop_total true n config (wellFormed_total _ _ Hwf))
      as (nc & Hrun & Hin & _).
    unfold selectAll. rewrite Hrun. exists nc. split; [done|].
    intros i Hi. destruct (Hwf i Hi) as (c & Hc & Hrot).
    rewrite (Hin i c Hi Hc). eauto.
  - destruct (setSelectedLoop_total false n config (wellFormed_total _ _ Hwf))
      as (nc & Hrun & Hin & _).
    unfold deselectAll. rewrite Hrun. exists nc. split; [done|].
    intros i Hi. destruct (Hwf i Hi) as (c & Hc & Hrot).
    rewrite (Hin i c Hi Hc). eauto.
Qed.

(** X1. No sequence of actions on the grid of a freshly opened document throws,
    and the store stays well formed: no index of the range loses its entry
    and every stored rotation is 0, 90, 180 or 270. *)
Lemma session_wellFormed n actions :
  Forall (onGrid n) actions →
  ∃ config, session n actions (loadPdf n ∅) = Some config ∧ wellFormed n config.
Proof.
  intros Hgrid. generalize (loadPdf_wellFormed n). generalize (loadPdf n ∅).
  induction Hgrid as [|a rest Ha _ IH]; intros config Hwf; [by exists config|].
  destruct (perform_wellFormed n a config Ha Hwf) as (config' & Hstep & Hwf').
  cbn [session]. rewrite Hstep. by apply IH.
Qed.

(** C10 (amended), on the three-page store with its second page turned and
    its third page excluded. *)
Lemma C10_witness :
  ∃ allOn allOff,
    selectAll 3 Samples.turned = Normal allOn
    ∧ deselectAll 3 Samples.turned = Normal allOff
    ∧ (∀ i c, (i < 3)%nat → Samples.turned !! i = Some c →
              allOn !! i = Some {| selected := true; rotation := rotation c |}
              ∧ allOff !! i = Some {| selected := false; rotation := rotation c |})
    ∧ (∀ i, (3 ≤ i)%nat →
            allOn !! i = Samples.turned !! i ∧ allOff !! i = Samples.turned !! i).
Proof.
  apply (C10_selectAll_deselectAll 3 Samples.turned).
  intros [|[|[|i]]] Hi; [eexists; reflexivity .. | lia].
Defined.

End PageEditorFacts.


(** ** The merge engine *)

Section MergeFacts.
Import PageEditor Merge.

Lemma setRotation_same (page : PDFPage) :
  {| content := content page; angle := angle page + 0 |} = page.
Proof. destruct page as [c a]. simpl. by rewrite Z.add_0_r. Qed.

Lemma forEachPage_emitted appFile mergedPdf e :
  forEachPage appFile mergedPdf e
  = if writable (pageConfig appFile) e
    then Some (mergedPdf ++ emitted (pageConfig appFile) e)
    else None.
Proof.
  destruct e as [index page].
  unfold forEachPage, writable, emitted, rotated, resolve, setRotation. cbn [fst snd].
  destruct (pageConfig appFile ≫= _) as [[sel rot]|];
    cbn [from_option]; unfold Datatypes.id; cbn [selected rotation].
  - destruct sel; cbn [negb orb]; [|by rewrite app_nil_r].
    destruct (Z.eqb_spec rot 0) as [->|Hrot]; cbn [orb].
    + by rewrite setRotation_same.
    + by destruct (Z.rem _ 90 =? 0).
  - cbn. by rewrite setRotation_same.
Qed.

Lemma forEach_emitted appFile (l : list (nat * PDFPage)) mergedPdf :
  forEach appFile l mergedPdf
  = if forallb (writable (pageConfig appFile)) l
    then Some (mergedPdf ++ concat (emitted (pageConfig appFile) <$> l))
    else None.
Proof.
  revert mergedPdf. induction l as [|e l IH]; intros mergedPdf.
  - cbn. by rewrite app_nil_r.
  - cbn [forEach forallb fmap list_fmap concat]. rewrite forEachPage_emitted.
    destruct (writable (pageConfig appFile) e); cbn [andb mbind option_bind]; [|done].
    rewrite IH. by rewrite <-app_assoc.
Qed.

Lemma emitted_filter pc (l : list (nat * PDFPage)) :
  concat (emitted pc <$> l)
  = rotated pc <$> List.filter (λ e, selected (resolve pc e.1)) l.
Proof.
  induction l as [|e l IH]; [done|]. cbn [fmap list_fmap concat List.filter].
  unfold emitted at 1.
  destruct (selected (resolve pc e.1)); cbn [app fmap list_fmap]; by rewrite IH.
Qed.

(** The loop on a list of documents that all load: it returns exactly when
    every page can be written. *)
Lemma mergeLoop_rotatable pdfFiles loaded mergedPdf :
  loadAll pdfFiles = Some loaded →
  mergeLoop pdfFiles mergedPdf
  = if forallb rotatable loaded
    then Some (mergedPdf ++ concat (contribution <$> loaded))
    else None.
Proof.
  revert loaded mergedPdf.
  induction pdfFiles as [|f rest IH]; intros loaded mergedPdf Hload; simpl in *.
  - injection Hload as <-. cbn. by rewrite app_nil_r.
  - destruct (document (file f)) as [d|]; [|done].
    destruct (loadAll rest) as [l|]; [|done]. injection Hload as <-.
    rewrite forEach_emitted. cbn [forallb fmap list_fmap concat].
    unfold rotatable at 1. cbn [fst snd].
    destruct (forallb (writable (pageConfig f)) (imap pair d));
      cbn [andb mbind option_bind]; [|done].
    rewrite (IH l) by done. destruct (forallb rotatable l); [|done].
    unfold contribution at 2, selectedPages. cbn [fst snd].
    by rewrite emitted_filter, <-app_assoc.
Qed.

Lemma mergeLoop_loaded pdfFiles loaded mergedPdf :
  loadAll pdfFiles = Some loaded → forallb rotatable loaded = true →
  mergeLoop pdfFiles mergedPdf = Some (mergedPdf ++ concat (contribution <$> loaded)).
Proof. intros Hload Hrot. by rewrite (mergeLoop_rotatable _ _ _ Hload), Hrot. Qed.

Lemma mergeLoop_unreadable pdfFiles mergedPdf :
  loadAll pdfFiles = None → mergeLoop pdfFiles mergedPdf = None.
Proof.
  revert mergedPdf.
  induction pdfFiles as [|f rest IH]; intros mergedPdf Hload; simpl in *; [done|].
  destruct (document (file f)) as [d|]; [|done].
  destruct (forEach f _ mergedPdf); [|done]. cbn [mbind option_bind].
  apply IH. by destruct (loadAll rest).
Qed.

Lemma mergeLoop_Some pdfFiles mergedPdf out :
  mergeLoop pdfFiles mergedPdf = Some out →
  ∃ loaded, loadAll pdfFiles = Some loaded ∧ forallb rotatable loaded = true.
Proof.
  intros Hm. destruct (loadAll pdfFiles) as [loaded|] eqn:Hl.
  - exists loaded. split; [done|]. rewrite (mergeLoop_rotatable _ _ _ Hl) in Hm.
    by destruct (forallb rotatable loaded).
  - by rewrite (mergeLoop_unreadable _ _ Hl) in Hm.
Qed.


Lemma snd_imap_pair {A} (d : list A) : snd <$> imap pair d = d.
Proof.
  apply list_eq. intros i. rewrite list_lookup_fmap, list_lookup_imap.
  by destruct (d !! i).
Qed.



Lemma filter_all {A} (P : A → bool) (l : list A) :
  (∀ a, a ∈ l → P a = true) → List.filter P l = l.
Proof.
  induction l as [|a l IH]; intros Hall; [done|]. simpl.
  rewrite Hall by left. rewrite IH; [done|]. intros b Hb. apply Hall. by right.
Qed.

Lemma contribution_default pc d :
  (∀ i, (i < length d)%nat → resolve pc i = defaultConfig) →
  contribution (pc, d) = d.
Proof.
  intros Hdef. unfold contribution, selectedPages. simpl.
  assert (Hin : ∀ e, e ∈ imap pair d → resolve pc e.1 = defaultConfig).
  { intros [i p] (j & q & ? & Hj)%elem_of_lookup_imap. simplify_eq. simpl.
    apply Hdef. by eapply lookup_lt_Some. }
  rewrite filter_all by (intros e He; by rewrite (Hin e He)).
  rewrite <-(snd_imap_pair d) at 2.
  apply Forall_fmap_ext, Forall_forall. intros e He.
  unfold rotated. rewrite (Hin e He). simpl. apply setRotation_same.
Qed.

Lemma createMergedPdfBlob_loaded compression pdfFiles loaded :
  loadAll pdfFiles = Some loaded → forallb rotatable loaded = true →
  createMergedPdfBlob compression pdfFiles
  = Some {| pages := save (concat (contribution <$> loaded));
            useObjectStreams := compression |}.
Proof.
  intros Hload Hrot. unfold createMergedPdfBlob.
  by rewrite (mergeLoop_loaded _ _ [] Hload Hrot).
Qed.



(** A document whose pages all resolve to the default can be written. *)
Lemma rotatable_default pc d :
  (∀ i, (i < length d)%nat → resolve pc i = defaultConfig) → rotatable (pc, d) = true.
Proof.
  intros Hdef. unfold rotatable. apply forallb_forall.
  intros [i page] (j & q & ? & Hj)%list_elem_of_In%elem_of_lookup_imap. simplify_eq.
  unfold writable. cbn [fst snd]. rewrite Hdef by (by eapply lookup_lt_Some). done.
Qed.



Lemma concat_fmap_ext {A B} (f g : A → list B) (l : list A) :
  (∀ a, a ∈ l → f a = g a) → concat (f <$> l) = concat (g <$> l).
Proof. intros H. f_equal. by apply Forall_fmap_ext, Forall_forall. Qed.





Lemma rotatePage_lookup index (prev : gmap nat PageConfig) c :
  prev !! index = Some c →
  rotatePage index prev
  = Some (<[index := {| selected := selected c;
                        rotation := Z.rem (rotation c + 90) 360 |}]> prev).
Proof. intros Hc. unfold rotatePage. by rewrite Hc. Qed.

Lemma quarter_turns (r : Z) :
  0 <= r < 360 →
  Z.rem (Z.rem (Z.rem (Z.rem (r + 90) 360 + 90) 360 + 90) 360 + 90) 360 = r.
Proof. intros Hr. Z.to_euclidean_division_equations. lia. Qed.

Lemma rotateFour_identity index (prev : gmap nat PageConfig) c :
  prev !! index = Some c → 0 <= rotation c < 360 →
  rotateFour index prev = Some prev.
Proof.
  intros Hc Hr. unfold rotateFour.
  rewrite (rotatePage_lookup _ _ _ Hc). cbn [mbind option_bind].
  erewrite rotatePage_lookup by apply lookup_insert_eq. cbn [mbind option_bind].
  rewrite insert_insert_eq.
  erewrite rotatePage_lookup by apply lookup_insert_eq. cbn [mbind option_bind].
  rewrite insert_insert_eq.
  erewrite rotatePage_lookup by apply lookup_insert_eq.
  rewrite insert_insert_eq. cbn [selected rotation].
  rewrite quarter_turns by done.
  f_equal. apply insert_id. by destruct c.
Qed.

(** C2 (amended). A merge of documents that all load produces an output
    exactly when every page can be written: pdf-lib refuses a rotation that
    is not a multiple of 90.  The output then holds, for every selected page,
    a page whose rotation is the page's intrinsic rotation plus the configured
    rotation; the sum is not reduced modulo 360 (and when no page is selected
    the output is one blank page).  The rotate operation sets the rotation of
    an existing entry to [(current + 90) % 360], which for a rotation in
    [0, 360) is [(current + 90) mod 360]; four rotations give the
    configuration back. *)
Theorem C2_rotation_written_and_rotate (compression : bool) (pdfFiles : list AppFile)
    (loaded : list (option (gmap nat PageConfig) * list PDFPage)) :
  loadAll pdfFiles = Some loaded →
  createMergedPdfBlob compression pdfFiles
  = (if forallb rotatable loaded
     then Some {| pages :=
                    save (concat ((λ e, (λ ip, {| content := content ip.2;
                                                  angle := angle ip.2
                                                           + rotation (resolve e.1 ip.1) |})
                                          <$> selectedPages e.1 e.2) <$> loaded));
                  useObjectStreams := compression |}
     else None)
  ∧ ∀ index (prev : gmap nat PageConfig) c,
      prev !! index = Some c →
      rotatePage index prev
      = Some (<[index := {| selected := selected c;
                            rotation := Z.rem (rotation c + 90) 360 |}]> prev)
      ∧ (0 <= rotation c < 360 →
         Z.rem (rotation c + 90) 360 = (rotation c + 90) mod 360
         ∧ rotateFour index prev = Some prev).
Proof.
  intros Hload. split.
  - unfold createMergedPdfBlob. rewrite (mergeLoop_rotatable _ _ [] Hload).
    by destruct (forallb rotatable loaded).
  - intros index prev c Hc. split; [by apply rotatePage_lookup|].
    intros Hr. split; [|by eapply rotateFour_identity].
    apply Z.rem_mod_nonneg; lia.
Qed.

Lemma loadAll_app l1 l2 :
  loadAll (l1 ++ l2)
  = match loadAll l1, loadAll l2 with
    | Some a, Some b => Some (a ++ b)
    | _, _ => None
    end.
Proof.
  induction l1 as [|f l1 IH]; simpl.
  - by destruct (loadAll l2).
  - rewrite IH. destruct (document (file f)); [|done].
    by destruct (loadAll l1), (loadAll l2).
Qed.

Lemma contribution_emitted pc d :
  contribution (pc, d) = concat (emitted pc <$> imap pair d).
Proof. unfold contribution, selectedPages. by rewrite emitted_filter. Qed.



Lemma elem_of_imap_pair {A} (d : list A) (e : nat * A) :
  e ∈ imap pair d → d !! e.1 = Some e.2.
Proof. intros (j & q & ? & Hj)%elem_of_lookup_imap. by simplify_eq. Qed.

Lemma writable_agree pc pc' (e : nat * PDFPage) :
  resolve pc' e.1 = resolve pc e.1 → writable pc' e = writable pc e.
Proof. intros H. unfold writable. by rewrite H. Qed.





(** C2 fails as stated: a page stored with rotation 270 and configured with
    rotation 180 is written with rotation 450, not 90. *)
Lemma C2_counterexample :
  createMergedPdfBlob true [Samples.appFile Samples.reportFile (Some Samples.turned)]
  = Some {| pages := [ {| content := 20; angle := 0 |};
                       {| content := 21; angle := 450 |} ];
            useObjectStreams := true |}
  ∧ 450 ≠ (270 + 180) mod 360.
Proof. split; [vm_compute; reflexivity | discriminate]. Qed.

(** C2 (amended), on the same input and on the materialised store. *)
Lemma C2_witness :
  createMergedPdfBlob true [Samples.appFile Samples.reportFile (Some Samples.turned)]
  = Some {| pages := [ {| content := 20; angle := 0 + 0 |};
                       {| content := 21; angle := 270 + 180 |} ];
            useObjectStreams := true |}
  ∧ rotateFour 1 Samples.turned = Some Samples.turned.
Proof.
  destruct (C2_rotation_written_and_rotate true
    [Samples.appFile Samples.reportFile (Some Samples.turned)] _ eq_refl)
    as [Hmerge Hrotate].
  split; [exact Hmerge|].
  destruct (Hrotate 1%nat Samples.turned {| selected := true; rotation := 180 |} eq_refl)
    as [_ Hfour].
  apply Hfour. simpl. lia.
Defined.



End MergeFacts.

(** ** Strings and the merged file name *)

Section NamingFacts.
Import JS.

Lemma units_app (a b : string) : units (a +:+ b) = units a ++ units b.
Proof. induction a as [|c a IH]; [done|]. simpl. by rewrite IH. Qed.

Lemma units_inj (a b : string) : units a = units b → a = b.
Proof.
  intros H. rewrite <-(String.string_of_list_ascii_of_string a),
    <-(String.string_of_list_ascii_of_string b). by rewrite H.
Qed.

Lemma units_trim s : units (trim s) = trimUnits (units s).
Proof. apply String.list_ascii_of_string_of_list_ascii. Qed.

Lemma units_toLowerCase s : units (toLowerCase s) = lowerUnit <$> units s.
Proof. apply String.list_ascii_of_string_of_list_ascii. Qed.

Lemma trimStartUnits_head l c :
  head (trimStartUnits l) = Some c → isWhiteSpace c = false.
Proof.
  induction l as [|a l IH]; [done|]. simpl.
  destruct (isWhiteSpace a) eqn:Ha; [done|]. simpl. by intros [= <-].
Qed.

Lemma trimStartUnits_id l :
  (∀ c, head l = Some c → isWhiteSpace c = false) → trimStartUnits l = l.
Proof. destruct l as [|a l]; [done|]. simpl. intros H. by rewrite (H a). Qed.

Lemma trimStartUnits_last l c :
  last (trimStartUnits l) = Some c → last l = Some c.
Proof.
  induction l as [|a l IH]; [done|]. simpl.
  destruct (isWhiteSpace a); [|done].
  intros H. rewrite last_cons. by rewrite (IH H).
Qed.

Lemma trimUnits_trimmed l : trimmed (trimUnits l).
Proof.
  unfold trimUnits. split; intros c.
  - rewrite head_reverse. intros H%trimStartUnits_last.
    rewrite last_reverse in H. by eapply trimStartUnits_head.
  - rewrite last_reverse. apply trimStartUnits_head.
Qed.

Lemma trimUnits_id l : trimmed l → trimUnits l = l.
Proof.
  intros [Hhead Hlast]. unfold trimUnits.
  rewrite (trimStartUnits_id l) by done.
  rewrite trimStartUnits_id; [apply reverse_involutive|].
  intros c. rewrite head_reverse. apply Hlast.
Qed.

Lemma trim_id s : trimmed (units s) → trim s = s.
Proof. intros H. apply units_inj. by rewrite units_trim, trimUnits_id. Qed.

Lemma startsWithUnits_app p l : startsWithUnits (p ++ l) p = true.
Proof.
  induction p as [|a p IH]; [by destruct l|]. simpl.
  by rewrite bool_decide_eq_true_2, IH.
Qed.

Lemma endsWithUnits_app l suffix : endsWithUnits (l ++ suffix) suffix = true.
Proof. unfold endsWithUnits. rewrite reverse_app. apply startsWithUnits_app. Qed.

Lemma isEmpty_units s : isEmpty s = bool_decide (units s = []).
Proof. destruct s; done. Qed.

Lemma finalName_fixed (t : string) :
  trimmed (units t) → t ≠ "" →
  endsWith (toLowerCase t) ".pdf" = true → Merge.finalName t = t.
Proof.
  intros Htrim Hne Hext. unfold Merge.finalName. rewrite (trim_id t Htrim).
  unfold isEmpty. rewrite bool_decide_eq_false_2 by done. by rewrite Hext.
Qed.

Lemma finalName_shape (mergedFileName : string) :
  trimmed (units (Merge.finalName mergedFileName))
  ∧ Merge.finalName mergedFileName ≠ ""
  ∧ endsWith (toLowerCase (Merge.finalName mergedFileName)) ".pdf" = true.
Proof.
  unfold Merge.finalName.
  pose proof (trimUnits_trimmed (units mergedFileName)) as Htrim.
  rewrite <-units_trim in Htrim. set (t := trim mergedFileName) in *.
  unfold isEmpty. destruct (decide (t = "")) as [Hempty|Hempty].
  - rewrite bool_decide_eq_true_2 by done.
    split; [split; intros c [= <-]; done|]. done.
  - rewrite bool_decide_eq_false_2 by done.
    destruct (endsWith (toLowerCase t) ".pdf") eqn:Hext; cbn [negb]; [done|].
    split; [|split].
    + destruct Htrim as [Hhead _]. rewrite units_app. split; intros c.
      * rewrite head_app. destruct (head (units t)) eqn:Hh; [intros [= <-]; eauto|].
        apply head_None in Hh. destruct Hempty. apply units_inj. by rewrite Hh.
      * rewrite last_app. simpl. by intros [= <-].
    + intros Heq. apply (f_equal units) in Heq. rewrite units_app in Heq.
      by destruct (units t).
    + unfold endsWith. rewrite units_toLowerCase, units_app, fmap_app.
      apply endsWithUnits_app.
Qed.

(** C8. The merge file name rule is idempotent, and the name it yields ends
    in the document extension when compared case-insensitively. *)
Theorem C8_finalName_idempotent (mergedFileName : string) :
  Merge.finalName (Merge.finalName mergedFileName) = Merge.finalName mergedFileName
  ∧ endsWith (toLowerCase (Merge.finalName mergedFileName)) ".pdf" = true.
Proof.
  destruct (finalName_shape mergedFileName) as (Htrim & Hne & Hext).
  split; [by apply finalName_fixed|done].
Qed.

End NamingFacts.

(** ** Stamping: capture, placement and output *)

Section SignFacts.
Import Sign.
Local Open Scope Q_scope.

Lemma Qltb_true a b : Qltb a b = true → a < b.
Proof.
  unfold Qltb. intros H. apply Qnot_le_lt. intros Hle.
  apply Qle_bool_iff in Hle. by rewrite Hle in H.
Qed.

Lemma Qltb_false a b : Qltb a b = false → b <= a.
Proof.
  unfold Qltb. intros H. apply Qle_bool_iff.
  by destruct (Qle_bool b a).
Qed.

Lemma clampAxis_lower visual size x0 : visual <= size → 0 <= clampAxis visual size x0.
Proof.
  intros Hfit. unfold clampAxis. destruct (Qltb x0 0) eqn:Hlow;
    match goal with |- context [Qltb ?a ?b] => destruct (Qltb a b) eqn:Hup end;
    try (apply Qltb_false in Hlow); lra.
Qed.

Lemma clampAxis_outside visual size x0 :
  size < visual → clampAxis visual size x0 == size - visual.
Proof.
  intros Hwide. unfold clampAxis. destruct (Qltb x0 0) eqn:Hlow;
    match goal with |- context [Qltb ?a ?b] => destruct (Qltb a b) eqn:Hup end;
    try reflexivity; apply Qltb_false in Hup; try (apply Qltb_false in Hlow); lra.
Qed.

Lemma clampAxis_inside visual size x0 :
  0 <= x0 → x0 + visual <= size → clampAxis visual size x0 = x0.
Proof.
  intros Hlow Hup. unfold clampAxis.
  destruct (Qltb x0 0) eqn:H1; [apply Qltb_true in H1; lra|].
  destruct (Qltb size (x0 + visual)) eqn:H2; [apply Qltb_true in H2; lra|done].
Qed.

(** X10. A pointer at the centre of the preview, with a footprint that fits,
    stores the centre offset by half the footprint. *)
Lemma handleMouseMove_centre (st : State) (rect : DOMRect) (sig : Dims) :
  isDragging st = true →
  sigImageDims st = Some sig →
  0 <= visualWidth st <= width (bounds rect) →
  0 <= visualHeight st sig <= height (bounds rect) →
  let st' := handleMouseMove (Some rect) (left rect + width (bounds rect) / 2)
               (top rect + height (bounds rect) / 2) st in
  x (dragPos st') == width (bounds rect) / 2 - visualWidth st / 2
  ∧ y (dragPos st') == height (bounds rect) / 2 - visualHeight st sig / 2.
Proof.
  intros Hdrag Hsig Hw Hh st'. subst st'. unfold handleMouseMove.
  rewrite Hdrag, Hsig. cbn [dragPos setDragPos x y].
  assert (Hhalf : ∀ q, q / 2 + q / 2 == q) by (intros q; field).
  pose proof (Hhalf (width (bounds rect))) as HW.
  pose proof (Hhalf (height (bounds rect))) as HH.
  pose proof (Hhalf (visualWidth st)) as Hvw.
  pose proof (Hhalf (visualHeight st sig)) as Hvh.
  set (W2 := width (bounds rect) / 2) in *.
  set (H2 := height (bounds rect) / 2) in *.
  set (vw2 := visualWidth st / 2) in *.
  set (vh2 := visualHeight st sig / 2) in *.
  rewrite !clampAxis_inside by lra. split; ring.
Qed.

(** C9 fails as stated: with a footprint 400 pixels wide over a preview 300
    pixels wide, the stored position is x = -100. *)
Lemma C9_counterexample :
  x (dragPos (handleMouseMove (Some Samples.preview) 150 200
                (Samples.placing [Samples.contract] Samples.wideSignature
                                 {| x := 50; y := 50 |}))) == -100
  ∧ ¬ 0 <= x (dragPos (handleMouseMove (Some Samples.preview) 150 200
                (Samples.placing [Samples.contract] Samples.wideSignature
                                 {| x := 50; y := 50 |}))).
Proof. split; [reflexivity|]. vm_compute. intros H. by apply H. Qed.

(** C9 (amended). After every pointer move handled while dragging, the
    stored position is, on each axis, the pointer offset by half the
    footprint, raised to 0 when it is negative, and then replaced by
    [W - visualWidth] (by [H - visualHeight]) when it plus the footprint
    exceeds the size of the preview.  So [0 ≤ x] when the footprint is not
    wider than the preview and [0 ≤ y] when it is not taller; when the
    footprint is wider (taller) than the preview, the stored [x] is
    [W - visualWidth] (the stored [y] is [H - visualHeight]), a negative
    number. *)
Theorem C9_drag_position_clamped (st : State) (rect : DOMRect) (sig : Dims)
    (clientX clientY : Q) :
  isDragging st = true →
  sigImageDims st = Some sig →
  let st' := handleMouseMove (Some rect) clientX clientY st in
  let W := width (bounds rect) in
  let H := height (bounds rect) in
  let vw := visualWidth st in
  let vh := visualHeight st sig in
  let x0 := clientX - left rect - vw / 2 in
  let y0 := clientY - top rect - vh / 2 in
  let x1 := if Qltb x0 0 then 0 else x0 in
  let y1 := if Qltb y0 0 then 0 else y0 in
  x (dragPos st') = (if Qltb W (x1 + vw) then W - vw else x1)
  ∧ y (dragPos st') = (if Qltb H (y1 + vh) then H - vh else y1)
  ∧ (if Qltb W vw then x (dragPos st') == W - vw else 0 <= x (dragPos st'))
  ∧ (if Qltb H vh then y (dragPos st') == H - vh else 0 <= y (dragPos st')).
Proof.
  intros Hdrag Hsig st' W H vw vh x0 y0 x1 y1. subst st'. unfold handleMouseMove.
  rewrite Hdrag, Hsig. cbn [dragPos setDragPos x y].
  split; [done|]. split; [done|]. split.
  - destruct (Qltb W vw) eqn:Hwide.
    + apply clampAxis_outside. by apply Qltb_true.
    + apply clampAxis_lower. by apply Qltb_false.
  - destruct (Qltb H vh) eqn:Htall.
    + apply clampAxis_outside. by apply Qltb_true.
    + apply clampAxis_lower. by apply Qltb_false.
Qed.

(** C9 (amended): the small signature dragged far beyond the lower right
    corner of the preview is stored at (290, 395). *)
Lemma C9_witness :
  let st' := handleMouseMove (Some Samples.preview) 1000 1000 Samples.centred in
  x (dragPos st') = 300 - visualWidth Samples.centred
  ∧ y (dragPos st') = 400 - visualHeight Samples.centred (pixels Samples.signature)
  ∧ 0 <= x (dragPos st')
  ∧ 0 <= y (dragPos st').
Proof.
  exact (C9_drag_position_clamped Samples.centred Samples.preview
           (pixels Samples.signature) 1000 1000 eq_refl eq_refl).
Defined.

Lemma foldl_alter_lookup {A} (f : A → A) (indices : list nat) (l : list A) j :
  NoDup indices →
  foldl (λ ps i, alter f i ps) l indices !! j
  = if bool_decide (j ∈ indices) then f <$> l !! j else l !! j.
Proof.
  intros Hnd. revert l. induction Hnd as [|i rest Hi Hnd IH]; intros l; [done|].
  cbn [foldl]. rewrite IH. destruct (decide (i = j)) as [->|Hne].
  - rewrite list_lookup_alter_eq.
    rewrite (bool_decide_eq_false_2 (j ∈ rest)) by done.
    rewrite (bool_decide_eq_true_2 (j ∈ j :: rest)); [done|left].
  - rewrite list_lookup_alter_ne by done.
    destruct (decide (j ∈ rest)) as [Hin|Hnin].
    + rewrite !bool_decide_eq_true_2; [done|by right|done].
    + rewrite !bool_decide_eq_false_2; [done| |done].
      intros [->|?]%elem_of_cons; done.
Qed.

Lemma pagesToProcess_NoDup rule n : NoDup (pagesToProcess rule n).
Proof.
  destruct rule; simpl.
  - apply NoDup_seq.
  - destruct (0 <? n)%nat; [apply NoDup_singleton|apply NoDup_nil_2].
  - destruct (0 <? n)%nat; [apply NoDup_singleton|apply NoDup_nil_2].
Qed.

Lemma stampDocument_lookup st signatureDims pages i :
  stampDocument st signatureDims pages !! i
  = if bool_decide (i ∈ pagesToProcess (pagesToSign st) (length pages))
    then stampPage st signatureDims <$> pages !! i
    else pages !! i.
Proof. apply foldl_alter_lookup, pagesToProcess_NoDup. Qed.

Lemma signAll_lookup st img signedPdfs k pdfItem :
  signAll st img = Some signedPdfs →
  pdfs st !! k = Some pdfItem →
  ∃ pages,
    document (file pdfItem) = Some pages
    ∧ signedPdfs !! k
      = Some {| signedName := newName (file pdfItem);
                blob := save (stampDocument st (scale img (signatureScale st)) pages) |}.
Proof.
  intros Hall Hk. apply mapM_Some_1 in Hall.
  destruct (Forall2_lookup_l _ _ _ _ _ Hall Hk) as (sp & Hsp & Hf).
  destruct (document (file pdfItem)) as [pages|]; [|done].
  exists pages. split; [done|]. cbn [mbind option_bind] in Hf.
  destruct (embeds img); [|done]. by injection Hf as <-.
Qed.

Lemma length_stampDocument st signatureDims pages :
  length (stampDocument st signatureDims pages) = length pages.
Proof.
  unfold stampDocument. generalize (pagesToProcess (pagesToSign st) (length pages)).
  intros indices. revert pages.
  induction indices as [|i indices IH]; intros pages; [done|].
  cbn [foldl]. by rewrite IH, length_alter.
Qed.

(** Saving a stamped document that has a page adds nothing. *)
Lemma save_stampDocument st signatureDims pages :
  pages ≠ [] →
  save (stampDocument st signatureDims pages) = stampDocument st signatureDims pages.
Proof.
  intros Hne. pose proof (length_stampDocument st signatureDims pages) as Hlen.
  destruct (stampDocument st signatureDims pages); [|done].
  by destruct pages.
Qed.

(** C4. In interactive placement mode with a rendered preview of size
    [(W, H)], every page that is stamped, of whatever document and of size
    [(Wt, Ht)], receives the image at [px = (x / W) * Wt] and
    [py = Ht - (y / H) * Ht - ah], with extent [(aw, ah)] the pixel size of
    the image times the one scale factor of the state.  [W] and [H] are taken
    positive: on a division by zero the rational model and JS differ. *)
Theorem C4_interactive_placement (st : State) (img : ImageFile) (canvas : Dims)
    (signedPdfs : list Signed) (k : nat) (pdfItem : SignFile)
    (pages : list PDFPage) (i : nat) (page : PDFPage) :
  useVisualPlacement st = true →
  canvasDims st = Some canvas →
  0 < width canvas → 0 < height canvas →
  signAll st img = Some signedPdfs →
  pdfs st !! k = Some pdfItem →
  document (file pdfItem) = Some pages →
  i ∈ pagesToProcess (pagesToSign st) (length pages) →
  pages !! i = Some page →
  let fx := x (dragPos st) / width canvas in
  let fy := y (dragPos st) / height canvas in
  let aw := width (pixels img) * signatureScale st in
  let ah := height (pixels img) * signatureScale st in
  ∃ sp,
    signedPdfs !! k = Some sp
    ∧ blob sp !! i
      = Some (drawImage
                {| origin := {| x := fx * width (getSize page);
                                y := height (getSize page)
                                     - fy * height (getSize page) - ah |};
                   extent := {| width := aw; height := ah |} |}
                page).
Proof.
  intros Hvisual Hcanvas _ _ Hall Hk Hdoc Hi Hpage fx fy aw ah.
  destruct (signAll_lookup _ _ _ _ _ Hall Hk) as (pages' & Hdoc' & Hsp).
  rewrite Hdoc in Hdoc'. injection Hdoc' as <-.
  eexists. split; [exact Hsp|]. cbn [blob].
  rewrite save_stampDocument by (intros ->; by rewrite lookup_nil in Hpage).
  rewrite stampDocument_lookup, bool_decide_eq_true_2 by done.
  rewrite Hpage. cbn [fmap option_fmap option_map]. f_equal.
  unfold stampPage, drawOptions. by rewrite Hvisual, Hcanvas.
Qed.

(** C4, on the second (smaller) page of the contract. *)
Lemma C4_witness :
  ∃ sp,
    [ {| signedName := "contract_firmado.pdf";
         blob := stampDocument Samples.centred (scale Samples.signature (1 # 5))
                   [Samples.blank 600 800; Samples.blank 300 400] |} ] !! 0%nat
    = Some sp
    ∧ blob sp !! 1%nat
      = Some (drawImage
                {| origin := {| x := (145 / 300) * 300;
                                y := 400 - ((395 # 2) / 400) * 400 - 50 * (1 # 5) |};
                   extent := {| width := 100 * (1 # 5); height := 50 * (1 # 5) |} |}
                (Samples.blank 300 400)).
Proof.
  refine (C4_interactive_placement Samples.centred Samples.signature
            {| width := 300; height := 400 |} _ 0%nat Samples.contract
            [Samples.blank 600 800; Samples.blank 300 400] 1%nat (Samples.blank 300 400)
            eq_refl eq_refl _ _ eq_refl eq_refl eq_refl _ eq_refl).
  - reflexivity.
  - reflexivity.
  - simpl. right. left.
Defined.

(** C5 fails as stated: with the footprint centred in the preview of the
    600 x 800 reference page, the image drawn on the 300 x 400 page has its
    centre at x = 155 and y = 395/2, not at (150, 200). *)
Lemma C5_counterexample :
  x (dragPos Samples.centred) == 300 / 2 - visualWidth Samples.centred / 2
  ∧ y (dragPos Samples.centred)
    == 400 / 2 - visualHeight Samples.centred (pixels Samples.signature) / 2
  ∧ x (dragPos Samples.centred) + visualWidth Samples.centred / 2 == (1 # 2) * 300
  ∧ y (dragPos Samples.centred)
    + visualHeight Samples.centred (pixels Samples.signature) / 2 == (1 # 2) * 400
  ∧ let o := drawOptions Samples.centred (scale Samples.signature (1 # 5))
               {| width := 300; height := 400 |} in
    x (origin o) + width (extent o) / 2 == 155
    ∧ y (origin o) + height (extent o) / 2 == 395 # 2
    ∧ ¬ x (origin o) + width (extent o) / 2 == 300 / 2
    ∧ ¬ y (origin o) + height (extent o) / 2 == 400 / 2.
Proof. repeat split; try reflexivity; vm_compute; discriminate. Qed.

(** C5 (amended). With the footprint centred in the preview (the drag
    position is the centre of the preview offset by half the footprint) and
    the preview a uniformly scaled image of the reference page [(Wp, Hp)],
    the centre of the rectangle drawn on a page [(Wt, Ht)] is displaced from
    the centre of that page by [(aw / 2) (1 - Wt / Wp)] and
    [(ah / 2) (Ht / Hp - 1)]: the rectangle is centred on every target page
    that has the size of the reference page. *)
Theorem C5_centred_on_reference_size (st : State) (img : ImageFile)
    (ref canvas size : Dims) :
  useVisualPlacement st = true →
  sigImageDims st = Some (pixels img) →
  pdfPageDimensions st = Some ref →
  canvasDims st = Some canvas →
  0 < width ref → 0 < height ref →
  0 < width canvas → 0 < height canvas →
  0 < width (pixels img) →
  height canvas * width ref == height ref * width canvas →
  x (dragPos st) == width canvas / 2 - visualWidth st / 2 →
  y (dragPos st) == height canvas / 2 - visualHeight st (pixels img) / 2 →
  let o := drawOptions st (scale img (signatureScale st)) size in
  let aw := width (extent o) in
  let ah := height (extent o) in
  x (origin o) + aw / 2 == width size / 2 + (aw / 2) * (1 - width size / width ref)
  ∧ y (origin o) + ah / 2 == height size / 2 + (ah / 2) * (height size / height ref - 1)
  ∧ (width size == width ref → height size == height ref →
     x (origin o) + aw / 2 == width size / 2
     ∧ y (origin o) + ah / 2 == height size / 2).
Proof.
  intros Hvisual Hsig Href Hcanvas HWp HHp HW HH Hiw Hscale Hdx Hdy o aw ah.
  subst o aw ah. unfold drawOptions. rewrite Hvisual, Hcanvas.
  unfold visualHeight, visualWidth in Hdx, Hdy. rewrite Hsig, Href, Hcanvas in Hdx, Hdy.
  destruct ref as [Wp Hp], canvas as [W H], size as [Wt Ht].
  destruct img as [ty [iw ih]]. cbn [x y origin extent width height scale pixels] in *.
  rewrite Hdx, Hdy.
  set (s := signatureScale st) in *. clearbody s.
  assert (HHeq : H == Hp * W / Wp).
  { field_simplify_eq; [|lra]. rewrite <-Hscale. ring. }
  assert (Hx : (W / 2 - iw * s * (W / Wp) / 2) / W * Wt + iw * s / 2
               == Wt / 2 + iw * s / 2 * (1 - Wt / Wp)).
  { field. split; lra. }
  assert (Hy : Ht - (H / 2 - iw * s * (W / Wp) * (ih / iw) / 2) / H * Ht - ih * s + ih * s / 2
               == Ht / 2 + ih * s / 2 * (Ht / Hp - 1)).
  { rewrite HHeq. field. repeat split; lra. }
  split; [exact Hx|]. split; [exact Hy|].
  intros HWt HHt. rewrite Hx, Hy. split.
  - rewrite HWt. field. lra.
  - rewrite HHt. field. lra.
Qed.

(** C5 (amended), on the first page of the contract, which is the reference
    page. *)
Lemma C5_witness :
  let o := drawOptions Samples.centred (scale Samples.signature (1 # 5))
             {| width := 600; height := 800 |} in
  x (origin o) + width (extent o) / 2
  == 600 / 2 + (width (extent o) / 2) * (1 - 600 / 600)
  ∧ y (origin o) + height (extent o) / 2
    == 800 / 2 + (height (extent o) / 2) * (800 / 800 - 1)
  ∧ (600 == 600 → 800 == 800 →
     x (origin o) + width (extent o) / 2 == 600 / 2
     ∧ y (origin o) + height (extent o) / 2 == 800 / 2).
Proof.
  refine (C5_centred_on_reference_size Samples.centred Samples.signature
            {| width := 600; height := 800 |} {| width := 300; height := 400 |}
            {| width := 600; height := 800 |}
            eq_refl eq_refl eq_refl eq_refl _ _ _ _ _ _ _ _); reflexivity.
Defined.

Lemma foldl_zipFile_other (l : list Signed) (zip : gmap string (list PDFPage)) n :
  n ∉ signedName <$> l → foldl zipFile zip l !! n = zip !! n.
Proof.
  revert zip. induction l as [|sp l IH]; intros zip Hn; [done|].
  cbn [foldl]. rewrite IH.
  - unfold zipFile. apply lookup_insert_ne. intros <-. apply Hn. cbn. left.
  - intros Hin. apply Hn. cbn. by right.
Qed.

Lemma foldl_zipFile_lookup (l : list Signed) (zip : gmap string (list PDFPage)) sp :
  NoDup (signedName <$> l) → sp ∈ l →
  foldl zipFile zip l !! signedName sp = Some (blob sp).
Proof.
  revert zip. induction l as [|sp' l IH]; intros zip Hnd Hin; [by inv Hin|].
  cbn [fmap list_fmap] in Hnd. apply NoDup_cons in Hnd as [Hfresh Hnd].
  cbn [foldl]. apply elem_of_cons in Hin as [->|Hin].
  - rewrite foldl_zipFile_other by done. apply lookup_insert_eq.
  - by apply IH.
Qed.

Lemma foldl_zipFile_size (l : list Signed) (zip : gmap string (list PDFPage)) :
  NoDup (signedName <$> l) →
  (∀ sp, sp ∈ l → zip !! signedName sp = None) →
  size (foldl zipFile zip l) = (size zip + length l)%nat.
Proof.
  revert zip. induction l as [|sp l IH]; intros zip Hnd Hfree; [simpl; lia|].
  cbn [fmap list_fmap] in Hnd. apply NoDup_cons in Hnd as [Hfresh Hnd].
  cbn [foldl length]. rewrite IH; [|done|].
  - unfold zipFile. rewrite map_size_insert_None; [lia|]. apply Hfree. left.
  - intros sp' Hin. unfold zipFile. rewrite lookup_insert_ne.
    + apply Hfree. by right.
    + intros Heq. apply Hfresh. rewrite Heq. by apply list_elem_of_fmap_2.
Qed.

(** X2. One target document that loads, and a signature image that can be
    embedded: the download is the stamped document itself as it is saved (one
    blank page when the document has no page), under the name of the source
    with its extension replaced by "_firmado.pdf".  When the target does not
    load or the image cannot be embedded, nothing is downloaded. *)
Lemma handleSign_single (st : State) (img : ImageFile) (pdfItem : SignFile) :
  pdfs st = [pdfItem] → signatureImage st = Some img →
  handleSign st
  = match document (file pdfItem), embeds img with
    | Some pages, true =>
        Downloaded
          (PdfDownload (JS.stripExtension (name (file pdfItem)) +:+ "_firmado.pdf")
                       (save (stampDocument st (scale img (signatureScale st)) pages)))
    | _, _ => Failed "Ocurrió un error al firmar los documentos."
    end.
Proof.
  intros Hpdfs Himg. unfold handleSign, signAll. rewrite Hpdfs, Himg.
  cbn [mapM mbind option_bind mret option_ret].
  destruct (document (file pdfItem)) as [pages|]; [|done].
  cbn [mbind option_bind]. by destruct (embeds img).
Qed.

(** X3. Several target documents whose output names differ pairwise: the download
    is one archive with one entry for each of them. *)
Lemma handleSign_distinct_names (st : State) (img : ImageFile) (signedPdfs : list Signed) :
  signatureImage st = Some img →
  (1 < length (pdfs st))%nat →
  signAll st img = Some signedPdfs →
  NoDup (signedName <$> signedPdfs) →
  ∃ entries,
    handleSign st = Downloaded (ZipDownload "documentos_firmados.zip" entries)
    ∧ size entries = length (pdfs st)
    ∧ ∀ k pdfItem, pdfs st !! k = Some pdfItem →
        ∃ pages, document (file pdfItem) = Some pages
          ∧ entries !! (JS.stripExtension (name (file pdfItem)) +:+ "_firmado.pdf")
            = Some (save (stampDocument st (scale img (signatureScale st)) pages)).
Proof.
  intros Himg Hlen Hall Hnd. exists (foldl zipFile ∅ signedPdfs).
  pose proof (length_mapM _ _ _ Hall) as Hsame.
  split; [|split].
  - unfold handleSign. rewrite Himg, Hall.
    destruct (pdfs st) as [|p1 [|p2 rest]]; simpl in Hlen; [lia..|].
    destruct signedPdfs as [|s1 [|s2 srest]]; simpl in Hsame; [lia..|done].
  - rewrite foldl_zipFile_size by done. rewrite map_size_empty. lia.
  - intros k pdfItem Hk.
    destruct (signAll_lookup _ _ _ _ _ Hall Hk) as (pages & Hdoc & Hsp).
    exists pages. split; [done|].
    apply list_elem_of_lookup_2 in Hsp.
    apply (foldl_zipFile_lookup _ ∅ _ Hnd Hsp).
Qed.

(** C6 fails on the code: stamping two documents that are both named
    contract.pdf gives an archive with a single entry, the second document
    having replaced the first. *)
Theorem C6_same_name_single_entry :
  ∃ entries,
    handleSign (Samples.placing [Samples.contract; Samples.contractCopy]
                  Samples.signature {| x := 145; y := 395 # 2 |})
    = Downloaded (ZipDownload "documentos_firmados.zip" entries)
    ∧ size entries = 1%nat
    ∧ entries !! "contract_firmado.pdf"
      = Some (stampDocument (Samples.placing [Samples.contract; Samples.contractCopy]
                               Samples.signature {| x := 145; y := 395 # 2 |})
                (scale Samples.signature (1 # 5)) [Samples.blank 595 842]).
Proof.
  eexists. split; [reflexivity|]. split; [reflexivity|]. reflexivity.
Qed.

End SignFacts.

(** ** Promise.all *)

Section PromiseFacts.
Import Promise.
Context {A : Type}.
Implicit Types (tasks : list (Settled A)) (st : AllState A).

Lemma onSettle_sticky tasks st i r :
  settled st = Some r → settled (onSettle tasks st i) = Some r.
Proof.
  intros Hr. unfold onSettle.
  destruct (tasks !! i) as [[v|]|]; cbn [settled]; by rewrite ?Hr.
Qed.

Lemma foldl_onSettle_sticky tasks schedule st r :
  settled st = Some r → settled (foldl (onSettle tasks) st schedule) = Some r.
Proof.
  revert st. induction schedule as [|i rest IH]; intros st Hr; [done|].
  cbn [foldl]. by apply IH, onSettle_sticky.
Qed.

Lemma joined_rejected tasks i : tasks !! i = Some Rejected → joined tasks = Rejected.
Proof.
  revert i. induction tasks as [|t tasks IH]; intros [|i] Hi; simplify_eq/=; [done|].
  destruct t; [|done]. by rewrite (IH i).
Qed.

Lemma joined_fulfilled tasks :
  (∀ i t, tasks !! i = Some t → ∃ v, t = Fulfilled v) →
  Fulfilled <$> mapM id (valueOf <$> tasks) = Some (joined tasks).
Proof.
  induction tasks as [|t tasks IH]; intros Hall; [done|].
  destruct (Hall 0%nat t eq_refl) as [v ->].
  specialize (IH (λ i, Hall (S i))). cbn [fmap list_fmap] in *. simpl.
  destruct (mapM id _) as [vs|]; simplify_eq/=; by rewrite <-IH.
Qed.

Lemma joined_lookup tasks vs :
  joined tasks = Fulfilled vs →
  length vs = length tasks
  ∧ ∀ k t, tasks !! k = Some t → ∃ v, vs !! k = Some v ∧ t = Fulfilled v.
Proof.
  revert vs. induction tasks as [|t tasks IH]; intros vs Hj; simpl in Hj.
  - injection Hj as <-. split; [done|]. by intros k t [=].
  - destruct t as [v|]; [|done]. destruct (joined tasks) as [vs'|] eqn:Hj'; [|done].
    injection Hj as <-. destruct (IH vs' eq_refl) as [Hlen Hlook].
    split; [simpl; by rewrite Hlen|].
    intros [|k] t Hk; simplify_eq/=; eauto.
Qed.

Lemma slots_nil tasks : slots tasks [] = replicate (length tasks) None.
Proof.
  unfold slots. apply list_eq. intros i. rewrite list_lookup_imap.
  destruct (tasks !! i) as [t|] eqn:Hi; simpl.
  - symmetry. apply lookup_replicate_2. by eapply lookup_lt_Some.
  - symmetry. apply lookup_ge_None. rewrite length_replicate. by apply lookup_ge_None.
Qed.

Lemma slots_insert tasks fulfilled i v :
  tasks !! i = Some (Fulfilled v) →
  <[i := Some v]> (slots tasks fulfilled) = slots tasks (fulfilled ++ [i]).
Proof.
  intros Hi. unfold slots. apply list_eq. intros j.
  rewrite list_lookup_imap. destruct (decide (i = j)) as [->|Hne].
  - rewrite list_lookup_insert_eq.
    + rewrite Hi. simpl. rewrite bool_decide_eq_true_2; [done|].
      apply elem_of_app. right. left.
    + rewrite length_imap. by eapply lookup_lt_Some.
  - rewrite list_lookup_insert_ne by done. rewrite list_lookup_imap.
    destruct (tasks !! j) as [t|]; [simpl|done].
    destruct (decide (j ∈ fulfilled)) as [Hin|Hnin].
    + rewrite !bool_decide_eq_true_2; [done| |done]. apply elem_of_app. by left.
    + rewrite !bool_decide_eq_false_2; [done| |done].
      intros [?|?%list_elem_of_singleton]%elem_of_app; by simplify_eq.
Qed.

Lemma slots_full tasks fulfilled :
  (∀ i, (i < length tasks)%nat → i ∈ fulfilled) →
  slots tasks fulfilled = valueOf <$> tasks.
Proof.
  intros Hall. unfold slots. apply list_eq. intros i.
  rewrite list_lookup_imap, list_lookup_fmap.
  destruct (tasks !! i) as [t|] eqn:Hi; [simpl|done].
  rewrite bool_decide_eq_true_2; [done|]. apply Hall. by eapply lookup_lt_Some.
Qed.

(** The aggregate does not depend on the order in which the tasks settle. *)
Lemma run_joined tasks schedule fulfilled st :
  fulfilled ++ schedule ≡ₚ seq 0 (length tasks) →
  (∀ i, i ∈ fulfilled → ∃ v, tasks !! i = Some (Fulfilled v)) →
  values st = slots tasks fulfilled →
  remaining st = length schedule →
  settled st = match schedule with [] => Some (joined tasks) | _ => None end →
  settled (foldl (onSettle tasks) st schedule) = Some (joined tasks).
Proof.
  revert fulfilled st.
  induction schedule as [|i rest IH]; intros fulfilled st Hperm Hful Hvals Hrem Hset;
    [done|].
  cbn [foldl].
  assert (Hi : (i < length tasks)%nat).
  { apply elem_of_seq_0. rewrite <-Hperm. apply elem_of_app. right. left. }
  destruct (lookup_lt_is_Some_2 tasks i Hi) as [t Ht].
  destruct t as [v|].
  - assert (Hful' : ∀ j, j ∈ fulfilled ++ [i] → ∃ w, tasks !! j = Some (Fulfilled w)).
    { intros j [Hin|Hin%list_elem_of_singleton]%elem_of_app; [by apply Hful|].
      subst j. eauto. }
    apply (IH (fulfilled ++ [i])); [by rewrite <-app_assoc|done|..];
      unfold onSettle; rewrite Ht.
    + cbn [values]. rewrite Hvals. by apply slots_insert.
    + cbn [remaining]. by rewrite Hrem.
    + cbn [settled]. rewrite Hset, Hrem, Hvals. cbn [length pred].
      destruct rest as [|k rest]; [|done]. cbn [length Nat.eqb].
      assert (Hcover : ∀ j, (j < length tasks)%nat → j ∈ fulfilled ++ [i]).
      { intros j Hj. apply elem_of_seq_0 in Hj. by rewrite <-Hperm in Hj. }
      rewrite (slots_insert _ _ _ _ Ht), (slots_full _ _ Hcover).
      apply joined_fulfilled. intros j t Hj.
      destruct (Hful' j) as [w Hw]; [by eapply Hcover, lookup_lt_Some|].
      rewrite Hj in Hw. injection Hw as ->. eauto.
  - rewrite (joined_rejected _ _ Ht). apply foldl_onSettle_sticky.
    unfold onSettle. rewrite Ht. cbn [settled]. by rewrite Hset.
Qed.

Lemma all_joined tasks schedule :
  schedule ≡ₚ seq 0 (length tasks) →
  Promise.all tasks schedule = Some (joined tasks).
Proof.
  intros Hperm. unfold Promise.all. apply (run_joined tasks schedule []).
  - done.
  - intros i Hi. by apply not_elem_of_nil in Hi.
  - cbn [start values]. by rewrite slots_nil.
  - cbn [start remaining]. by rewrite (Permutation_length Hperm), length_seq.
  - cbn [start settled]. apply Permutation_length in Hperm. rewrite length_seq in Hperm.
    destruct schedule, tasks; simplify_eq/=; done.
Qed.

End PromiseFacts.

(** ** Adding a batch of files *)

Section BatchFacts.
Import PageEditor Merge Promise.

Lemma joined_all_fulfilled {A} (tasks : list (Settled A)) :
  (∀ i t, tasks !! i = Some t → ∃ v, t = Fulfilled v) →
  ∃ vs, joined tasks = Fulfilled vs.
Proof.
  intros Hall. pose proof (joined_fulfilled tasks Hall) as Hj.
  destruct (mapM _ _) as [vs|]; [|done]. exists vs. by injection Hj.
Qed.

Lemma processedFiles_lookup conv compression random filesToAdd k :
  processedFiles conv compression random filesToAdd !! k
  = processFile conv compression (random k) <$> validFiles filesToAdd !! k.
Proof. unfold processedFiles. by rewrite list_lookup_imap. Qed.

Lemma joined_mapM {A} (tasks : list (Settled A)) :
  joined tasks
  = match mapM valueOf tasks with
    | Some vs => Fulfilled vs
    | None => Rejected
    end.
Proof.
  induction tasks as [|t tasks IH]; [done|]. cbn [joined mapM].
  destruct t as [v|]; [|done]. cbn [valueOf mbind option_bind]. rewrite IH.
  by destruct (mapM valueOf tasks).
Qed.

(** C7 fails as stated: of a batch of three files, a photograph, a text file
    and a Word file, the text file does not pass the intake filter; both
    tasks succeed, and two documents, not three, are appended to the list,
    which is therefore not left unchanged either; no error is set. *)
Lemma C7_counterexample :
  let batch := [Samples.photo; Samples.readme; Samples.notes] in
  let st' := processAndAddFiles Samples.converters Samples.draws [1; 0]%nat batch
               Samples.working in
  length batch = 3%nat
  ∧ length (files st') = (length (files Samples.working) + 2)%nat
  ∧ files st' ≠ files Samples.working
  ∧ error st' = None.
Proof.
  split_and!; [reflexivity|reflexivity| |reflexivity].
  intros H. apply (f_equal length) in H. discriminate H.
Qed.

(** C7 (amended). Of the files of a batch, those that pass the intake filter
    (by type or by extension) get a normalisation task each.  Whatever the
    order in which the tasks settle: when every task succeeds, the documents
    of all these files are appended to the working list, in submission order,
    and no error is set; when some task fails, the working list is left as it
    was and an error is set.  Files that do not pass the filter are left out
    without an error, unless none passes: then nothing is added and an error
    is set. *)
Theorem C7_batch_all_or_nothing (conv : Converters) (random : nat → string)
    (schedule : list nat) (filesToAdd : list File) (st : State) :
  let valid := List.filter isValidFile filesToAdd in
  let task k f := processFile conv (isCompressionEnabled st) (random k) f in
  schedule ≡ₚ seq 0 (length valid) →
  let st' := processAndAddFiles conv random schedule filesToAdd st in
  match mapM valueOf (imap task valid) with
  | Some newFiles =>
      files st' = files st ++ newFiles
      ∧ length newFiles = length valid
      ∧ (∀ k f, valid !! k = Some f →
           ∃ a, newFiles !! k = Some a ∧ task k f = Fulfilled a)
      ∧ error st'
        = match valid with
          | [] => Some "Ninguno de los archivos seleccionados es un formato válido (PDF, JPG, PNG)."
          | _ :: _ => None
          end
  | None =>
      files st' = files st
      ∧ error st' = Some "Ocurrió un error al procesar uno de los archivos."
  end.
Proof.
  intros valid task Hperm st'. subst st'. unfold processAndAddFiles, validFiles.
  fold valid.
  destruct (Nat.eqb_spec (length valid) 0) as [Hnone|Hsome].
  { apply nil_length_inv in Hnone. rewrite Hnone. cbn. rewrite app_nil_r.
    by split_and!. }
  set (tasks := processedFiles conv (isCompressionEnabled st) random filesToAdd).
  assert (Htasks : tasks = imap task valid) by done.
  assert (Hlen : length tasks = length valid) by (rewrite Htasks; apply length_imap).
  rewrite (all_joined tasks schedule) by (by rewrite Hlen).
  rewrite joined_mapM, <-Htasks.
  destruct (mapM valueOf tasks) as [vs|] eqn:Hvs; cbn [files error]; [|done].
  assert (Hjoined : joined tasks = Fulfilled vs) by (by rewrite joined_mapM, Hvs).
  destruct (joined_lookup tasks vs Hjoined) as [Hvlen Hvlook].
  split; [done|]. split; [by rewrite Hvlen|]. split.
  - intros k f Hk. destruct (Hvlook k (task k f)) as (a & Ha & Hta); [|eauto].
    by rewrite Htasks, list_lookup_imap, Hk.
  - by destruct valid.
Qed.

(** C7 (amended), on a photo, a text file and an office file, the office file
    settling first, and on a batch whose second file cannot be converted. *)
Lemma C7_witness :
  (λ a, (name (file a), type a))
    <$> files (processAndAddFiles Samples.converters Samples.draws [1; 0]%nat
                 [Samples.photo; Samples.readme; Samples.notes] Samples.working)
  = [("scan.pdf", pdf); ("photo.pdf", pdf); ("notes.pdf", word)]
  ∧ files (processAndAddFiles Samples.converters Samples.draws [0; 2; 1]%nat
             [Samples.photo; Samples.broken; Samples.notes] Samples.working)
    = files Samples.working
  ∧ error (processAndAddFiles Samples.converters Samples.draws [0; 2; 1]%nat
             [Samples.photo; Samples.broken; Samples.notes] Samples.working)
    = Some "Ocurrió un error al procesar uno de los archivos.".
Proof.
  pose proof (C7_batch_all_or_nothing Samples.converters Samples.draws [1; 0]%nat
                [Samples.photo; Samples.readme; Samples.notes] Samples.working
                (Permutation_cons_append [0%nat] 1%nat)) as Hgood.
  pose proof (C7_batch_all_or_nothing Samples.converters Samples.draws [0; 2; 1]%nat
                [Samples.photo; Samples.broken; Samples.notes] Samples.working
                (perm_skip 0%nat (perm_swap 1%nat 2%nat []))) as Hbad.
  cbn zeta in Hgood, Hbad.
  destruct Hgood as (Hfiles & _). destruct Hbad as [Hsame Herr].
  split; [by rewrite Hfiles|]. split; [exact Hsame | exact Herr].
Defined.

(** The same batch evaluated: the two documents arrive in submission order
    although the second task settled first, and the text file is not taken
    in. *)
Example batch_committed_in_submission_order :
  (λ a, (name (file a), type a))
    <$> files (processAndAddFiles Samples.converters Samples.draws [1; 0]%nat
                 [Samples.photo; Samples.readme; Samples.notes] Samples.working)
  = [("scan.pdf", pdf); ("photo.pdf", pdf); ("notes.pdf", word)].
Proof. reflexivity. Qed.

(** One failing task rejects the whole batch, whichever task settles first. *)
Example batch_rejected_as_a_whole :
  files (processAndAddFiles Samples.converters Samples.draws [0; 2; 1]%nat
           [Samples.photo; Samples.broken; Samples.notes] Samples.working)
  = files Samples.working
  ∧ files (processAndAddFiles Samples.converters Samples.draws [1; 0; 2]%nat
             [Samples.photo; Samples.broken; Samples.notes] Samples.working)
    = files Samples.working.
Proof. split; reflexivity. Qed.

End BatchFacts.

(** ** Further properties of the editor, the merge and the stamping pass *)

Section FurtherFacts.
Import PageEditor.

(** A run of the editor on a three-page document. *)
Lemma session_wellFormed_witness :
  ∃ config,
    session 3 [Toggle 1; Rotate 1; Rotate 1; SelectAll; Rotate 0; DeselectAll]
      (loadPdf 3 ∅) = Some config
    ∧ wellFormed 3 config.
Proof.
  apply (session_wellFormed 3).
  repeat constructor; simpl; lia.
Defined.

(** X11. Whenever some index in [0, pageCount) has no entry, [selectAll] and
    [deselectAll] throw. *)
Theorem selectAll_missing_entry_throws (numPages k : nat)
    (config : gmap nat PageConfig) :
  (k < numPages)%nat → config !! k = None →
  ∃ after_select after_deselect,
    selectAll numPages config = TypeError after_select
    ∧ deselectAll numPages config = TypeError after_deselect.
Proof.
  intros Hk Hnone.
  destruct (setSelectedLoop_missing true (seq 0 numPages) config k) as [l1 H1];
    [by apply elem_of_seq_0|done|].
  destruct (setSelectedLoop_missing false (seq 0 numPages) config k) as [l2 H2];
    [by apply elem_of_seq_0|done|].
  by exists l1, l2.
Qed.

Lemma selectAll_missing_entry_throws_witness :
  ∃ after_select after_deselect,
    selectAll 2 Samples.partial = TypeError after_select
    ∧ deselectAll 2 Samples.partial = TypeError after_deselect.
Proof.
  apply (selectAll_missing_entry_throws 2 1 Samples.partial); [lia|reflexivity].
Defined.

(** X4. A document that cannot be read aborts the merge: no output is produced,
    whatever precedes or follows it in the list. *)
Theorem merge_unreadable_no_output (compression : bool)
    (before after : list Merge.AppFile) (f : Merge.AppFile) :
  Merge.document (Merge.file f) = None →
  Merge.createMergedPdfBlob compression (before ++ f :: after) = None.
Proof.
  intros Hdoc. unfold Merge.createMergedPdfBlob.
  rewrite mergeLoop_unreadable; [done|].
  rewrite loadAll_app. cbn [Merge.loadAll]. rewrite Hdoc.
  by destruct (Merge.loadAll before).
Qed.

Lemma merge_unreadable_no_output_witness :
  Merge.createMergedPdfBlob true
    ([Samples.appFile Samples.imageFile None]
     ++ Samples.appFile Samples.damaged None
     :: [Samples.appFile Samples.reportFile None]) = None.
Proof.
  exact (merge_unreadable_no_output true [Samples.appFile Samples.imageFile None]
           [Samples.appFile Samples.reportFile None]
           (Samples.appFile Samples.damaged None) eq_refl).
Defined.

(** X5. Merging a one-page document and a two-page document that have no
    configuration gives the three pages in order, untouched. *)
Theorem merge_one_then_two (compression : bool) (a b : Merge.AppFile)
    (p q1 q2 : Merge.PDFPage) :
  Merge.document (Merge.file a) = Some [p] →
  Merge.document (Merge.file b) = Some [q1; q2] →
  Merge.pageConfig a = None → Merge.pageConfig b = None →
  Merge.createMergedPdfBlob compression [a; b]
  = Some {| Merge.pages := [p; q1; q2]; Merge.useObjectStreams := compression |}.
Proof.
  intros Ha Hb Hca Hcb. unfold Merge.createMergedPdfBlob. cbn [Merge.mergeLoop].
  rewrite Ha, Hb. cbn [imap Merge.forEach]. unfold Merge.forEachPage.
  by rewrite Hca, Hcb.
Qed.

Lemma merge_one_then_two_witness :
  Merge.createMergedPdfBlob false
    [Samples.appFile Samples.imageFile None;
     Samples.appFile (Samples.asPdf [ {| Merge.content := 40; Merge.angle := 0 |};
                                      {| Merge.content := 41; Merge.angle := 0 |} ]
                                    Samples.notes) None]
  = Some {| Merge.pages := [ {| Merge.content := 10; Merge.angle := 0 |};
                             {| Merge.content := 40; Merge.angle := 0 |};
                             {| Merge.content := 41; Merge.angle := 0 |} ];
            Merge.useObjectStreams := false |}.
Proof.
  exact (merge_one_then_two false
           (Samples.appFile Samples.imageFile None)
           (Samples.appFile (Samples.asPdf [ {| Merge.content := 40; Merge.angle := 0 |};
                                             {| Merge.content := 41; Merge.angle := 0 |} ]
                                           Samples.notes) None)
           {| Merge.content := 10; Merge.angle := 0 |}
           {| Merge.content := 40; Merge.angle := 0 |}
           {| Merge.content := 41; Merge.angle := 0 |}
           eq_refl eq_refl eq_refl eq_refl).
Defined.

(** X6. The aggregate of [Promise.all] is the same for any two orders in which
    the tasks settle. *)
Theorem promise_all_order_independent {A} (tasks : list (Promise.Settled A))
    (schedule1 schedule2 : list nat) :
  schedule1 ≡ₚ seq 0 (length tasks) →
  schedule2 ≡ₚ seq 0 (length tasks) →
  Promise.all tasks schedule1 = Promise.all tasks schedule2.
Proof. intros H1 H2. by rewrite !all_joined. Qed.

Lemma promise_all_order_independent_witness :
  Promise.all [Promise.Fulfilled 7; Promise.Fulfilled 8; Promise.Fulfilled 9]%nat
              [2; 0; 1]%nat
  = Promise.all [Promise.Fulfilled 7; Promise.Fulfilled 8; Promise.Fulfilled 9]%nat
                [1; 2; 0]%nat.
Proof.
  apply promise_all_order_independent.
  - exact (Permutation_cons_append [0; 1]%nat 2%nat).
  - etrans; [apply (Permutation_cons_append [2; 0]%nat 1%nat)|].
    exact (Permutation_cons_append [0; 1]%nat 2%nat).
Defined.

End FurtherFacts.

Section FurtherSignFacts.
Import Sign.
Local Open Scope Q_scope.

(** X7. The output name is the source name without its last extension, followed
    by "_firmado.pdf". *)
Theorem newName_stem (stem ext : list ascii) (f : File) :
  JS.units (name f) = stem ++ "."%char :: ext →
  ext ≠ [] →
  Forall (λ c, c ≠ "/"%char ∧ c ≠ "."%char) ext →
  newName f = String.string_of_list_ascii stem +:+ "_firmado.pdf".
Proof.
  intros Hname Hne Hext. unfold newName, JS.stripExtension. rewrite Hname.
  f_equal. f_equal. clear Hname.
  assert (Hok : forallb (λ d, negb (bool_decide (d = "/"%char)
                                    || bool_decide (d = "."%char))) ext = true).
  { apply forallb_forall. intros c Hc%list_elem_of_In.
    rewrite Forall_forall in Hext. destruct (Hext c Hc) as [H1 H2].
    by rewrite !bool_decide_eq_false_2. }
  induction stem as [|c stem IH]; cbn [app JS.stripExtensionUnits].
  - rewrite bool_decide_eq_true_2 by done.
    rewrite (bool_decide_eq_false_2 (ext = [])) by done. by rewrite Hok.
  - rewrite IH. destruct (bool_decide (c = "."%char)); [|done]. cbn [andb].
    destruct (bool_decide (stem ++ "."%char :: ext = [])); [done|]. cbn [negb andb].
    rewrite forallb_app. cbn [forallb].
    rewrite (bool_decide_eq_true_2 ("."%char = "."%char)) by done.
    by rewrite orb_true_r, andb_false_r.
Qed.

Lemma newName_stem_witness :
  newName (file Samples.letter) = "letter.v2_firmado.pdf".
Proof.
  apply (newName_stem (JS.units "letter.v2") (JS.units "pdf") (file Samples.letter)).
  - reflexivity.
  - discriminate.
  - repeat constructor; discriminate.
Defined.

(** Stamping the contract alone downloads the stamped document itself. *)
Lemma handleSign_single_witness :
  handleSign Samples.centred
  = Downloaded (PdfDownload (JS.stripExtension "contract.pdf" +:+ "_firmado.pdf")
      (stampDocument Samples.centred (scale Samples.signature (1 # 5))
         [Samples.blank 600 800; Samples.blank 300 400])).
Proof.
  exact (handleSign_single Samples.centred Samples.signature Samples.contract
           eq_refl eq_refl).
Defined.

(** Stamping three documents of different names downloads an archive of
    three entries. *)
Lemma handleSign_distinct_names_witness :
  ∃ entries,
    handleSign (Samples.cornered [Samples.contract; Samples.invoice; Samples.letter])
    = Downloaded (ZipDownload "documentos_firmados.zip" entries)
    ∧ size entries = 3%nat.
Proof.
  destruct (handleSign_distinct_names
              (Samples.cornered [Samples.contract; Samples.invoice; Samples.letter])
              Samples.signature
              (default [] (signAll
                 (Samples.cornered [Samples.contract; Samples.invoice; Samples.letter])
                 Samples.signature))
              eq_refl) as (entries & Hout & Hsize & _).
  - simpl. lia.
  - reflexivity.
  - simpl. repeat constructor; rewrite ?elem_of_cons, ?elem_of_nil; intros H;
      repeat destruct H as [H|H]; done.
  - exists entries. split; [exact Hout | exact Hsize].
Defined.

Lemma pagesToProcess_selectedBy rule n i :
  (i < n)%nat → (i ∈ pagesToProcess rule n ↔ selectedBy rule n i = true).
Proof.
  intros Hi. destruct rule; cbn [pagesToProcess selectedBy].
  - rewrite elem_of_seq_0. naive_solver.
  - destruct (Nat.ltb_spec 0 n); [|lia].
    rewrite list_elem_of_singleton, Nat.eqb_eq. done.
  - destruct (Nat.ltb_spec 0 n); [|lia].
    rewrite list_elem_of_singleton, Nat.eqb_eq. lia.
Qed.

(** X8. The page-selection rule: the pass keeps the number of pages and draws on
    every page ([ALL]), on page 0 only ([FIRST]) or on the final page only
    ([LAST]); a document without pages is left as it is. *)
Theorem stampDocument_rule (st : State) (signatureDims : Dims) (pages : list PDFPage) :
  length (stampDocument st signatureDims pages) = length pages
  ∧ ∀ i page, pages !! i = Some page →
      stampDocument st signatureDims pages !! i
      = Some (if selectedBy (pagesToSign st) (length pages) i
              then stampPage st signatureDims page else page).
Proof.
  split.
  - unfold stampDocument. generalize (pagesToProcess (pagesToSign st) (length pages)).
    intros indices. revert pages.
    induction indices as [|i rest IH]; intros pages; [done|].
    cbn [foldl]. by rewrite IH, length_alter.
  - intros i page Hi. rewrite stampDocument_lookup, Hi.
    pose proof (pagesToProcess_selectedBy (pagesToSign st) (length pages) i
                  (lookup_lt_Some _ _ _ Hi)) as Hrule.
    destruct (selectedBy _ _ i).
    + by rewrite bool_decide_eq_true_2 by (by apply Hrule).
    + rewrite bool_decide_eq_false_2; [done|]. intros Hin. by apply Hrule in Hin.
Qed.

(** X9. Fixed-corner placement (also used in interactive mode while no preview
    has been rendered): every stamped page of size [(Wt, Ht)] receives the
    image at the chosen corner with a margin of 20 points. *)
Theorem corner_placement (st : State) (img : ImageFile)
    (signedPdfs : list Signed) (k : nat) (pdfItem : SignFile)
    (pages : list PDFPage) (i : nat) (page : PDFPage) :
  useVisualPlacement st = false ∨ canvasDims st = None →
  signAll st img = Some signedPdfs →
  pdfs st !! k = Some pdfItem →
  document (file pdfItem) = Some pages →
  i ∈ pagesToProcess (pagesToSign st) (length pages) →
  pages !! i = Some page →
  let Wt := width (getSize page) in
  let Ht := height (getSize page) in
  let aw := width (pixels img) * signatureScale st in
  let ah := height (pixels img) * signatureScale st in
  ∃ sp,
    signedPdfs !! k = Some sp
    ∧ blob sp !! i
      = Some (drawImage
                {| origin :=
                     match position st with
                     | TL => {| x := 20; y := Ht - ah - 20 |}
                     | TR => {| x := Wt - aw - 20; y := Ht - ah - 20 |}
                     | BL => {| x := 20; y := 20 |}
                     | BR => {| x := Wt - aw - 20; y := 20 |}
                     end;
                   extent := {| width := aw; height := ah |} |}
                page).
Proof.
  intros Hmode Hall Hk Hdoc Hi Hpage Wt Ht aw ah.
  destruct (signAll_lookup _ _ _ _ _ Hall Hk) as (pages' & Hdoc' & Hsp).
  rewrite Hdoc in Hdoc'. injection Hdoc' as <-.
  eexists. split; [exact Hsp|]. cbn [blob].
  rewrite save_stampDocument by (intros ->; by rewrite lookup_nil in Hpage).
  rewrite stampDocument_lookup, bool_decide_eq_true_2 by done.
  rewrite Hpage. cbn [fmap option_fmap option_map]. f_equal.
  unfold stampPage, drawOptions. f_equal. f_equal.
  destruct Hmode as [-> | ->]; [|destruct (useVisualPlacement st)];
    by destruct (position st).
Qed.

Lemma corner_placement_witness :
  ∃ sp,
    [ {| signedName := "contract_firmado.pdf";
         blob := stampDocument (Samples.cornered [Samples.contract])
                   (scale Samples.signature (1 # 5))
                   [Samples.blank 600 800; Samples.blank 300 400] |} ] !! 0%nat
    = Some sp
    ∧ blob sp !! 1%nat
      = Some (drawImage
                {| origin := {| x := 300 - 100 * (1 # 5) - 20;
                                y := 400 - 50 * (1 # 5) - 20 |};
                   extent := {| width := 100 * (1 # 5); height := 50 * (1 # 5) |} |}
                (Samples.blank 300 400)).
Proof.
  refine (corner_placement (Samples.cornered [Samples.contract]) Samples.signature
            _ 0%nat Samples.contract
            [Samples.blank 600 800; Samples.blank 300 400] 1%nat (Samples.blank 300 400)
            (or_introl eq_refl) eq_refl eq_refl eq_refl _ eq_refl).
  simpl. left.
Defined.

(** The pointer at the centre of the preview, over the small signature. *)
Lemma handleMouseMove_centre_witness :
  let st' := handleMouseMove (Some Samples.preview) (0 + 300 / 2) (0 + 400 / 2)
               Samples.centred in
  x (dragPos st') == 300 / 2 - visualWidth Samples.centred / 2
  ∧ y (dragPos st')
    == 400 / 2 - visualHeight Samples.centred (pixels Samples.signature) / 2.
Proof.
  refine (handleMouseMove_centre Samples.centred Samples.preview
            (pixels Samples.signature) eq_refl eq_refl _ _);
    split; vm_compute; discriminate.
Defined.

End FurtherSignFacts.

(** ** MergeMode: the list of documents *)

Section ListFacts.
Import PageEditor.

Lemma spliceIn_spliceOut_Permutation {A} (l : list A) d o temp :
  l !! d = Some temp → MergeUI.spliceIn o temp (MergeUI.spliceOut d l) ≡ₚ l.
Proof.
  intros Hd. unfold MergeUI.spliceIn, MergeUI.spliceOut.
  rewrite <-Permutation_middle, take_drop. symmetry. by apply delete_Permutation.
Qed.

Lemma handleSort_Permutation st st' :
  MergeUI.handleSort st = Some st' → MergeUI.files st' ≡ₚ MergeUI.files st.
Proof.
  unfold MergeUI.handleSort. intros Hs.
  destruct (MergeUI.draggedItem st) as [d|]; [|by simplify_eq].
  destruct (MergeUI.dragOverItem st) as [o|]; [|by simplify_eq].
  destruct (MergeUI.files st !! d) as [temp|] eqn:Hd; [|done].
  simplify_eq. simpl. by apply spliceIn_spliceOut_Permutation.
Qed.

(** X12. Ending a drag with both rows inside the list moves the dragged
    document to the row it was dropped on, keeps every other document in its
    relative order, neither adds nor loses a document, and leaves the file
    name field and its source as they were. *)
Theorem handleSort_moves (st : MergeUI.View) (dragged over : nat) (temp : Merge.AppFile) :
  MergeUI.draggedItem st = Some dragged →
  MergeUI.dragOverItem st = Some over →
  MergeUI.files st !! dragged = Some temp →
  (over < length (MergeUI.files st))%nat →
  ∃ st',
    MergeUI.handleSort st = Some st'
    ∧ MergeUI.files st' !! over = Some temp
    ∧ delete over (MergeUI.files st') = delete dragged (MergeUI.files st)
    ∧ MergeUI.files st' ≡ₚ MergeUI.files st
    ∧ MergeUI.draggedItem st' = None ∧ MergeUI.dragOverItem st' = None
    ∧ MergeUI.mergedFileName st' = MergeUI.mergedFileName st
    ∧ MergeUI.fileNameSourceId st' = MergeUI.fileNameSourceId st.
Proof.
  intros Hd Ho Htemp Hover. eexists. split.
  { unfold MergeUI.handleSort. by rewrite Hd, Ho, Htemp. }
  cbn [MergeUI.setFiles MergeUI.setRefs MergeUI.files MergeUI.draggedItem
       MergeUI.dragOverItem MergeUI.mergedFileName MergeUI.fileNameSourceId].
  assert (Hlen : length (take over (MergeUI.spliceOut dragged (MergeUI.files st))) = over).
  { rewrite length_take. unfold MergeUI.spliceOut.
    pose proof (length_delete _ _ (mk_is_Some _ _ Htemp)). lia. }
  split_and!; try done.
  - unfold MergeUI.spliceIn. rewrite lookup_app_r by lia.
    by rewrite Hlen, Nat.sub_diag.
  - unfold MergeUI.spliceIn. rewrite <-Hlen at 1.
    by rewrite delete_middle, take_drop.
  - by apply spliceIn_spliceOut_Permutation.
Qed.

Lemma handleSort_moves_witness :
  ∃ st',
    MergeUI.handleSort Scenarios.desk = Some st'
    ∧ MergeUI.files st' !! 0%nat = Some Scenarios.reportApp
    ∧ delete 0%nat (MergeUI.files st') = delete 1%nat (MergeUI.files Scenarios.desk)
    ∧ MergeUI.files st' ≡ₚ MergeUI.files Scenarios.desk
    ∧ MergeUI.draggedItem st' = None ∧ MergeUI.dragOverItem st' = None
    ∧ MergeUI.mergedFileName st' = MergeUI.mergedFileName Scenarios.desk
    ∧ MergeUI.fileNameSourceId st' = MergeUI.fileNameSourceId Scenarios.desk.
Proof.
  apply (handleSort_moves Scenarios.desk 1 0 Scenarios.reportApp);
    [reflexivity | reflexivity | reflexivity | simpl; lia].
Defined.

Lemma loadAll_Permutation l1 l2 a :
  l1 ≡ₚ l2 → Merge.loadAll l1 = Some a →
  ∃ b, Merge.loadAll l2 = Some b ∧ a ≡ₚ b.
Proof.
  intros Hp. revert a. induction Hp as [|f l l' _ IH|f g l|l l' l'' _ IH1 _ IH2]; intros a Ha.
  - eauto.
  - simpl in *. destruct (Merge.document (Merge.file f)) as [d|]; [|done].
    destruct (Merge.loadAll l) as [a'|]; [|done]. simplify_eq.
    destruct (IH a' eq_refl) as (b & -> & Hb). eexists. split; [done|]. by constructor.
  - simpl in *. destruct (Merge.document (Merge.file f)) as [d|];
      destruct (Merge.document (Merge.file g)) as [e|];
      destruct (Merge.loadAll l) as [a'|]; simplify_eq.
    eexists. split; [done|]. apply perm_swap.
  - destruct (IH1 a Ha) as (b & Hb & Hab). destruct (IH2 b Hb) as (c & Hc & Hbc).
    exists c. split; [done|]. by etrans.
Qed.

Lemma concat_fmap_Permutation {A B} (f : A → list B) (l l' : list A) :
  l ≡ₚ l' → concat (f <$> l) ≡ₚ concat (f <$> l').
Proof. intros Hp. by rewrite Hp. Qed.

Lemma save_Permutation (l l' : list Merge.PDFPage) :
  l ≡ₚ l' → Merge.save l ≡ₚ Merge.save l'.
Proof.
  intros Hp. destruct l as [|a l].
  - apply Permutation_nil_l in Hp. by subst l'.
  - destruct l' as [|b l']; [by apply Permutation_nil_r in Hp|done].
Qed.

(** X13. Reordering the list by a drag changes only the order of the merged
    output: when the merge succeeded before the drag it succeeds after it,
    with the same pages in another order. *)
Theorem merge_after_reorder (compression : bool) (st st' : MergeUI.View) (out : Merge.Blob) :
  MergeUI.handleSort st = Some st' →
  Merge.createMergedPdfBlob compression (MergeUI.files st) = Some out →
  ∃ out',
    Merge.createMergedPdfBlob compression (MergeUI.files st') = Some out'
    ∧ Merge.pages out' ≡ₚ Merge.pages out
    ∧ Merge.useObjectStreams out' = Merge.useObjectStreams out.
Proof.
  intros Hsort Hout. apply handleSort_Permutation in Hsort.
  unfold Merge.createMergedPdfBlob in Hout.
  destruct (Merge.mergeLoop (MergeUI.files st) []) as [merged|] eqn:Hm; [|done].
  destruct (mergeLoop_Some _ _ _ Hm) as (a & Ha & Hra).
  rewrite (mergeLoop_loaded _ _ [] Ha Hra) in Hm. simplify_eq/=.
  symmetry in Hsort. destruct (loadAll_Permutation _ _ _ Hsort Ha) as (b & Hb & Hab).
  assert (Hrb : forallb Merge.rotatable b = true).
  { apply forallb_forall. intros e He. rewrite forallb_forall in Hra. apply Hra.
    apply list_elem_of_In. rewrite Hab. by apply list_elem_of_In. }
  rewrite (createMergedPdfBlob_loaded _ _ _ Hb Hrb). eexists. split; [done|].
  split; [|done]. cbn [Merge.pages]. apply save_Permutation. symmetry.
  by apply concat_fmap_Permutation.
Qed.

Lemma merge_after_reorder_witness :
  ∃ out',
    Merge.createMergedPdfBlob true
      [Scenarios.reportApp; Scenarios.scanApp; Scenarios.letterApp] = Some out'
    ∧ Merge.pages out'
      ≡ₚ Merge.pages (default {| Merge.pages := []; Merge.useObjectStreams := true |}
           (Merge.createMergedPdfBlob true (MergeUI.files Scenarios.desk)))
    ∧ Merge.useObjectStreams out' = true.
Proof.
  exact (merge_after_reorder true Scenarios.desk
           (MergeUI.setFiles [Scenarios.reportApp; Scenarios.scanApp; Scenarios.letterApp]
              (MergeUI.setRefs None None Scenarios.desk)) _ eq_refl eq_refl).
Defined.

Lemma filter_delete_unique {A} (P : A → bool) (l : list A) k a :
  l !! k = Some a → P a = false →
  (∀ j b, l !! j = Some b → P b = false → j = k) →
  List.filter P l = delete k l.
Proof.
  revert k. induction l as [|b l IH]; intros k Hk Ha Huniq; [done|].
  destruct k as [|k]; simplify_eq/=.
  - rewrite Ha. apply filter_all. intros b Hb.
    apply list_elem_of_lookup in Hb as [j Hj].
    destruct (P b) eqn:Hb; [done|]. by specialize (Huniq (S j) b Hj Hb).
  - destruct (P b) eqn:Hb; [|by specialize (Huniq 0%nat b eq_refl Hb)].
    f_equal. apply IH; [done|done|]. intros j c Hj Hc.
    by specialize (Huniq (S j) c Hj Hc) as [= ->].
Qed.

(** X14. When the documents of the list have pairwise distinct ids, removing
    one of them deletes exactly its row and keeps the other rows in order; the
    file name field is reset to merged-document.pdf, and its source cleared,
    exactly when the removed document was the source of the name. *)
Theorem removeFile_unique (st : MergeUI.View) (k : nat) (f : Merge.AppFile) :
  NoDup (Merge.id <$> MergeUI.files st) →
  MergeUI.files st !! k = Some f →
  let st' := MergeUI.removeFile (Merge.id f) st in
  MergeUI.files st' = delete k (MergeUI.files st)
  ∧ (MergeUI.fileNameSourceId st = Some (Merge.id f) →
     MergeUI.fileNameSourceId st' = None
     ∧ MergeUI.mergedFileName st' = "merged-document.pdf")
  ∧ (MergeUI.fileNameSourceId st ≠ Some (Merge.id f) →
     MergeUI.fileNameSourceId st' = MergeUI.fileNameSourceId st
     ∧ MergeUI.mergedFileName st' = MergeUI.mergedFileName st).
Proof.
  intros Hnd Hk st'. subst st'. unfold MergeUI.removeFile. split_and!.
  - cbn [MergeUI.setFiles MergeUI.files].
    apply (filter_delete_unique _ _ k f Hk).
    + by rewrite String.eqb_refl.
    + intros j b Hj Hb. apply negb_false_iff, String.eqb_eq in Hb.
      apply (NoDup_lookup _ j k (Merge.id f) Hnd); rewrite list_lookup_fmap.
      * by rewrite Hj, <-Hb.
      * by rewrite Hk.
  - intros Hsrc. rewrite bool_decide_true by done. done.
  - intros Hsrc. rewrite bool_decide_false by congruence. done.
Qed.

Lemma removeFile_unique_witness :
  let st' := MergeUI.removeFile (Merge.id Scenarios.reportApp) Scenarios.named in
  MergeUI.files st' = delete 1%nat (MergeUI.files Scenarios.named)
  ∧ (MergeUI.fileNameSourceId Scenarios.named = Some (Merge.id Scenarios.reportApp) →
     MergeUI.fileNameSourceId st' = None
     ∧ MergeUI.mergedFileName st' = "merged-document.pdf")
  ∧ (MergeUI.fileNameSourceId Scenarios.named ≠ Some (Merge.id Scenarios.reportApp) →
     MergeUI.fileNameSourceId st' = MergeUI.fileNameSourceId Scenarios.named
     ∧ MergeUI.mergedFileName st' = MergeUI.mergedFileName Scenarios.named).
Proof.
  apply (removeFile_unique Scenarios.named 1 Scenarios.reportApp); [|reflexivity].
  apply (bool_decide_unpack _). vm_compute. reflexivity.
Defined.

End ListFacts.

(** ** MergeMode: runs of the component *)

Section RunFacts.
Import PageEditor.

Lemma onSettle_sound {A} (tasks : list (Promise.Settled A)) st i :
  (∀ k v, Promise.values st !! k = Some (Some v) →
          tasks !! k = Some (Promise.Fulfilled v)) →
  (∀ vs k v, Promise.settled st = Some (Promise.Fulfilled vs) → vs !! k = Some v →
             tasks !! k = Some (Promise.Fulfilled v)) →
  (∀ k v, Promise.values (Promise.onSettle tasks st i) !! k = Some (Some v) →
          tasks !! k = Some (Promise.Fulfilled v))
  ∧ (∀ vs k v, Promise.settled (Promise.onSettle tasks st i) = Some (Promise.Fulfilled vs) →
               vs !! k = Some v → tasks !! k = Some (Promise.Fulfilled v)).
Proof.
  intros Hvals Hset. unfold Promise.onSettle.
  destruct (tasks !! i) as [[w|]|] eqn:Hi; cbn [Promise.values Promise.settled].
  - assert (Hvals' : ∀ k v, <[i:=Some w]> (Promise.values st) !! k = Some (Some v) →
                            tasks !! k = Some (Promise.Fulfilled v)).
    { intros k v [(-> & [= ->] & _)|[_ Hk]]%list_lookup_insert_Some; eauto. }
    split; [done|]. intros vs k v Hs Hk.
    destruct (Promise.settled st) as [r|] eqn:Hr; [simplify_eq; eauto|].
    destruct (_ =? _)%nat; [|done].
    destruct (mapM id _) as [vs'|] eqn:Hm; simplify_eq/=.
    apply mapM_Some_1 in Hm.
    destruct (Forall2_lookup_r _ _ _ _ _ Hm Hk) as (x & Hx & Hid).
    simpl in Hid. subst x. eauto.
  - split; [done|]. intros vs k v Hs Hk.
    destruct (Promise.settled st) as [r|] eqn:Hr; simplify_eq; eauto.
  - done.
Qed.

Lemma all_sound {A} (tasks : list (Promise.Settled A)) schedule vs k v :
  Promise.all tasks schedule = Some (Promise.Fulfilled vs) →
  vs !! k = Some v → tasks !! k = Some (Promise.Fulfilled v).
Proof.
  unfold Promise.all.
  assert (Hgen : ∀ st,
    (∀ k v, Promise.values st !! k = Some (Some v) →
            tasks !! k = Some (Promise.Fulfilled v)) →
    (∀ vs k v, Promise.settled st = Some (Promise.Fulfilled vs) → vs !! k = Some v →
               tasks !! k = Some (Promise.Fulfilled v)) →
    ∀ vs k v, Promise.settled (foldl (Promise.onSettle tasks) st schedule)
              = Some (Promise.Fulfilled vs) →
              vs !! k = Some v → tasks !! k = Some (Promise.Fulfilled v)).
  { induction schedule as [|i schedule IH]; intros st Hvals Hset; [done|].
    simpl. destruct (onSettle_sound tasks st i Hvals Hset) as [Hv Hs].
    by apply IH. }
  intros Hall Hk. eapply (Hgen (Promise.start (length tasks))); [| |done|done].
  - intros j w Hj. cbn [Promise.start Promise.values] in Hj.
    apply lookup_replicate in Hj as [[=] _].
  - intros ws j w Hs Hj. cbn [Promise.start Promise.settled] in Hs.
    destruct (_ =? _)%nat; by simplify_eq.
Qed.

Lemma makeId_not_empty f random : Merge.makeId f random ≠ "".
Proof. unfold Merge.makeId. by destruct (Merge.name f). Qed.

Lemma processFile_fulfilled conv compression random f a :
  Merge.processFile conv compression random f = Promise.Fulfilled a →
  Merge.id a = Merge.makeId f random ∧ Merge.pageConfig a = None.
Proof.
  unfold Merge.processFile, Merge.settle. intros H.
  repeat match type of H with
         | context [if ?b then _ else _] => destruct b
         | context [Merge.convertImageToPdf ?c ?x] => destruct (Merge.convertImageToPdf c x)
         | context [Merge.convertOfficeToPdf ?c ?x ?t] =>
             destruct (Merge.convertOfficeToPdf c x t)
         end; simplify_eq/=; done.
Qed.

(** What [processAndAddFiles] does to the list, the name and its source. *)
Lemma processAndAddFiles_appends conv random schedule filesToAdd st :
  let st' := MergeUI.processAndAddFiles conv random schedule filesToAdd st in
  (∃ newFiles,
     MergeUI.files st' = MergeUI.files st ++ newFiles
     ∧ ∀ a, a ∈ newFiles → Merge.id a ≠ "" ∧ Merge.pageConfig a = None)
  ∧ MergeUI.mergedFileName st' = MergeUI.mergedFileName st
  ∧ MergeUI.fileNameSourceId st' = MergeUI.fileNameSourceId st.
Proof.
  unfold MergeUI.processAndAddFiles, Merge.processAndAddFiles.
  cbn [Merge.isCompressionEnabled Merge.files].
  destruct (_ =? _)%nat;
    [split; [exists []; split; [by rewrite app_nil_r|by intros a Ha%not_elem_of_nil]|done]|].
  destruct (Promise.all _ _) as [[newFiles|]|] eqn:Hall;
    cbn [Merge.files MergeUI.files MergeUI.setFiles MergeUI.setError MergeUI.setIsProcessing
         MergeUI.mergedFileName MergeUI.fileNameSourceId];
    (split; [|done]).
  - exists newFiles. split; [done|]. intros a [k Hk]%list_elem_of_lookup.
    pose proof (all_sound _ _ _ _ _ Hall Hk) as Ht.
    rewrite processedFiles_lookup in Ht.
    destruct (Merge.validFiles filesToAdd !! k) as [f|]; simplify_eq/=.
    destruct (processFile_fulfilled _ _ _ _ _ Ht) as [-> ->].
    split; [apply makeId_not_empty|done].
  - exists []. split; [by rewrite app_nil_r|by intros a Ha%not_elem_of_nil].
  - exists []. split; [by rewrite app_nil_r|by intros a Ha%not_elem_of_nil].
Qed.

(** What [runMergeProcess] does to the list, the name and its source. *)
Lemma runMergeProcess_state saveMethod canShowSavePicker picker st :
  let r := MergeUI.runMergeProcess saveMethod canShowSavePicker picker st in
  match r.2 with
  | Some _ =>
      MergeUI.files r.1 = [] ∧ MergeUI.fileNameSourceId r.1 = None
      ∧ MergeUI.mergedFileName r.1 = "merged-document.pdf"
  | None =>
      MergeUI.files r.1 = MergeUI.files st
      ∧ MergeUI.fileNameSourceId r.1 = MergeUI.fileNameSourceId st
      ∧ MergeUI.mergedFileName r.1 = MergeUI.mergedFileName st
  end.
Proof.
  unfold MergeUI.runMergeProcess.
  destruct (_ =? _)%nat; [done|].
  destruct (Merge.createMergedPdfBlob _ _); [|done].
  destruct saveMethod, canShowSavePicker, picker; done.
Qed.

Lemma act_preserves a st st' :
  MergeUI.offered a st → MergeUI.act a st = Some st' →
  MergeUI.nameFollowsSource st ∧ (∀ f, f ∈ MergeUI.files st → Merge.id f ≠ "") →
  MergeUI.nameFollowsSource st' ∧ (∀ f, f ∈ MergeUI.files st' → Merge.id f ≠ "").
Proof.
  intros Hoff Hact [Hname Hids]. unfold MergeUI.nameFollowsSource in *.
  destruct a; cbn [MergeUI.act MergeUI.offered] in *; try (injection Hact as <-).
  - destruct (processAndAddFiles_appends conv random schedule filesToAdd st)
      as ((newFiles & -> & Hnew) & -> & ->).
    split.
    + destruct (MergeUI.fileNameSourceId st); [|done].
      destruct Hname as (f & Hf & Hid & Hn). exists f. rewrite elem_of_app. eauto.
    + intros f [Hf|Hf]%elem_of_app; [eauto|]. by apply Hnew.
  - unfold MergeUI.removeFile. split.
    + case_bool_decide as Hsrc; cbn; [done|].
      destruct (MergeUI.fileNameSourceId st) as [i|]; [|done].
      destruct Hname as (f & Hf & Hid & Hn). exists f. split_and!; [|done|done].
      apply list_elem_of_In, filter_In. split; [by apply list_elem_of_In|].
      apply negb_true_iff, String.eqb_neq. congruence.
    + intros f Hf. cbn in Hf. apply list_elem_of_In, filter_In in Hf as [Hf _].
      by apply Hids, list_elem_of_In.
  - done.
  - done.
  - pose proof (handleSort_Permutation _ _ Hact) as Hperm.
    assert (MergeUI.fileNameSourceId st' = MergeUI.fileNameSourceId st
            ∧ MergeUI.mergedFileName st' = MergeUI.mergedFileName st) as [-> ->].
    { unfold MergeUI.handleSort in Hact.
      destruct (MergeUI.draggedItem st), (MergeUI.dragOverItem st); simplify_eq; try done.
      destruct (MergeUI.files st !! _); by simplify_eq. }
    split.
    + destruct (MergeUI.fileNameSourceId st); [|done].
      destruct Hname as (f & Hf & Hid & Hn). exists f. by rewrite Hperm.
    + intros f Hf. rewrite Hperm in Hf. eauto.
  - unfold MergeUI.handleFileNameSourceChange.
    case_bool_decide; cbn; [done|]. split; [|done]. by exists selectedFile.
  - unfold MergeUI.handleCustomFileNameChange. split; [|by destruct (MergeUI.fileNameSourceId st) as [i|]; [destruct (JS.isEmpty i)|]].
    destruct (MergeUI.fileNameSourceId st) as [i|] eqn:Hsrc; cbn; [|by rewrite Hsrc].
    destruct Hname as (f & Hf & Hid & Hn).
    assert (JS.isEmpty i = false) as ->.
    { unfold JS.isEmpty. apply bool_decide_eq_false. subst i. eauto. }
    done.
  - unfold MergeUI.handlePreview. by destruct (MergeUI.isPdf _).
  - done.
  - unfold MergeUI.handleEditPages. by destruct (MergeUI.isPdf _).
  - done.
  - unfold MergeUI.handleSavePageConfig.
    destruct (MergeUI.editingPagesFile st) as [e|]; cbn; [|done]. split.
    + destruct (MergeUI.fileNameSourceId st); [|done].
      destruct Hname as (f & Hf & Hid & Hn).
      eexists. split; [by apply list_elem_of_fmap_2|].
      unfold MergeUI.sourceName, MergeUI.isPdf in *. by destruct (String.eqb _ _).
    + intros f (g & -> & Hg)%list_elem_of_fmap.
      specialize (Hids g Hg). by destruct (String.eqb _ _).
  - done.
  - pose proof (runMergeProcess_state saveMethod canShowSavePicker picker st) as Hr.
    cbn zeta in Hr. destruct (MergeUI.runMergeProcess _ _ _ _).2.
    + destruct Hr as (Hf & Hs & _). rewrite Hf, Hs.
      split; [done|]. by intros f Hin%not_elem_of_nil.
    + destruct Hr as (Hf & Hs & Hn). by rewrite Hf, Hs, Hn.
Qed.

Lemma run_preserves actions st st' :
  MergeUI.feasible actions st → MergeUI.run actions st = Some st' →
  MergeUI.nameFollowsSource st ∧ (∀ f, f ∈ MergeUI.files st → Merge.id f ≠ "") →
  MergeUI.nameFollowsSource st' ∧ (∀ f, f ∈ MergeUI.files st' → Merge.id f ≠ "").
Proof.
  revert st. induction actions as [|a actions IH]; intros st Hfeas Hrun Hinv.
  - by simplify_eq/=.
  - simpl in *. destruct Hfeas as [Hoff Hrest].
    destruct (MergeUI.act a st) as [st1|] eqn:Hact; [|done].
    apply (IH st1); [done|done|]. by apply (act_preserves a st).
Qed.

(** X15. In every state the component reaches from its initial state by
    adding files, removing rows, dragging, checking and unchecking the "use this
    name" box, typing a name, previewing, editing pages and merging: while a
    box is checked, its document is in the list and the file name field holds
    the name taken from it (the document's name, with the extension replaced
    by .pdf for a converted office file). *)
Theorem name_follows_source (actions : list MergeUI.Action) (st : MergeUI.View) :
  MergeUI.feasible actions MergeUI.initial →
  MergeUI.run actions MergeUI.initial = Some st →
  MergeUI.nameFollowsSource st.
Proof.
  intros Hfeas Hrun. apply (run_preserves actions MergeUI.initial st Hfeas Hrun).
  split; [done|]. by intros f Hf%not_elem_of_nil.
Qed.

(** X16. A merge hands over a document exactly when the list is not empty,
    every document loads and can be written, and the save dialog, if one is
    used, is neither cancelled nor fails; the document is the merged one and
    the name suggested for it ends in .pdf.  Only then are the list, the name
    field and its source reset.  Otherwise the list, the name and its source
    stay as they were, and an error message is set unless the user cancelled
    the save dialog. *)
Theorem runMergeProcess_outcome (saveMethod : MergeUI.SaveMethod)
    (canShowSavePicker : bool) (picker : MergeUI.PickerResult) (st : MergeUI.View) :
  let r := MergeUI.runMergeProcess saveMethod canShowSavePicker picker st in
  let merged :=
    Merge.createMergedPdfBlob (MergeUI.isCompressionEnabled st) (MergeUI.files st) in
  (is_Some r.2
   ↔ MergeUI.files st ≠ [] ∧ is_Some merged
     ∧ (saveMethod = MergeUI.saveAs → canShowSavePicker = true →
        picker = MergeUI.Written))
  ∧ match r.2 with
    | Some d =>
        merged = Some (MergeUI.payload d)
        ∧ MergeUI.viaPicker d
          = match saveMethod with
            | MergeUI.saveAs => canShowSavePicker
            | MergeUI.download => false
            end
        ∧ MergeUI.suggestedName d = Merge.finalName (MergeUI.mergedFileName st)
        ∧ JS.endsWith (JS.toLowerCase (MergeUI.suggestedName d)) ".pdf" = true
        ∧ MergeUI.files r.1 = [] ∧ MergeUI.fileNameSourceId r.1 = None
        ∧ MergeUI.mergedFileName r.1 = "merged-document.pdf"
        ∧ MergeUI.error r.1 = None
    | None =>
        MergeUI.files r.1 = MergeUI.files st
        ∧ MergeUI.fileNameSourceId r.1 = MergeUI.fileNameSourceId st
        ∧ MergeUI.mergedFileName r.1 = MergeUI.mergedFileName st
        ∧ (MergeUI.error r.1 = None ↔
           MergeUI.files st ≠ [] ∧ is_Some merged ∧ saveMethod = MergeUI.saveAs
           ∧ canShowSavePicker = true ∧ picker = MergeUI.Aborted)
    end.
Proof.
  pose proof (finalName_shape (MergeUI.mergedFileName st)) as (_ & _ & Hext).
  intros r merged. subst r. unfold MergeUI.runMergeProcess. fold merged.
  clearbody merged.
  destruct (MergeUI.files st) as [|f rest] eqn:Hfiles; cbn [length Nat.eqb];
    [|destruct merged as [blob|];
      [destruct saveMethod, canShowSavePicker, picker|]];
    cbn; rewrite ?Hfiles.
  all: split; [split|].
  all: try (by intros [? [=]]).
  all: try (intros _; split_and!; eauto; done).
  all: try (intros (Hne & [? Hm] & Hw); first [done | by eexists
            | by specialize (Hw eq_refl eq_refl)]).
  all: split_and!; eauto; try done.
  all: split; [intros Herr|intros (Hne & [? Hm] & Hs & Hc & Hp)];
    first [done | by split_and!; eauto].
Qed.

Lemma name_follows_source_witness :
  MergeUI.nameFollowsSource
    (default MergeUI.initial (MergeUI.run Scenarios.afternoon MergeUI.initial)).
Proof.
  apply (name_follows_source Scenarios.afternoon).
  - vm_compute. repeat split; repeat constructor.
  - vm_compute. reflexivity.
Defined.

End RunFacts.

(** ** From the page editor to the merge *)

Section EditorMergeFacts.
Import PageEditor.

(** X17. A second click on a thumbnail restores the configuration the first
    click changed. *)
Theorem toggleSelection_twice (index : nat) (prev : gmap nat PageConfig) (c : PageConfig) :
  prev !! index = Some c →
  toggleSelection index prev ≫= toggleSelection index = Some prev.
Proof.
  intros Hc. unfold toggleSelection at 2. rewrite Hc. cbn [mbind option_bind].
  unfold toggleSelection. rewrite lookup_insert_eq, insert_insert_eq. f_equal.
  apply insert_id. rewrite Hc. f_equal. destruct c as [sel r]. unfold withSelected. simpl.
  by rewrite negb_involutive.
Qed.

Lemma toggleSelection_twice_witness :
  toggleSelection 1 Samples.turned ≫= toggleSelection 1 = Some Samples.turned.
Proof.
  exact (toggleSelection_twice 1 Samples.turned {| selected := true; rotation := 180 |}
           eq_refl).
Defined.

(** X18. Selecting and rotating are independent: a click on one thumbnail and
    a press of the rotate button of any thumbnail, the same or another, give
    the same configuration in either order (and the same error when an entry
    is missing). *)
Theorem toggle_rotate_commute (i j : nat) (prev : gmap nat PageConfig) :
  toggleSelection i prev ≫= rotatePage j = rotatePage j prev ≫= toggleSelection i.
Proof.
  unfold toggleSelection at 1, rotatePage at 2.
  destruct (prev !! i) as [ci|] eqn:Hi, (prev !! j) as [cj|] eqn:Hj;
    cbn [mbind option_bind]; unfold rotatePage, toggleSelection.
  - destruct (decide (i = j)) as [->|Hne].
    + rewrite !lookup_insert_eq, !insert_insert_eq. by simplify_eq.
    + rewrite !lookup_insert_ne by done. rewrite Hi, Hj.
      by rewrite insert_insert_ne by done.
  - rewrite lookup_insert_ne by congruence. by rewrite Hj.
  - rewrite lookup_insert_ne by congruence. by rewrite Hi.
  - done.
Qed.

Lemma filter_none {A} (P : A → bool) (l : list A) :
  (∀ a, a ∈ l → P a = false) → List.filter P l = [].
Proof.
  induction l as [|a l IH]; intros Hall; [done|]. simpl.
  rewrite Hall by left. apply IH. intros b Hb. apply Hall. by right.
Qed.

Lemma forEach_contribution (f : Merge.AppFile) (d mergedPdf : list Merge.PDFPage) :
  Merge.forEach f (imap pair d) mergedPdf
  = if Merge.rotatable (Merge.pageConfig f, d)
    then Some (mergedPdf ++ Merge.contribution (Merge.pageConfig f, d))
    else None.
Proof.
  rewrite forEach_emitted. unfold Merge.rotatable. cbn [fst snd].
  by rewrite contribution_emitted.
Qed.

(** X19. On a document whose pages all have an entry, the two buttons above
    the grid act on the merge as their names say: after "deselect all" the
    document contributes no page, and the loop of the merge over its pages
    adds nothing; after "select all" it contributes every page, in order, each
    turned by the rotation the editor shows for it, and the loop of the merge
    adds exactly these pages, or throws when one of the sums is not a multiple
    of 90. *)
Theorem select_buttons_and_merge (config : gmap nat PageConfig) (d : list Merge.PDFPage) :
  (∀ i, (i < length d)%nat → is_Some (config !! i)) →
  ∃ off on,
    deselectAll (length d) config = Normal off
    ∧ selectAll (length d) config = Normal on
    ∧ Merge.contribution (Some off, d) = []
    ∧ length (Merge.contribution (Some on, d)) = length d
    ∧ (∀ k page, d !! k = Some page →
         Merge.contribution (Some on, d) !! k
         = Some {| Merge.content := Merge.content page;
                   Merge.angle := Merge.angle page + rotation (shown config k) |})
    ∧ (∀ f mergedPdf, Merge.pageConfig f = Some off →
         Merge.forEach f (imap pair d) mergedPdf = Some mergedPdf)
    ∧ (∀ f mergedPdf, Merge.pageConfig f = Some on →
         Merge.forEach f (imap pair d) mergedPdf
         = if Merge.rotatable (Some on, d)
           then Some (mergedPdf ++ Merge.contribution (Some on, d))
           else None).
Proof.
  intros Htotal.
  assert (Hin : ∀ i, i ∈ seq 0 (length d) → is_Some (config !! i)).
  { intros i Hi%elem_of_seq_0. by apply Htotal. }
  destruct (setSelectedLoop_lookup false _ config Hin) as (off & Hoff & Hoffl).
  destruct (setSelectedLoop_lookup true _ config Hin) as (on & Hon & Honl).
  assert (Hdesel : ∀ e, e ∈ imap pair d →
                        selected (Merge.resolve (Some off) e.1) = false).
  { intros e He%elem_of_imap_pair. apply lookup_lt_Some in He as Hlt.
    unfold Merge.resolve. cbn [mbind option_bind]. rewrite Hoffl.
    rewrite bool_decide_eq_true_2 by by apply elem_of_seq_0.
    by destruct (Htotal _ Hlt) as [c ->]. }
  assert (Hsel : ∀ e, e ∈ imap pair d → selected (Merge.resolve (Some on) e.1) = true).
  { intros e He%elem_of_imap_pair. apply lookup_lt_Some in He as Hlt.
    unfold Merge.resolve. cbn [mbind option_bind]. rewrite Honl.
    rewrite bool_decide_eq_true_2 by by apply elem_of_seq_0.
    by destruct (Htotal _ Hlt) as [c ->]. }
  assert (Hnone : Merge.contribution (Some off, d) = []).
  { unfold Merge.contribution, Merge.selectedPages. cbn [fst snd].
    by rewrite filter_none. }
  exists off, on. split_and!; [done|done|done|..].
  - unfold Merge.contribution, Merge.selectedPages. cbn [fst snd].
    rewrite filter_all by done. by rewrite length_fmap, length_imap.
  - intros k page Hk.
    unfold Merge.contribution, Merge.selectedPages. cbn [fst snd].
    rewrite filter_all by done.
    rewrite list_lookup_fmap, list_lookup_imap, Hk. cbn [fmap option_fmap option_map].
    f_equal. unfold Merge.rotated, Merge.resolve, shown. cbn [fst snd mbind option_bind].
    rewrite Honl. rewrite bool_decide_eq_true_2.
    + destruct (Htotal k) as [c ->]; [by eapply lookup_lt_Some|]. done.
    + apply elem_of_seq_0. by eapply lookup_lt_Some.
  - intros f mergedPdf Hf. rewrite forEach_contribution, Hf, Hnone, app_nil_r.
    assert (Merge.rotatable (Some off, d) = true) as ->; [|done].
    unfold Merge.rotatable. apply forallb_forall. intros e He%list_elem_of_In.
    unfold Merge.writable. cbn [fst]. by rewrite (Hdesel e He).
  - intros f mergedPdf Hf. by rewrite forEach_contribution, Hf.
Qed.

Lemma select_buttons_and_merge_witness :
  ∃ off on,
    deselectAll 3 Samples.turned = Normal off
    ∧ selectAll 3 Samples.turned = Normal on
    ∧ Merge.contribution (Some off, default [] (Merge.document Samples.reportFile)) = []
    ∧ length (Merge.contribution (Some on, default [] (Merge.document Samples.reportFile)))
      = 3%nat
    ∧ (∀ k page, default [] (Merge.document Samples.reportFile) !! k = Some page →
         Merge.contribution (Some on, default [] (Merge.document Samples.reportFile)) !! k
         = Some {| Merge.content := Merge.content page;
                   Merge.angle := Merge.angle page + rotation (shown Samples.turned k) |})
    ∧ (∀ f mergedPdf, Merge.pageConfig f = Some off →
         Merge.forEach f (imap pair (default [] (Merge.document Samples.reportFile)))
           mergedPdf = Some mergedPdf)
    ∧ (∀ f mergedPdf, Merge.pageConfig f = Some on →
         Merge.forEach f (imap pair (default [] (Merge.document Samples.reportFile)))
           mergedPdf
         = if Merge.rotatable (Some on, default [] (Merge.document Samples.reportFile))
           then Some (mergedPdf
                      ++ Merge.contribution
                           (Some on, default [] (Merge.document Samples.reportFile)))
           else None).
Proof.
  apply (select_buttons_and_merge Samples.turned
           (default [] (Merge.document Samples.reportFile))).
  intros [|[|[|i]]] Hi; [by eexists..|simpl in Hi; lia].
Defined.

Lemma resolve_loadPdf_empty n i :
  Merge.resolve (Some (loadPdf n ∅)) i = Merge.resolve None i.
Proof.
  unfold Merge.resolve. cbn [mbind option_bind]. unfold loadPdf.
  pose proof (initLoop_lookup n ∅ i) as Hl. rewrite lookup_empty in Hl.
  destruct (initLoop n ∅) as [newConfig changed]. cbn [fst] in Hl.
  destruct (changed && _); [|by rewrite lookup_empty].
  rewrite Hl. by case_bool_decide.
Qed.

Lemma mergeLoop_fmap_ext (g : Merge.AppFile → Merge.AppFile) pdfFiles mergedPdf :
  (∀ f, f ∈ pdfFiles →
        Merge.document (Merge.file (g f)) = Merge.document (Merge.file f)
        ∧ ∀ i, Merge.resolve (Merge.pageConfig (g f)) i
               = Merge.resolve (Merge.pageConfig f) i) →
  Merge.mergeLoop (g <$> pdfFiles) mergedPdf = Merge.mergeLoop pdfFiles mergedPdf.
Proof.
  revert mergedPdf. induction pdfFiles as [|f rest IH]; intros mergedPdf Hall; [done|].
  cbn [fmap list_fmap Merge.mergeLoop].
  destruct (Hall f) as [-> Hres]; [left|].
  destruct (Merge.document (Merge.file f)) as [d|]; [|done].
  rewrite !forEach_emitted.
  rewrite (concat_fmap_ext (Merge.emitted (Merge.pageConfig (g f)))
             (Merge.emitted (Merge.pageConfig f)))
    by (intros e _; unfold Merge.emitted, Merge.rotated; by rewrite Hres).
  assert (forallb (Merge.writable (Merge.pageConfig (g f))) (imap pair d)
          = forallb (Merge.writable (Merge.pageConfig f)) (imap pair d)) as ->.
  { induction (imap pair d) as [|e l IHl]; [done|]. cbn [forallb].
    by rewrite IHl, (writable_agree (Merge.pageConfig f)). }
  destruct (forallb _ _); cbn [mbind option_bind]; [|done].
  apply IH. intros h Hh. apply Hall. by right.
Qed.

(** X20. Opening the page editor on a document that has no configuration and
    saving without touching anything does not change what the merge
    produces. *)
Theorem save_untouched_same_merge (compression : bool) (st : MergeUI.View)
    (editing : Merge.AppFile) (numPages : nat) :
  MergeUI.editingPagesFile st = Some editing →
  (∀ f, f ∈ MergeUI.files st → Merge.id f = Merge.id editing →
        Merge.pageConfig f = None) →
  Merge.createMergedPdfBlob compression
    (MergeUI.files (MergeUI.handleSavePageConfig (loadPdf numPages ∅) st))
  = Merge.createMergedPdfBlob compression (MergeUI.files st).
Proof.
  intros Hedit Hnone. unfold MergeUI.handleSavePageConfig. rewrite Hedit.
  cbn [MergeUI.setEditingPagesFile MergeUI.setFiles MergeUI.files].
  unfold Merge.createMergedPdfBlob. rewrite mergeLoop_fmap_ext; [done|].
  intros f Hf. destruct (String.eqb_spec (Merge.id f) (Merge.id editing)) as [Heq|_]; [|done].
  split; [done|]. intros i. cbn [MergeUI.withPageConfig Merge.pageConfig].
  by rewrite (Hnone f Hf Heq), resolve_loadPdf_empty.
Qed.

Lemma save_untouched_same_merge_witness :
  Merge.createMergedPdfBlob true
    (MergeUI.files (MergeUI.handleSavePageConfig (loadPdf 3 ∅) Scenarios.editing))
  = Merge.createMergedPdfBlob true (MergeUI.files Scenarios.editing).
Proof.
  apply (save_untouched_same_merge true Scenarios.editing Scenarios.reportApp 3);
    [reflexivity|].
  intros f Hf _. cbn in Hf.
  repeat (apply elem_of_cons in Hf as [->|Hf]; [reflexivity|]).
  by apply not_elem_of_nil in Hf.
Defined.

End EditorMergeFacts.

(** ** SignMode: the preview and the stamped page *)

Section PlacementFacts.
Import Sign.
Local Open Scope Q_scope.

Lemma drawOptions_visual st signatureDims size canvas :
  useVisualPlacement st = true → canvasDims st = Some canvas →
  drawOptions st signatureDims size
  = {| origin := {| x := x (dragPos st) / width canvas * width size;
                    y := height size - y (dragPos st) / height canvas * height size
                         - height signatureDims |};
       extent := signatureDims |}.
Proof. intros Hv Hc. unfold drawOptions. by rewrite Hv, Hc. Qed.

(** The stamp on the previewed page, in preview pixels. *)
Lemma stamp_in_preview_pixels (k dx dy cw ch rw rh sw sh : Q) :
  0 < k → cw == k * rw → ch == k * rh → 0 < rw → 0 < rh →
  k * (dx / cw * rw) == dx
  ∧ k * (rh - (rh - dy / ch * rh - sh + sh)) == dy.
Proof.
  intros Hk Hw Hh Hrw Hrh. rewrite Hw, Hh. split; field; split; lra.
Qed.

(** X21. What the preview shows is what the previewed page gets: when the
    preview canvas is the reference page enlarged by a factor [k], the stamp
    drawn on a page of the reference size has, multiplied by [k], the position
    of the dragged box (measured from the top left corner) and the size of the
    footprint shown in the preview. *)
Theorem preview_matches_stamp (st : State) (img : ImageFile) (canvas ref : Dims) (k : Q) :
  useVisualPlacement st = true →
  canvasDims st = Some canvas →
  pdfPageDimensions st = Some ref →
  sigImageDims st = Some (pixels img) →
  0 < k → width canvas == k * width ref → height canvas == k * height ref →
  0 < width ref → 0 < height ref → 0 < width (pixels img) →
  let o := drawOptions st (scale img (signatureScale st)) ref in
  k * x (origin o) == x (dragPos st)
  ∧ k * (height ref - (y (origin o) + height (extent o))) == y (dragPos st)
  ∧ k * width (extent o) == visualWidth st
  ∧ k * height (extent o) == visualHeight st (pixels img).
Proof.
  intros Hv Hc Hp Hs Hk Hw Hh Hrw Hrh Hiw o. subst o.
  rewrite (drawOptions_visual _ _ _ _ Hv Hc).
  cbn [origin extent x y width height scale].
  destruct (stamp_in_preview_pixels k (x (dragPos st)) (y (dragPos st))
              (width canvas) (height canvas) (width ref) (height ref)
              (width (pixels img) * signatureScale st)
              (height (pixels img) * signatureScale st) Hk Hw Hh Hrw Hrh) as [Hx Hy].
  split; [exact Hx|]. split.
  { rewrite <-Hy at 2. ring. }
  unfold visualHeight, visualWidth. rewrite Hs, Hp, Hc, Hw.
  split; field; lra.
Qed.

Lemma preview_matches_stamp_witness :
  let o := drawOptions Samples.centred
             (scale Samples.signature (signatureScale Samples.centred))
             {| width := 600; height := 800 |} in
  (1 # 2) * x (origin o) == x (dragPos Samples.centred)
  ∧ (1 # 2) * (800 - (y (origin o) + height (extent o))) == y (dragPos Samples.centred)
  ∧ (1 # 2) * width (extent o) == visualWidth Samples.centred
  ∧ (1 # 2) * height (extent o) == visualHeight Samples.centred (pixels Samples.signature).
Proof.
  apply (preview_matches_stamp Samples.centred Samples.signature
           {| width := 300; height := 400 |} {| width := 600; height := 800 |} (1 # 2));
    try reflexivity.
Defined.

End PlacementFacts.

(** ** SignMode: uploads and the signing pass *)

Section SignRunFacts.
Import Sign.

Lemma handleMouseMove_frame canvas clientX clientY st :
  pdfs (handleMouseMove canvas clientX clientY st) = pdfs st
  ∧ signatureImage (handleMouseMove canvas clientX clientY st) = signatureImage st.
Proof.
  unfold handleMouseMove.
  by destruct (isDragging st), canvas, (sigImageDims st).
Qed.

Lemma previewRendered_frame clientWidth viewport st :
  pdfs (SignUI.previewRendered clientWidth viewport st) = pdfs st
  ∧ signatureImage (SignUI.previewRendered clientWidth viewport st) = signatureImage st.
Proof. unfold SignUI.previewRendered. by destruct (_ || _). Qed.

Lemma act_accepted a v :
  SignUI.accepted (SignUI.state v) → SignUI.accepted (SignUI.state (SignUI.act a v)).
Proof.
  intros [Hpdfs Hsig].
  destruct a as [stamp newFiles|upload|img|i| |visual corner rule factor
                |clientWidth unscaledViewport| | |canvas clientX clientY| ];
    cbn [SignUI.act SignUI.onState SignUI.state].
  - unfold SignUI.handlePdfUpload. destruct (_ && _); [done|]. split; [|done].
    cbn. apply Forall_app. split; [done|]. apply Forall_forall.
    intros p (i & f & -> & Hf)%elem_of_lookup_imap. cbn.
    apply list_elem_of_lookup_2, list_elem_of_In, filter_In in Hf. tauto.
  - unfold SignUI.handleSignatureUpload. destruct upload as [img|]; [|done].
    destruct (SignUI.isRaster img) eqn:Himg; [|done]. split; [done|].
    cbn. by intros ? [= <-].
  - done.
  - split; [|done]. cbn. apply Forall_forall. intros p Hp.
    apply list_elem_of_In, filter_In in Hp as [Hp _].
    rewrite Forall_forall in Hpdfs. by apply Hpdfs, list_elem_of_In.
  - split; [done|]. cbn. by intros ? [=].
  - done.
  - destruct (previewRendered_frame clientWidth unscaledViewport (SignUI.state v))
      as [Hp Hs]. unfold SignUI.accepted. by rewrite Hp, Hs.
  - done.
  - done.
  - destruct (handleMouseMove_frame canvas clientX clientY (SignUI.state v)) as [Hp Hs].
    unfold SignUI.accepted. by rewrite Hp, Hs.
  - unfold SignUI.afterSign. destruct (handleSign _); [done|done|].
    split; [by constructor|]. cbn. by intros ? [=].
Qed.

(** X23. In every state the component reaches from its initial state, by
    uploads, removals, changes of the settings, preview renderings, drags and
    signing passes, every target document was accepted as a PDF (by type, or by
    a name ending in .pdf whatever the letter case), and the signature image,
    while there is one, has the type image/jpeg or image/png, which is what
    the signing pass relies on when it embeds the image. *)
Theorem reachable_accepted (actions : list SignUI.Action) :
  SignUI.accepted (SignUI.state (SignUI.run actions SignUI.initial)).
Proof.
  unfold SignUI.run.
  assert (Hgen : ∀ v, SignUI.accepted (SignUI.state v) →
                      SignUI.accepted (SignUI.state (foldl (λ w a, SignUI.act a w) v actions))).
  { induction actions as [|a actions IH]; intros v Hv; [done|].
    simpl. by apply IH, act_accepted. }
  apply Hgen. split; [by constructor|]. cbn. by intros ? [=].
Qed.

Lemma mapM_sign_Some st img (targets : list SignFile) :
  embeds img = true →
  forallb (λ p, bool_decide (is_Some (document (file p)))) targets = true →
  is_Some (mapM (λ pdfItem,
             pages ← document (file pdfItem);
             if embeds img then
               Some {| signedName := newName (file pdfItem);
                       blob := save (stampDocument st (scale img (signatureScale st)) pages) |}
             else None) targets).
Proof.
  intros Hemb. destruct (embeds img); [clear Hemb|done].
  induction targets as [|p l IH]; intros Hall; [by eexists|].
  cbn [forallb] in Hall. apply andb_true_iff in Hall as [Hp Hl].
  apply bool_decide_eq_true in Hp as [pages Hp].
  destruct (IH Hl) as [signedPdfs Hs].
  cbn [mapM]. rewrite Hp. cbn [mbind option_bind].
  rewrite Hs. by eexists.
Qed.

Lemma mapM_sign_None st img (targets : list SignFile) :
  targets ≠ [] →
  embeds img
  && forallb (λ p, bool_decide (is_Some (document (file p)))) targets = false →
  mapM (λ pdfItem,
          pages ← document (file pdfItem);
          if embeds img then
            Some {| signedName := newName (file pdfItem);
                    blob := save (stampDocument st (scale img (signatureScale st)) pages) |}
          else None) targets
  = None.
Proof.
  induction targets as [|p l IH]; intros Hne Hbad; [done|].
  cbn [mapM]. destruct (document (file p)) as [pages|] eqn:Hp; [|done].
  cbn [mbind option_bind]. destruct (embeds img) eqn:Hemb; [|done].
  cbn [mbind option_bind andb forallb] in *.
  rewrite bool_decide_eq_true_2 in Hbad by (by rewrite Hp). cbn [andb] in Hbad.
  destruct l as [|q l]; [done|]. by rewrite IH.
Qed.

(** X24. A signing pass is all or nothing.  With at least one target and a
    signature: when every target loads and the image can be embedded,
    something is downloaded and the targets and the signature are cleared;
    otherwise nothing is downloaded, the error message is set, and the targets,
    the signature and the settings stay as they were, so that the pass can be
    repeated. *)
Theorem sign_all_or_nothing (v : SignUI.View) (img : ImageFile) :
  pdfs (SignUI.state v) ≠ [] →
  signatureImage (SignUI.state v) = Some img →
  if embeds img
     && forallb (λ p, bool_decide (is_Some (document (file p)))) (pdfs (SignUI.state v))
  then
    (∃ d, handleSign (SignUI.state v) = Downloaded d)
    ∧ pdfs (SignUI.state (SignUI.afterSign v)) = []
    ∧ signatureImage (SignUI.state (SignUI.afterSign v)) = None
    ∧ sigImageDims (SignUI.state (SignUI.afterSign v)) = None
    ∧ SignUI.error (SignUI.afterSign v) = None
  else
    handleSign (SignUI.state v) = Failed "Ocurrió un error al firmar los documentos."
    ∧ SignUI.error (SignUI.afterSign v)
      = Some "Ocurrió un error al firmar los documentos."
    ∧ SignUI.state (SignUI.afterSign v) = SignUI.state v.
Proof.
  intros Hne Himg. unfold SignUI.afterSign, handleSign. rewrite Himg.
  destruct (pdfs (SignUI.state v)) as [|p l] eqn:Hpdfs; [done|]. clear Hne.
  destruct (embeds img && _) eqn:Hok.
  - apply andb_true_iff in Hok as [Hemb Hall].
    pose proof (mapM_sign_Some (SignUI.state v) img (p :: l) Hemb Hall) as [signedPdfs Hs].
    unfold signAll. rewrite Hpdfs, Hs.
    destruct signedPdfs as [|only [|]]; cbn; eauto 10.
  - pose proof (mapM_sign_None (SignUI.state v) img (p :: l)) as Hs.
    unfold signAll. rewrite Hpdfs, Hs by done. done.
Qed.

(** Two targets and a signature that embeds, and the same two targets with
    an image that does not. *)
Lemma sign_all_or_nothing_witness :
  let v := {| SignUI.state := Samples.cornered [Samples.contract; Samples.invoice];
              SignUI.error := None; SignUI.isSigning := false |} in
  let w := {| SignUI.state :=
                SignUI.setSignature
                  (Some {| imageType := "image/png"; pixels := pixels Samples.signature;
                           embeds := false |})
                  (Some (pixels Samples.signature))
                  (Samples.cornered [Samples.contract; Samples.invoice]);
              SignUI.error := None; SignUI.isSigning := false |} in
  ((∃ d, handleSign (SignUI.state v) = Downloaded d)
   ∧ pdfs (SignUI.state (SignUI.afterSign v)) = []
   ∧ signatureImage (SignUI.state (SignUI.afterSign v)) = None
   ∧ sigImageDims (SignUI.state (SignUI.afterSign v)) = None
   ∧ SignUI.error (SignUI.afterSign v) = None)
  ∧ (handleSign (SignUI.state w) = Failed "Ocurrió un error al firmar los documentos."
     ∧ SignUI.error (SignUI.afterSign w)
       = Some "Ocurrió un error al firmar los documentos."
     ∧ SignUI.state (SignUI.afterSign w) = SignUI.state w).
Proof.
  split.
  - apply (sign_all_or_nothing
             {| SignUI.state := Samples.cornered [Samples.contract; Samples.invoice];
                SignUI.error := None; SignUI.isSigning := false |} Samples.signature);
      [discriminate|reflexivity].
  - apply (sign_all_or_nothing
             {| SignUI.state :=
                  SignUI.setSignature
                    (Some {| imageType := "image/png"; pixels := pixels Samples.signature;
                             embeds := false |})
                    (Some (pixels Samples.signature))
                    (Samples.cornered [Samples.contract; Samples.invoice]);
                SignUI.error := None; SignUI.isSigning := false |}
             {| imageType := "image/png"; pixels := pixels Samples.signature;
                embeds := false |});
      [discriminate|reflexivity].
Defined.

End SignRunFacts.

(** ** MergeMode: the size of a compressed image *)

Section CompressionFacts.
Import Sign.
Local Open Scope Q_scope.

Lemma scaled_edge (short long : Q) :
  0 < short → short <= long → 2000 < long →
  let q := short * Compression.MAX_DIMENSION / long in
  0 < q ∧ q <= 2000 ∧ q <= short ∧ q * long == 2000 * short.
Proof.
  intros Hs Hle Hbig q. subst q. unfold Compression.MAX_DIMENSION.
  split_and!.
  - apply Qlt_shift_div_l; lra.
  - apply Qle_shift_div_r; lra.
  - apply Qle_shift_div_r; [lra|]. nra.
  - field. lra.
Qed.

Lemma targetSize_shape (img : Dims) :
  0 < width img → 0 < height img →
  let t := Compression.targetSize img in
  0 < width t ∧ 0 < height t
  ∧ width t <= 2000 ∧ height t <= 2000
  ∧ width t <= width img ∧ height t <= height img
  ∧ width t * height img == height t * width img
  ∧ (width img <= 2000 → height img <= 2000 → t = img)
  ∧ (2000 < width img ∨ 2000 < height img →
     (width t == 2000 ∧ height t <= width t) ∨ (height t == 2000 ∧ width t <= height t)).
Proof.
  intros Hw Hh t. subst t. unfold Compression.targetSize.
  destruct (Qltb Compression.MAX_DIMENSION (width img)) eqn:H1;
    destruct (Qltb Compression.MAX_DIMENSION (height img)) eqn:H2;
    cbn [orb];
    try apply Qltb_true in H1; try apply Qltb_false in H1;
    try apply Qltb_true in H2; try apply Qltb_false in H2;
    unfold Compression.MAX_DIMENSION in H1, H2;
    [| | |split_and!; try lra; try done; intros [?|?]; lra].
  all: destruct (Qltb (height img) (width img)) eqn:H3;
    [apply Qltb_true in H3|apply Qltb_false in H3]; cbn [width height].
  all: try (destruct (scaled_edge (height img) (width img)) as (Hq1 & Hq2 & Hq3 & Hq4);
    [lra|lra|lra|]; cbn zeta in Hq1, Hq2, Hq3, Hq4;
    set (q := height img * Compression.MAX_DIMENSION / width img) in *;
    unfold Compression.MAX_DIMENSION;
    by split_and!; try lra;
       first [rewrite Hq4; ring|intros; exfalso; lra
             |intros _; left; split; [reflexivity|lra]]).
  all: destruct (scaled_edge (width img) (height img)) as (Hq1 & Hq2 & Hq3 & Hq4);
    [lra|lra|lra|]; cbn zeta in Hq1, Hq2, Hq3, Hq4;
    set (q := width img * Compression.MAX_DIMENSION / height img) in *;
    unfold Compression.MAX_DIMENSION;
    split_and!; try lra;
    first [rewrite Hq4; ring|intros; exfalso; lra
          |intros _; right; split; [reflexivity|lra]].
Qed.

(** X25. The size an image is redrawn with before it is converted: for an
    image of positive width and height, neither side exceeds 2000 or the side
    of the original, the proportions are those of the original, an image
    within 2000 x 2000 keeps its size, and a larger one gets a longer side of
    exactly 2000. *)
Theorem targetSize_fits (img : Dims) :
  0 < width img → 0 < height img →
  let t := Compression.targetSize img in
  0 < width t ∧ 0 < height t
  ∧ width t <= 2000 ∧ height t <= 2000
  ∧ width t <= width img ∧ height t <= height img
  ∧ width t * height img == height t * width img
  ∧ (width img <= 2000 → height img <= 2000 → t = img)
  ∧ (2000 < width img ∨ 2000 < height img →
     (width t == 2000 ∧ height t <= width t) ∨ (height t == 2000 ∧ width t <= height t)).
Proof. exact (targetSize_shape img). Qed.

Lemma targetSize_fits_witness :
  let t := Compression.targetSize {| width := 4000; height := 3000 |} in
  0 < width t ∧ 0 < height t
  ∧ width t <= 2000 ∧ height t <= 2000
  ∧ width t <= 4000 ∧ height t <= 3000
  ∧ width t * 3000 == height t * 4000
  ∧ (4000 <= 2000 → 3000 <= 2000 → t = {| width := 4000; height := 3000 |})
  ∧ (2000 < 4000 ∨ 2000 < 3000 →
     (width t == 2000 ∧ height t <= width t) ∨ (height t == 2000 ∧ width t <= height t)).
Proof.
  apply (targetSize_fits {| width := 4000; height := 3000 |}); reflexivity.
Defined.

(** X26. The canvas the image is redrawn on, in whole pixels: for an image of
    positive size neither side exceeds 2000, an image larger than 2000 x 2000
    gets a longer side of exactly 2000 pixels, and the shorter side is the
    scaled length rounded down, which makes the width 0 for an image whose
    height is more than 2000 times its width. *)
Theorem canvasSize_fits (img : Dims) :
  0 < width img → 0 < height img →
  let c := Compression.canvasSize img in
  (0 <= c.1 <= 2000)%Z ∧ (0 <= c.2 <= 2000)%Z
  ∧ (2000 < width img ∨ 2000 < height img →
     (c.1 = 2000 ∧ c.2 <= c.1)%Z ∨ (c.2 = 2000 ∧ c.1 <= c.2)%Z)
  ∧ (2000 < height img → width img * 2000 < height img → c.1 = 0%Z).
Proof.
  intros Hw Hh c. subst c. unfold Compression.canvasSize. cbn [fst snd].
  destruct (targetSize_shape img Hw Hh) as (H1 & H2 & H3 & H4 & _ & _ & Hasp & _ & Hlong).
  cbn zeta in *.
  set (t := Compression.targetSize img) in *.
  assert (Hfloor : ∀ q, 0 < q → q <= 2000 → (0 <= Qfloor q <= 2000)%Z).
  { intros q Hq1 Hq2. split.
    - change (Qfloor 0 <= Qfloor q)%Z. apply Qfloor_resp_le. lra.
    - change (Qfloor q <= Qfloor 2000)%Z. by apply Qfloor_resp_le. }
  split; [by apply Hfloor|]. split; [by apply Hfloor|]. split.
  - intros Hbig. destruct (Hlong Hbig) as [[He Hle]|[He Hle]].
    + left. split; [by rewrite He|by apply Qfloor_resp_le].
    + right. split; [by rewrite He|by apply Qfloor_resp_le].
  - intros Htall Hthin.
    destruct (Hlong (or_intror Htall)) as [[He Hle]|[He Hle]].
    + exfalso. rewrite He in Hasp. nra.
    + rewrite He in Hasp.
      assert (Hlt : width t < 1) by nra.
      pose proof (Qfloor_resp_le _ _ (Qlt_le_weak _ _ H1)) as Hlo.
      change (Qfloor 0) with 0%Z in Hlo.
      pose proof (Qfloor_le (width t)) as Hfl.
      assert (inject_Z (Qfloor (width t)) < inject_Z 1) as Hz.
      { eapply Qle_lt_trans; [exact Hfl|exact Hlt]. }
      rewrite <-Zlt_Qlt in Hz. lia.
Qed.

Lemma canvasSize_fits_witness :
  let c := Compression.canvasSize {| width := 1; height := 5000 |} in
  (0 <= c.1 <= 2000)%Z ∧ (0 <= c.2 <= 2000)%Z
  ∧ (2000 < 1 ∨ 2000 < 5000 →
     (c.1 = 2000 ∧ c.2 <= c.1)%Z ∨ (c.2 = 2000 ∧ c.1 <= c.2)%Z)
  ∧ (2000 < 5000 → 1 * 2000 < 5000 → c.1 = 0%Z).
Proof.
  apply (canvasSize_fits {| width := 1; height := 5000 |}); reflexivity.
Defined.

End CompressionFacts.

(** ** The names of converted and compressed files *)

Section ConverterNames.
Import JS.

Lemma units_of_units l : units (String.string_of_list_ascii l) = l.
Proof. apply String.list_ascii_of_string_of_list_ascii. Qed.

Lemma replaceExtensionUnits_stem r stem ext :
  ext ≠ [] → Forall (λ c, c ≠ "/"%char ∧ c ≠ "."%char) ext →
  Names.replaceExtensionUnits r (stem ++ "."%char :: ext) = stem ++ r.
Proof.
  intros Hne Hext.
  assert (Hok : forallb (λ d, negb (bool_decide (d = "/"%char)
                                    || bool_decide (d = "."%char))) ext = true).
  { apply forallb_forall. intros c Hc%list_elem_of_In.
    rewrite Forall_forall in Hext. destruct (Hext c Hc) as [H1 H2].
    by rewrite !bool_decide_eq_false_2. }
  induction stem as [|c stem IH]; cbn [app Names.replaceExtensionUnits].
  - rewrite bool_decide_eq_true_2 by done.
    rewrite (bool_decide_eq_false_2 (ext = [])) by done. by rewrite Hok.
  - rewrite IH. destruct (bool_decide (c = "."%char)); [|done]. cbn [andb].
    destruct (bool_decide (stem ++ "."%char :: ext = [])); [done|]. cbn [negb andb].
    rewrite forallb_app. cbn [forallb].
    rewrite (bool_decide_eq_true_2 ("."%char = "."%char)) by done.
    by rewrite orb_true_r, andb_false_r.
Qed.

Lemma replaceExtensionUnits_no_dot r l :
  "."%char ∉ l → Names.replaceExtensionUnits r l = l.
Proof.
  induction l as [|c l IH]; intros Hdot; [done|]. cbn [Names.replaceExtensionUnits].
  rewrite bool_decide_eq_false_2 by (intros ->; apply Hdot; left).
  cbn [andb]. rewrite IH; [done|]. intros Hin. apply Hdot. by right.
Qed.

Lemma lastIndexOfUnit_None c l : c ∉ l → Names.lastIndexOfUnit c l = None.
Proof.
  induction l as [|a l IH]; intros Hc; [done|]. cbn [Names.lastIndexOfUnit].
  rewrite IH by (intros Hin; apply Hc; by right).
  rewrite bool_decide_eq_false_2; [done|]. intros ->. apply Hc. left.
Qed.

Lemma lastIndexOfUnit_last c stem ext :
  c ∉ ext → Names.lastIndexOfUnit c (stem ++ c :: ext) = Some (length stem).
Proof.
  intros Hc. induction stem as [|a stem IH]; cbn [app Names.lastIndexOfUnit length].
  - rewrite lastIndexOfUnit_None by done. by rewrite bool_decide_eq_true_2.
  - by rewrite IH.
Qed.

(** X27. For a name [stem.ext] with a non-empty stem and an extension made of
    one or more characters other than the dot and the slash, both converters
    name their result [stem.pdf]: the image converter, which cuts at the last
    dot, and the office converter, which replaces the extension. *)
Theorem converters_agree_on_names (name : string) (stem ext : list ascii) :
  units name = stem ++ "."%char :: ext →
  stem ≠ [] → ext ≠ [] →
  Forall (λ c, c ≠ "/"%char ∧ c ≠ "."%char) ext →
  Names.imagePdfName name = String.string_of_list_ascii stem +:+ ".pdf"
  ∧ Names.officePdfName name = String.string_of_list_ascii stem +:+ ".pdf".
Proof.
  intros Hname Hstem Hne Hext. split.
  - unfold Names.imagePdfName. rewrite Hname.
    rewrite lastIndexOfUnit_last.
    + cbn [Names.substringTo]. rewrite take_app_length.
      rewrite isEmpty_units, units_of_units. by rewrite bool_decide_eq_false_2.
    + intros Hin. rewrite Forall_forall in Hext. by destruct (Hext _ Hin).
  - unfold Names.officePdfName, Names.replaceExtension. rewrite Hname.
    rewrite replaceExtensionUnits_stem by done.
    apply units_inj. by rewrite units_of_units, units_app, units_of_units.
Qed.

Lemma converters_agree_on_names_witness :
  Names.imagePdfName "holiday.2024.jpeg" = "holiday.2024.pdf"
  ∧ Names.officePdfName "holiday.2024.jpeg" = "holiday.2024.pdf".
Proof.
  apply (converters_agree_on_names "holiday.2024.jpeg" (units "holiday.2024") (units "jpeg")).
  - reflexivity.
  - discriminate.
  - discriminate.
  - repeat constructor; discriminate.
Defined.

(** X28. For a name without any dot the two converters differ: the image
    converter appends .pdf, the office converter returns the name unchanged,
    so that a converted office file can carry a name without the .pdf
    extension. *)
Theorem names_without_extension (name : string) :
  "."%char ∉ units name →
  Names.imagePdfName name = name +:+ ".pdf"
  ∧ Names.officePdfName name = name.
Proof.
  intros Hdot. split.
  - unfold Names.imagePdfName. by rewrite lastIndexOfUnit_None.
  - unfold Names.officePdfName, Names.replaceExtension.
    rewrite replaceExtensionUnits_no_dot by done.
    apply String.string_of_list_ascii_of_string.
Qed.

Lemma names_without_extension_witness :
  Names.imagePdfName "minutes" = "minutes.pdf" ∧ Names.officePdfName "minutes" = "minutes".
Proof.
  apply (names_without_extension "minutes"). vm_compute.
  intros H. repeat (apply elem_of_cons in H as [H|H]; [discriminate|]).
  by apply not_elem_of_nil in H.
Defined.

Lemma startsWithUnits_spec l p :
  startsWithUnits l p = true ↔ ∃ r, l = p ++ r.
Proof.
  revert l. induction p as [|a p IH]; intros l.
  - split; [intros _; by exists l|by destruct l].
  - destruct l as [|c l]; cbn [startsWithUnits].
    + split; [done|by intros [r [=]]].
    + rewrite andb_true_iff, bool_decide_eq_true, IH. split.
      * intros [-> [r ->]]. by exists r.
      * intros [r [= -> ->]]. eauto.
Qed.

Lemma endsWithUnits_spec l suffix :
  endsWithUnits l suffix = true ↔ ∃ stem, l = stem ++ suffix.
Proof.
  unfold endsWithUnits. rewrite startsWithUnits_spec. split.
  - intros [r Hr]. exists (reverse r).
    apply (inj reverse). by rewrite Hr, reverse_app, reverse_involutive.
  - intros [stem ->]. exists (reverse stem). by rewrite reverse_app.
Qed.

Lemma lowerUnit_dot c : lowerUnit c = "."%char ↔ c = "."%char.
Proof.
  split; [|by intros ->].
  destruct c as [[] [] [] [] [] [] [] []]; vm_compute; intros H; done.
Qed.

Lemma lowerUnit_p c : lowerUnit c = "p"%char ↔ c = "p"%char ∨ c = "P"%char.
Proof.
  split; [|by intros [->| ->]].
  destruct c as [[] [] [] [] [] [] [] []]; vm_compute; intros H;
    first [discriminate H|by left|by right].
Qed.

Lemma lowerUnit_d c : lowerUnit c = "d"%char ↔ c = "d"%char ∨ c = "D"%char.
Proof.
  split; [|by intros [->| ->]].
  destruct c as [[] [] [] [] [] [] [] []]; vm_compute; intros H;
    first [discriminate H|by left|by right].
Qed.

Lemma lowerUnit_f c : lowerUnit c = "f"%char ↔ c = "f"%char ∨ c = "F"%char.
Proof.
  split; [|by intros [->| ->]].
  destruct c as [[] [] [] [] [] [] [] []]; vm_compute; intros H;
    first [discriminate H|by left|by right].
Qed.

Lemma isDotPdf_spec e :
  Names.isDotPdf e = true ↔ lowerUnit <$> e = units ".pdf".
Proof.
  destruct e as [|a [|b [|c [|d [|x e]]]]]; try (split; [done|by intros [=]]).
  cbn [Names.isDotPdf fmap list_fmap].
  rewrite !andb_true_iff, !orb_true_iff, !bool_decide_eq_true.
  rewrite <-lowerUnit_dot, <-lowerUnit_p, <-lowerUnit_d, <-lowerUnit_f.
  split.
  - by intros [[[-> ->] ->] ->].
  - by intros [= -> -> -> ->].
Qed.

Lemma stripPdfSuffixUnits_stem stem ext :
  Names.isDotPdf ext = true → Names.stripPdfSuffixUnits (stem ++ ext) = stem.
Proof.
  intros Hext.
  assert (Hlen : length ext = 4%nat).
  { by destruct ext as [|a [|b [|c [|d [|x e]]]]]. }
  induction stem as [|c stem IH]; cbn [app].
  - destruct ext as [|a ext]; [done|]. cbn [Names.stripPdfSuffixUnits]. by rewrite Hext.
  - cbn [Names.stripPdfSuffixUnits]. rewrite IH.
    assert (Names.isDotPdf (c :: stem ++ ext) = false) as ->; [|done].
    assert (Hl : (4 < length (c :: stem ++ ext))%nat).
    { cbn [length]. rewrite length_app. lia. }
    by destruct (stem ++ ext) as [|a [|b [|c' [|d [|x e]]]]]; cbn in Hl; try lia.
Qed.

Lemma stripPdfSuffixUnits_id l :
  (∀ stem e, l = stem ++ e → Names.isDotPdf e = false) →
  Names.stripPdfSuffixUnits l = l.
Proof.
  induction l as [|c l IH]; intros Hno; [done|]. cbn [Names.stripPdfSuffixUnits].
  rewrite (Hno [] (c :: l) eq_refl). f_equal. apply IH.
  intros stem e ->. by apply (Hno (c :: stem) e).
Qed.

(** X29. The name of a compressed document, for every file the component
    accepts: when the name of the source ends in .pdf, in whatever letter
    case, these four characters are replaced by -comprimido.pdf; otherwise the
    file was accepted by its type, and -comprimido.pdf is appended to the
    whole name. *)
Theorem compress_finalName (f : Merge.File) :
  Compress.accepts f = true →
  (∃ stem ext,
     units (Merge.name f) = stem ++ ext
     ∧ lowerUnit <$> ext = units ".pdf"
     ∧ Compress.finalName f = String.string_of_list_ascii stem +:+ "-comprimido.pdf")
  ∨ (Merge.mime f = "application/pdf"
     ∧ endsWith (toLowerCase (Merge.name f)) ".pdf" = false
     ∧ Compress.finalName f = Merge.name f +:+ "-comprimido.pdf").
Proof.
  unfold Compress.accepts. intros Hacc.
  destruct (endsWith (toLowerCase (Merge.name f)) ".pdf") eqn:Hends.
  - left. unfold endsWith in Hends. rewrite units_toLowerCase in Hends.
    apply endsWithUnits_spec in Hends as [low Hlow].
    apply fmap_app_inv in Hlow as (stem & ext & -> & Hext & Hname).
    symmetry in Hext. exists stem, ext. split; [done|]. split; [done|].
    unfold Compress.finalName, Names.stripPdfSuffix. rewrite Hname.
    rewrite stripPdfSuffixUnits_stem; [done|]. by apply isDotPdf_spec.
  - right. rewrite orb_false_r in Hacc. apply String.eqb_eq in Hacc.
    split; [done|]. split; [done|].
    unfold Compress.finalName, Names.stripPdfSuffix.
    rewrite stripPdfSuffixUnits_id.
    + by rewrite String.string_of_list_ascii_of_string.
    + intros stem e Hname. destruct (Names.isDotPdf e) eqn:He; [|done].
      apply isDotPdf_spec in He.
      assert (endsWithUnits (lowerUnit <$> units (Merge.name f)) (units ".pdf") = true)
        as Hyes.
      { apply endsWithUnits_spec. exists (lowerUnit <$> stem).
        by rewrite Hname, fmap_app, He. }
      unfold endsWith in Hends. rewrite units_toLowerCase in Hends. congruence.
Qed.

Lemma compress_finalName_witness :
  (∃ stem ext,
     units "Invoice.PDF" = stem ++ ext
     ∧ lowerUnit <$> ext = units ".pdf"
     ∧ Compress.finalName (Samples.source "Invoice.PDF" "")
       = String.string_of_list_ascii stem +:+ "-comprimido.pdf")
  ∨ ("" = "application/pdf"
     ∧ endsWith (toLowerCase "Invoice.PDF") ".pdf" = false
     ∧ Compress.finalName (Samples.source "Invoice.PDF" "")
       = "Invoice.PDF" +:+ "-comprimido.pdf").
Proof.
  apply (compress_finalName (Samples.source "Invoice.PDF" "")). reflexivity.
Defined.

End ConverterNames.

(** ** App.tsx: the merge without page configuration *)

Section AppFacts.

Lemma no_office_files files :
  (0 <? length (List.filter App.isOffice files))%nat = false
  ↔ Forall (λ f, MergeUI.isPdf f = true) files.
Proof.
  induction files as [|f files IH]; [by split; [constructor|]|].
  cbn [List.filter]. unfold App.isOffice at 1.
  destruct (MergeUI.isPdf f) eqn:Hf; cbn [negb].
  - rewrite IH. split; [by constructor|by inversion 1].
  - split; [done|]. inversion 1; congruence.
Qed.

Lemma foldl_snoc {A} (l acc : list A) : foldl (λ merged page, merged ++ [page]) acc l = acc ++ l.
Proof.
  revert acc. induction l as [|a l IH]; intros acc; simpl; [by rewrite app_nil_r|].
  by rewrite IH, <-app_assoc.
Qed.

Lemma app_mergeLoop_agrees files mergedPdf :
  (∀ f, f ∈ files → Merge.pageConfig f = None) →
  App.mergeLoop files mergedPdf = Merge.mergeLoop files mergedPdf.
Proof.
  revert mergedPdf. induction files as [|f rest IH]; intros mergedPdf Hnone; [done|].
  cbn [App.mergeLoop Merge.mergeLoop].
  destruct (Merge.document (Merge.file f)) as [d|]; [|done].
  rewrite foldl_snoc, forEach_contribution, (Hnone f) by left.
  rewrite rotatable_default, contribution_default by done.
  cbn [mbind option_bind].
  apply IH. intros g Hg. apply Hnone. by right.
Qed.

(** X30. The merge of App.tsx goes ahead exactly when the list holds at
    least two documents and no Word or Excel file; what it then produces is
    what the merge of MergeMode produces for the same list when no document
    has a page configuration. *)
Theorem app_merge (files : list Merge.AppFile) :
  (App.refusal files = None
   ↔ (2 <= length files)%nat ∧ Forall (λ f, MergeUI.isPdf f = true) files)
  ∧ ∀ compression,
      App.refusal files = None →
      (∀ f, f ∈ files → Merge.pageConfig f = None) →
      App.merged files = Merge.pages <$> Merge.createMergedPdfBlob compression files.
Proof.
  assert (Hiff : App.refusal files = None
    ↔ (2 <= length files)%nat ∧ Forall (λ f, MergeUI.isPdf f = true) files).
  { unfold App.refusal. destruct files as [|f [|g rest]].
    - cbn. split; [done|]. intros [? _]. lia.
    - cbn [length Nat.eqb Nat.ltb Nat.leb forallb andb List.filter].
      unfold App.isOffice. destruct (MergeUI.isPdf f); cbn; (split; [done|intros [? _]; lia]).
    - pose proof (no_office_files (f :: g :: rest)) as Hoffice.
      set (office := List.filter App.isOffice (f :: g :: rest)) in *.
      cbn [length Nat.eqb]. change (S (S (length rest)) <? 2)%nat with false.
      cbn [andb]. destruct (0 <? length office)%nat.
      + split; [done|]. intros [_ Hall]. apply Hoffice in Hall. congruence.
      + split; [|done]. intros _. split; [lia|by apply Hoffice]. }
  split; [done|]. intros compression Hgo Hnone.
  unfold App.merged. rewrite Hgo. apply Hiff in Hgo as [_ Hall].
  rewrite filter_all by (by apply Forall_forall).
  unfold App.createMergedPdfBlob, Merge.createMergedPdfBlob.
  rewrite app_mergeLoop_agrees by done.
  by destruct (Merge.mergeLoop files []).
Qed.

End AppFacts.
